(** * NetworkClass: a shallow embedding of the spiking-network simulator

    The Python class [Network] of [NetworkClass.py] is embedded function by
    function.  NumPy [float64] arrays are read as lists of real numbers with
    exact arithmetic; Python exceptions are explicit results; the calls to
    [np.random.rand] read successive elements of a stream of draws. *)

From Stdlib Require Import String Reals Lra Lia List Bool Arith ZArith.
Import ListNotations.
Open Scope R_scope.

(** ** Comparisons and element-wise helpers *)

Definition Rgtb (x y : R) : bool := if Rgt_dec x y then true else false.
Definition Rltb (x y : R) : bool := if Rlt_dec x y then true else false.
Definition Rleb (x y : R) : bool := if Rle_dec x y then true else false.
Definition Reqb (x y : R) : bool := if Req_dec_T x y then true else false.

(** A NumPy boolean used in arithmetic counts as 1.0 or 0.0. *)
Definition b2R (b : bool) : R := if b then 1 else 0.

(** [np.heaviside(x, h0)] *)
Definition heaviside (x h0 : R) : R :=
  if Rlt_dec x 0 then 0 else if Req_dec_T x 0 then h0 else 1.

Fixpoint map2 {A B C : Type} (f : A -> B -> C) (a : list A) (b : list B) : list C :=
  match a, b with
  | x :: a', y :: b' => f x y :: map2 f a' b'
  | _, _ => []
  end.

Definition vsum (v : list R) : R := fold_right Rplus 0 v.

(** [M.dot(v)] for a matrix given by its rows. *)
Definition dot (M : list (list R)) (v : list R) : list R :=
  map (fun row => vsum (map2 Rmult row v)) M.

(** [B.dot(v)] for a boolean matrix. *)
Definition dot_bool (B : list (list bool)) (v : list R) : list R :=
  map (fun row => vsum (map2 (fun b x => b2R b * x) row v)) B.

(** [np.nonzero(mask)[0]]: the positions holding [True]. *)
Fixpoint nonzero_from (k : nat) (mask : list bool) : list nat :=
  match mask with
  | [] => []
  | b :: m => if b then k :: nonzero_from (S k) m else nonzero_from (S k) m
  end.

Definition nonzero (mask : list bool) : list nat := nonzero_from 0 mask.

(** [v[idx]] with an integer index array. *)
Definition take_idx {A : Type} (d : A) (v : list A) (idx : list nat) : list A :=
  map (fun k => nth k v d) idx.

(** Whether every index of [idx] lies inside [v]; [v[idx]] raises
    [IndexError] otherwise. *)
Definition in_range {A : Type} (v : list A) (idx : list nat) : bool :=
  forallb (fun k => Nat.ltb k (length v)) idx.

(** Writing one cell: [v[k] = x] (no effect here when [k] is out of range;
    every caller below checks the range where NumPy would raise). *)
Fixpoint set_nth {A : Type} (k : nat) (x : A) (v : list A) : list A :=
  match v, k with
  | [], _ => []
  | _ :: v', O => x :: v'
  | y :: v', S k' => y :: set_nth k' x v'
  end.

(** [v[idx] = vals], pairing index [idx[j]] with [vals[j]]. *)
Fixpoint assign_idx {A : Type} (v : list A) (idx : list nat) (vals : list A) : list A :=
  match idx, vals with
  | k :: idx', x :: vals' => assign_idx (set_nth k x v) idx' vals'
  | _, _ => v
  end.

(** [v[idx] = x] with a scalar right-hand side. *)
Definition assign_idx_scalar {A : Type} (v : list A) (idx : list nat) (x : A) : list A :=
  fold_left (fun acc k => set_nth k x acc) idx v.

(** [v[mask] = x] with a boolean mask. *)
Definition assign_mask (v : list R) (mask : list bool) (x : R) : list R :=
  map2 (fun y (b : bool) => if b then x else y) v mask.

(** [M[:, i] = col] *)
Definition set_col (M : list (list R)) (i : nat) (col : list R) : list (list R) :=
  map2 (fun row x => set_nth i x row) M col.

Definition zeros (k : nat) : list R := repeat 0 k.
Definition zeros2 (rows cols : nat) : list (list R) := repeat (zeros cols) rows.

(** [np.linspace(start, stop, num)] *)
Definition linspace (start stop : R) (num : nat) : list R :=
  match num with
  | O => []
  | S O => [start]
  | _ => map (fun k => start + INR k * ((stop - start) / INR (num - 1))) (seq 0 num)
  end.

(** ** Exceptions *)

Inductive exn : Type :=
| KeyError
| IndexError
| ValueError
| AttributeError
| UnboundLocalError.

(** One-dimensional NumPy broadcasting of an element-wise binary operation:
    equal lengths, or one operand of length one. *)
Definition np_bin (f : R -> R -> R) (a b : list R) : exn + list R :=
  if Nat.eqb (length a) (length b) then inr (map2 f a b)
  else match a, b with
       | [x], _ => inr (map (f x) b)
       | _, [y] => inr (map (fun x => f x y) a)
       | _, _ => inl ValueError
       end.

(** ** Dictionaries keyed by a pair of neuron types

    The tables [V_syn] and [connect_const] are Python dicts whose keys are
    pairs of 0/1; a lookup with [True]/[False] finds the same entry, so a
    key is a pair of booleans ([true] is 1, excitatory). *)

Definition table : Type := list ((bool * bool) * R).

Definition key_eqb (k1 k2 : bool * bool) : bool :=
  Bool.eqb (fst k1) (fst k2) && Bool.eqb (snd k1) (snd k2).

Fixpoint dict_get (d : table) (k : bool * bool) : exn + R :=
  match d with
  | [] => inl KeyError
  | (k', v) :: d' => if key_eqb k' k then inr v else dict_get d' k
  end.

(** ** The object *)

(** [self.model], [self.synaptic_current] and [self.input_current] hold
    bound methods; a tag says which method was stored. *)
Inductive variant : Type := fn_LIF | fn_SFA.

Record Config : Type := mkConfig {
  model_type : string;
  Vth : R;
  Vr : R;
  Vreset : R;
  Res : R;                      (* self.R *)
  tau : R;
  dt : R;
  dim : nat * nat * nat;
  clusters : nat;
  neuron_num : nat;
  cluster_pr : R;
  w : R;
  ref : list R;
  input_num : nat;
  connect_const : table;
  lamb_in : R;
  tau_psc : list R;
  lamb : R;
  keep_data : bool;
  model : option variant;
  synaptic_current : option variant;
  input_current : option variant;
  inh_idx : list nat;
  V_syn : table;
  Vk : R;
  gk : R;
  alpha : R;
  tauN : R;
  J : R;
  tauRise : R;
  tauDec : R
}.

Record Topology : Type := mkTopology {
  connections : list (list R);
  input_connections : list (list R);
  connections_bool : list (list bool);
  in_connections_bool : list (list bool)
}.

(** The attributes assigned by [reset_history]. *)
Record SimState : Type := mkSimState {
  activity_size : nat;
  spikes : list bool;
  spikes_in : list bool;
  spikes_syn : list bool;
  spikes_t : list R;
  spikes_t_syn : list R;
  Vs : list R;
  Is : list R;
  EPSC : list R;
  n : list R;
  Ia : list R;
  active : list nat;
  A : list R;
  isi : list R
}.

(** The attributes allocated by [run_model] when [keep_data] is set. *)
Record Recording : Type := mkRecording {
  Vseq : list (list R);
  spikes_seq : list (list R);
  EPSC_seq : list (list R);
  A_seq : list (list R);
  n_seq : list (list R);
  I_seq : list (list R)
}.

Record Network : Type := mkNetwork {
  cfg : Config;
  topo : Topology;
  type_array : list nat;
  t : R;
  input_t : list R;
  input_t_syn : list R;
  active_syn : option (list nat);
  sim : SimState;
  hist : option Recording
}.

(** Attribute assignment. *)
Definition set_t (net : Network) (x : R) : Network :=
  mkNetwork (cfg net) (topo net) (type_array net) x (input_t net)
            (input_t_syn net) (active_syn net) (sim net) (hist net).

Definition set_input_t (net : Network) (x : list R) : Network :=
  mkNetwork (cfg net) (topo net) (type_array net) (t net) x
            (input_t_syn net) (active_syn net) (sim net) (hist net).

Definition set_sim (net : Network) (s : SimState) : Network :=
  mkNetwork (cfg net) (topo net) (type_array net) (t net) (input_t net)
            (input_t_syn net) (active_syn net) s (hist net).

Definition set_hist (net : Network) (h : option Recording) : Network :=
  mkNetwork (cfg net) (topo net) (type_array net) (t net) (input_t net)
            (input_t_syn net) (active_syn net) (sim net) h.

Definition set_spikes (s : SimState) (x : list bool) : SimState :=
  mkSimState (activity_size s) x (spikes_in s) (spikes_syn s) (spikes_t s)
             (spikes_t_syn s) (Vs s) (Is s) (EPSC s) (n s) (Ia s) (active s)
             (A s) (isi s).

Definition set_spikes_t (s : SimState) (x : list R) : SimState :=
  mkSimState (activity_size s) (spikes s) (spikes_in s) (spikes_syn s) x
             (spikes_t_syn s) (Vs s) (Is s) (EPSC s) (n s) (Ia s) (active s)
             (A s) (isi s).

Definition set_Vs (s : SimState) (x : list R) : SimState :=
  mkSimState (activity_size s) (spikes s) (spikes_in s) (spikes_syn s)
             (spikes_t s) (spikes_t_syn s) x (Is s) (EPSC s) (n s) (Ia s)
             (active s) (A s) (isi s).

Definition set_Is (s : SimState) (x : list R) : SimState :=
  mkSimState (activity_size s) (spikes s) (spikes_in s) (spikes_syn s)
             (spikes_t s) (spikes_t_syn s) (Vs s) x (EPSC s) (n s) (Ia s)
             (active s) (A s) (isi s).

Definition set_EPSC (s : SimState) (x : list R) : SimState :=
  mkSimState (activity_size s) (spikes s) (spikes_in s) (spikes_syn s)
             (spikes_t s) (spikes_t_syn s) (Vs s) (Is s) x (n s) (Ia s)
             (active s) (A s) (isi s).

Definition set_n (s : SimState) (x : list R) : SimState :=
  mkSimState (activity_size s) (spikes s) (spikes_in s) (spikes_syn s)
             (spikes_t s) (spikes_t_syn s) (Vs s) (Is s) (EPSC s) x (Ia s)
             (active s) (A s) (isi s).

Definition set_Ia (s : SimState) (x : list R) : SimState :=
  mkSimState (activity_size s) (spikes s) (spikes_in s) (spikes_syn s)
             (spikes_t s) (spikes_t_syn s) (Vs s) (Is s) (EPSC s) (n s) x
             (active s) (A s) (isi s).

Definition set_active (s : SimState) (x : list nat) : SimState :=
  mkSimState (activity_size s) (spikes s) (spikes_in s) (spikes_syn s)
             (spikes_t s) (spikes_t_syn s) (Vs s) (Is s) (EPSC s) (n s)
             (Ia s) x (A s) (isi s).

(** ** reset_history *)

Definition reset_history (net : Network) : Network :=
  let c := cfg net in
  let soc_syn := String.eqb (model_type c) "SOC_syn" in
  let size := if soc_syn then (neuron_num c + input_num c)%nat else neuron_num c in
  let s := mkSimState
             size
             (repeat false (neuron_num c))            (* spikes *)
             (repeat false (input_num c))             (* spikes_in *)
             (repeat false size)                      (* spikes_syn *)
             (repeat (-1) (neuron_num c))             (* spikes_t *)
             (repeat (-1) (neuron_num c))             (* spikes_t_syn *)
             (repeat (Vr c) (neuron_num c))           (* Vs *)
             (zeros (neuron_num c))                   (* Is *)
             (zeros (neuron_num c))                   (* EPSC *)
             (zeros (neuron_num c))                   (* n *)
             (zeros (neuron_num c))                   (* Ia *)
             (repeat 0%nat size)                      (* active *)
             (zeros size)                             (* A *)
             [] in                                    (* isi *)
  mkNetwork c (topo net)
            (assign_idx_scalar (type_array net) (inh_idx c) 0%nat)
            (t net) (input_t net) (input_t_syn net)
            (if soc_syn then Some (repeat 0%nat size) else active_syn net)
            s (hist net).

(** ** The two neuron models *)

(** The value of [LIF] where its two index expressions are in range. *)
Definition LIF_values (net : Network) : list R :=
  let c := cfg net in
  let s := sim net in
  map2 (fun v i => (Vr c - v + i * Res c) / tau c)
       (take_idx 0 (Vs s) (active s)) (take_idx 0 (Is s) (active s)).

(** [LIF]: the derivative over the active neurons; [self.Vs[self.active]]
    and [self.Is[self.active]] raise when an active index is out of range. *)
Definition LIF (net : Network) : exn + list R :=
  let s := sim net in
  if in_range (Vs s) (active s) && in_range (Is s) (active s)
  then inr (LIF_values net) else inl IndexError.

(** The value of [synaptic_current_LIF] where every neuron type indexes
    [tau_psc]. *)
Definition synaptic_current_LIF_values (net : Network) : list R :=
  let c := cfg net in
  let s := sim net in
  let d := map (fun sp => t net - sp) (spikes_t s) in
  let Isyn := map2 (fun x tp => exp (- x / tp) * heaviside x 1)
                   d (take_idx 0 (tau_psc c) (type_array net)) in
  assign_mask Isyn (map (fun sp => Rltb sp 0) (spikes_t s)) 0.

(** [synaptic_current_LIF]: [self.tau_psc[self.type_array]] raises when a
    neuron type has no entry in [tau_psc]. *)
Definition synaptic_current_LIF (net : Network) : exn + list R :=
  if in_range (tau_psc (cfg net)) (type_array net)
  then inr (synaptic_current_LIF_values net) else inl IndexError.

(** [input_current_LIF]: [self.tau_psc[0]] raises on an empty [tau_psc]. *)
Definition input_current_LIF (net : Network) : exn + list R :=
  match tau_psc (cfg net) with
  | [] => inl IndexError
  | tp :: _ =>
      let d := map (fun it => t net - it) (input_t net) in
      let Isyn := map (fun x => exp (- x / tp) * heaviside x 1) d in
      inr (assign_mask Isyn (map (fun it => Rltb it 0) (input_t net)) 0)
  end.

(** The gate of [K_frac] for one neuron: [t - spikes_t <= 1 and spikes_t > 0]. *)
Definition K_gate (now sp : R) : bool := Rleb (now - sp) 1 && Rgtb sp 0.

(** One explicit-Euler update of the open-conductance fraction. *)
Definition K_update (c : Config) (x : R) (gate : bool) : R :=
  x - dt c * ((x / tauN c) - alpha c * (1 - x) * b2R gate).

Definition K_frac (net : Network) : Network :=
  let c := cfg net in
  let s := sim net in
  let time := map (K_gate (t net)) (spikes_t s) in
  set_sim net (set_n s (map2 (K_update c) (n s) time)).

(** [SFA]: updates [n] and [Ia], then returns the derivative.  [Is] is the
    one array whose length follows the injected row, so the operations that
    meet it broadcast. *)
Definition SFA (net : Network) : Network * (exn + list R) :=
  let c := cfg net in
  let net1 := K_frac net in
  let s1 := sim net1 in
  let ia := map2 (fun x v => gk c * x * (v - Vk c)) (n s1) (Vs s1) in
  let net2 := set_sim net1 (set_Ia s1 ia) in
  let s2 := sim net2 in
  (net2,
   match np_bin Rminus (Is s2) (Ia s2) with
   | inl e => inl e
   | inr diff =>
       match np_bin Rplus (map (fun v => Vr c - v) (Vs s2))
                          (map (fun x => x * Res c) diff) with
       | inl e => inl e
       | inr num => inr (map (fun x => x / tau c) num)
       end
   end).

Definition synaptic_current_SFA (net : Network) : list R :=
  let c := cfg net in
  let s := sim net in
  let d := map (fun sp => t net - sp) (spikes_t s) in
  let Isyn := map (fun x => J c * (exp (- x / tauDec c) - exp (- x / tauRise c))) d in
  assign_mask Isyn (map (fun sp => Rltb sp 0) (spikes_t s)) 0.

Definition input_current_SFA (net : Network) : list R :=
  let c := cfg net in
  let d := map (fun it => t net - it) (input_t net) in
  let Isyn := map (fun x => J c * (exp (- x / tauDec c) - exp (- x / tauRise c))) d in
  assign_mask Isyn (map (fun it => Rltb it 0) (input_t net)) 0.

(** Calling the stored bound methods. *)
Definition call_model (net : Network) : Network * (exn + list R) :=
  match model (cfg net) with
  | None => (net, inl AttributeError)
  | Some fn_LIF => (net, LIF net)
  | Some fn_SFA => SFA net
  end.

Definition call_synaptic_current (net : Network) : exn + list R :=
  match synaptic_current (cfg net) with
  | None => inl AttributeError
  | Some fn_LIF => synaptic_current_LIF net
  | Some fn_SFA => inr (synaptic_current_SFA net)
  end.

Definition call_input_current (net : Network) : exn + list R :=
  match input_current (cfg net) with
  | None => inl AttributeError
  | Some fn_LIF => input_current_LIF net
  | Some fn_SFA => inr (input_current_SFA net)
  end.

(** ** run_model *)

(** What a call leaves behind: the object, and the exception if one was
    raised (the object is then as the failing statement found it). *)
Inductive outcome : Type :=
| Done (net : Network)
| Raised (e : exn) (net : Network).

Definition outcome_net (o : outcome) : Network :=
  match o with Done net => net | Raised _ net => net end.

(** The mask of lines 255-256 where every neuron type indexes [ref]. *)
Definition refractory_mask_values (net : Network) : list bool :=
  map2 (fun sp r => Rgtb (t net - sp) r || Reqb sp (-1))
       (spikes_t (sim net)) (take_idx 0 (ref (cfg net)) (type_array net)).

(** Lines 255-256: the mask of the neurons that are out of their refractory
    period or have never spiked; [self.ref[self.type_array]] raises when a
    neuron type has no entry in [ref]. *)
Definition refractory_mask (net : Network) : exn + list bool :=
  if in_range (ref (cfg net)) (type_array net)
  then inr (refractory_mask_values net) else inl IndexError.

(** Lines 253-261.  The second component is the exception of line 256 or
    the local variable [active_neurons]; [None] means that no branch has
    bound it. *)
Definition stage_active (net : Network) : Network * (exn + option (list nat)) :=
  let r1 :=
    if String.eqb (model_type (cfg net)) "LIF" then
      match refractory_mask net with
      | inl e => (net, inl e)
      | inr mask =>
          let a := nonzero mask in
          (set_sim net (set_active (sim net) a), inr (Some a))
      end
    else (net, inr None) in
  match snd r1 with
  | inl _ => r1
  | inr _ =>
      if String.eqb (model_type (cfg net)) "SFA" then
        let a := seq 0 (neuron_num (cfg net)) in
        (set_sim (fst r1) (set_active (sim (fst r1)) a), inr (Some a))
      else r1
  end.

(** [np.where(row)[0]] *)
Definition where_nonzero (row : list R) : list nat :=
  nonzero (map (fun x => negb (Reqb x 0)) row).

(** Lines 263-269: the external current [I_cur]. *)
Definition stage_input (input_type : bool) (row : list R) (t_cur : R)
    (net : Network) : Network * (exn + list R) :=
  if input_type then
    let idx := where_nonzero row in
    if forallb (fun k => Nat.ltb k (length (input_t net))) idx then
      let net1 := set_input_t net (assign_idx_scalar (input_t net) idx t_cur) in
      match call_input_current net1 with
      | inl e => (net1, inl e)
      | inr ic =>
          (net1,
           inr (map2 Rminus
                  (dot (input_connections (topo net1)) ic)
                  (map2 Rmult (dot_bool (in_connections_bool (topo net1)) ic)
                        (Vs (sim net1)))))
      end
    else (net, inl IndexError)
  else (net, inr row).

(** Line 273: [self.Vs[active_neurons] = self.Vs[active_neurons] + self.dt * self.model()];
    the left operand [self.Vs[active_neurons]] is read first and raises when
    an index is out of range. *)
Definition stage_integrate (an : list nat) (net : Network) : outcome :=
  if in_range (Vs (sim net)) an then
    let lhs := take_idx 0 (Vs (sim net)) an in
    let (net1, d) := call_model net in
    match d with
    | inl e => Raised e net1
    | inr deriv =>
        match np_bin Rplus lhs (map (fun x => dt (cfg net1) * x) deriv) with
        | inl e => Raised e net1
        | inr rhs =>
            if Nat.eqb (length rhs) (length an) then
              Done (set_sim net1 (set_Vs (sim net1) (assign_idx (Vs (sim net1)) an rhs)))
            else
              match rhs with
              | [x] => Done (set_sim net1 (set_Vs (sim net1)
                                             (assign_idx_scalar (Vs (sim net1)) an x)))
              | _ => Raised ValueError net1
              end
        end
    end
  else Raised IndexError net.

(** Lines 275-280: spike detection, last-spike time, transient zero. *)
Definition stage_spike (t_cur : R) (net : Network) : Network :=
  let s := sim net in
  let sp := map (fun v => Rgtb v (Vth (cfg net))) (Vs s) in
  let s1 := set_spikes s sp in
  let s2 := set_spikes_t s1 (assign_mask (spikes_t s1) sp t_cur) in
  let s3 := set_Vs s2 (assign_mask (Vs s2) sp 0) in
  set_sim net s3.

(** Lines 281-285. *)
Definition stage_EPSC (net : Network) : outcome :=
  match call_synaptic_current net with
  | inl e => Raised e net
  | inr syn =>
      let e :=
        if String.eqb (model_type (cfg net)) "SFA" then
          map2 Rminus (dot (connections (topo net)) syn)
               (map2 Rmult (dot_bool (connections_bool (topo net)) syn) (Vs (sim net)))
        else dot (connections (topo net)) syn in
      Done (set_sim net (set_EPSC (sim net) e))
  end.

(** Lines 287-292: column [i] of the history. *)
Definition stage_record (i : nat) (net : Network) : outcome :=
  if keep_data (cfg net) then
    match hist net with
    | None => Raised AttributeError net
    | Some h =>
        let s := sim net in
        Done (set_hist net (Some (mkRecording
               (set_col (Vseq h) i (Vs s))
               (set_col (spikes_seq h) i (map b2R (spikes s)))
               (set_col (EPSC_seq h) i (EPSC s))
               (set_col (A_seq h) i (A s))
               (set_col (n_seq h) i (n s))
               (I_seq h))))
    end
  else Done net.

(** Line 293: [self.Vs[self.spikes] = self.Vreset] *)
Definition stage_reset (net : Network) : Network :=
  let s := sim net in
  set_sim net (set_Vs s (assign_mask (Vs s) (spikes s) (Vreset (cfg net)))).

(** Line 296: [self.Is = I_cur + self.EPSC] *)
Definition stage_currents (I_cur : list R) (net : Network) : outcome :=
  match np_bin Rplus I_cur (EPSC (sim net)) with
  | inl e => Raised e net
  | inr x => Done (set_sim net (set_Is (sim net) x))
  end.

(** The part of an iteration after the integration: lines 275-296. *)
Definition after_integrate (i : nat) (t_cur : R) (I_cur : list R) (net : Network) : outcome :=
  match stage_EPSC (stage_spike t_cur net) with
  | Raised e n1 => Raised e n1
  | Done n1 =>
      match stage_record i n1 with
      | Raised e n2 => Raised e n2
      | Done n2 => stage_currents I_cur (stage_reset n2)
      end
  end.

(** The first part of an iteration, lines 251-273: the object after the
    integration (or as the failing statement found it) and [I_cur]. *)
Definition integrate_part (input_type : bool) (I : list (list R)) (i : nat) (t_cur : R)
    (net : Network) : Network * (exn + list R) :=
  let (net1, bound) := stage_active (set_t net t_cur) in
  match bound with
  | inl e => (net1, inl e)
  | inr active_neurons =>
      let (net2, ic) := stage_input input_type (nth (i - 1) I []) t_cur net1 in
      match ic with
      | inl e => (net2, inl e)
      | inr I_cur =>
          match active_neurons with
          | None => (net2, inl UnboundLocalError)
          | Some an =>
              match stage_integrate an net2 with
              | Raised e n3 => (n3, inl e)
              | Done n3 => (n3, inr I_cur)
              end
          end
      end
  end.

(** One iteration of the loop of [run_model], lines 251-296. *)
Definition run_step (input_type : bool) (I : list (list R)) (i : nat) (t_cur : R)
    (net : Network) : outcome :=
  let (n3, r) := integrate_part input_type I i t_cur net in
  match r with
  | inl e => Raised e n3
  | inr I_cur => after_integrate i t_cur I_cur n3
  end.

Fixpoint run_loop (input_type : bool) (I : list (list R)) (its : list (nat * R))
    (net : Network) : outcome :=
  match its with
  | [] => Done net
  | (i, t_cur) :: rest =>
      match run_step input_type I i t_cur net with
      | Done net' => run_loop input_type I rest net'
      | Raised e net' => Raised e net'
      end
  end.

(** The number of iterations that ran to their end. *)
Fixpoint steps_completed (input_type : bool) (I : list (list R)) (its : list (nat * R))
    (net : Network) : nat :=
  match its with
  | [] => 0
  | (i, t_cur) :: rest =>
      match run_step input_type I i t_cur net with
      | Done net' => S (steps_completed input_type I rest net')
      | Raised _ _ => 0
      end
  end.

(** Lines 236-247: reset, then the allocation of the history. *)
Definition run_prepare (net : Network) (I : list (list R)) : Network :=
  let net0 := reset_history net in
  let T := length I in
  let N := neuron_num (cfg net0) in
  if keep_data (cfg net0) then
    set_hist net0 (Some (mkRecording
      (set_col (zeros2 N (T + 1)) 0 (Vs (sim net0)))
      (zeros2 N (T + 1))
      (zeros2 N (T + 1))
      (zeros2 (activity_size (sim net0)) (T + 1))
      (zeros2 N (T + 1))
      I))
  else net0.

(** The pairs [(i, t_cur)] of [enumerate(np.linspace(dt, t * dt, t), start=1)]. *)
Definition run_times (c : Config) (T : nat) : list (nat * R) :=
  combine (seq 1 T) (linspace (dt c) (INR T * dt c) T).

Definition run_model (net : Network) (I : list (list R)) (input_type : bool) : outcome :=
  run_loop input_type I (run_times (cfg net) (length I)) (run_prepare net I).

(** ** Topology generation *)

(** [get_pos]: [np.unravel_index(idx, self.dim)], row-major. *)
Definition get_pos (d : nat * nat * nat) (idx : nat) : exn + (nat * nat * nat) :=
  let '(d0, d1, d2) := d in
  if Nat.ltb idx (d0 * d1 * d2) then
    inr ((idx / (d1 * d2))%nat, ((idx / d2) mod d1)%nat, (idx mod d2)%nat)
  else inl ValueError.

(** [np.linalg.norm(p - q)] for a lattice position [p] and a point [q]. *)
Definition dist3 (p : nat * nat * nat) (q : R * R * R) : R :=
  let '(p0, p1, p2) := p in
  let '(q0, q1, q2) := q in
  sqrt ((INR p0 - q0) ^ 2 + (INR p1 - q1) ^ 2 + (INR p2 - q2) ^ 2).

Definition pos_R (p : nat * nat * nat) : R * R * R :=
  let '(p0, p1, p2) := p in (INR p0, INR p1, INR p2).

(** [np.isin(j, self.inh_idx)] *)
Definition isin (j : nat) (l : list nat) : bool := existsb (Nat.eqb j) l.

(** [M[j][i] = x] *)
Definition set_cell (M : list (list R)) (j i : nat) (x : R) : list (list R) :=
  set_nth j (set_nth i x (nth j M [])) M.

(** The arrays being filled and the number of draws consumed so far. *)
Record GenState : Type := mkGenState {
  g_connections : list (list R);
  g_input_connections : list (list R);
  g_draws : nat
}.

(** A [for] loop whose body may raise. *)
Fixpoint for_each {S : Type} (l : list nat) (body : nat -> S -> exn + S) (s : S) : exn + S :=
  match l with
  | [] => inr s
  | k :: l' =>
      match body k s with
      | inl e => inl e
      | inr s' => for_each l' body s'
      end
  end.

(** [mid = self.dim[2] // 2 - 0.5] *)
Definition mid (c : Config) : R := INR (snd (dim c) / 2) - 0.5.

(** The probability of an edge from an input channel to neuron [j]. *)
Definition input_connect_pr (c : Config) (p : nat * nat * nat) : R :=
  let neurons_dist := dist3 p (0, INR (snd (dim c)) - mid c, mid c) in
  0.242 * exp (- (neurons_dist / lamb_in c) ^ 2).

(** Lines 318-329: the body of the inner loop over the neurons. *)
Definition input_body (c : Config) (rand : nat -> R) (i j : nat) (g : GenState)
    : exn + GenState :=
  match get_pos (dim c) j with
  | inl e => inl e
  | inr p =>
      let connect_pr := input_connect_pr c p in
      let draw := rand (g_draws g) in
      if Rltb draw connect_pr then
        match dict_get (V_syn c) (negb (isin j (inh_idx c)), true) with
        | inl e => inl e
        | inr x =>
            inr (mkGenState (g_connections g)
                            (set_cell (g_input_connections g) j i x)
                            (S (g_draws g)))
        end
      else inr (mkGenState (g_connections g) (g_input_connections g) (S (g_draws g)))
  end.

(** [i // (self.neuron_num / self.clusters)] *)
Definition cluster_of (c : Config) (i : nat) : Z :=
  Int_part (INR i / (INR (neuron_num c) / INR (clusters c))).

(** Lines 337-351: the probability of the edge [(i, j)]. *)
Definition connect_pr_of (c : Config) (i j : nat) : exn + R :=
  if negb (Z.eqb (cluster_of c i) (cluster_of c j)) && Nat.ltb 1 (clusters c) then
    if Nat.ltb j i then
      match get_pos (dim c) i, get_pos (dim c) j with
      | inl e, _ => inl e
      | _, inl e => inl e
      | inr pi, inr pj =>
          let m := mid c in
          let neurons_dist :=
            (dist3 pi (0, INR (snd (fst (dim c))) - m, m) + dist3 pj (0, m, m)) / 2 in
          inr (cluster_pr c * exp (- (neurons_dist / lamb c) ^ 2))
      end
    else inr 0
  else
    match get_pos (dim c) i, get_pos (dim c) j with
    | inl e, _ => inl e
    | _, inl e => inl e
    | inr pi, inr pj =>
        let neurons_dist := dist3 pi (pos_R pj) in
        match dict_get (connect_const c)
                       (negb (isin i (inh_idx c)), negb (isin j (inh_idx c))) with
        | inl e => inl e
        | inr k => inr (k * exp (- (neurons_dist / lamb c) ^ 2))
        end
    end.

(** Lines 333-359: the body of the inner loop over the pairs. *)
Definition pair_body (c : Config) (rand : nat -> R) (i j : nat) (g : GenState)
    : exn + GenState :=
  if Nat.eqb i j then inr g
  else
    match connect_pr_of c i j with
    | inl e => inl e
    | inr connect_pr =>
        let draw := rand (g_draws g) in
        let g1 :=
          if Rltb draw connect_pr then
            match dict_get (V_syn c)
                           (negb (isin i (inh_idx c)), negb (isin j (inh_idx c))) with
            | inl e => inl e
            | inr x => inr (mkGenState (set_cell (g_connections g) i j x)
                                       (g_input_connections g) (S (g_draws g)))
            end
          else inr (mkGenState (g_connections g) (g_input_connections g) (S (g_draws g))) in
        match g1 with
        | inl e => inl e
        | inr g2 =>
            if Nat.eqb i j then
              inr (mkGenState (set_cell (g_connections g2) i j 0)
                              (g_input_connections g2) (g_draws g2))
            else inr g2
        end
    end.

Definition generate_connections (c : Config) (rand : nat -> R) (g : GenState)
    : exn + GenState :=
  match for_each (seq 0 (input_num c))
                 (fun i => for_each (seq 0 (neuron_num c / clusters c)) (input_body c rand i))
                 g with
  | inl e => inl e
  | inr g1 =>
      for_each (seq 0 (neuron_num c))
               (fun i => for_each (seq 0 (neuron_num c)) (pair_body c rand i))
               g1
  end.

(** ** The constructor *)

Module Args.

(** The arguments of [Network.__init__].  [inh_idx] stands for the sorted
    result of [np.random.choice(neuron_num, int(neuron_num * inh_frac),
    replace=False)]. *)
Record t : Type := mk {
  model : string;
  dim : nat * nat * nat;
  Vreset : R;
  R_ : R;
  tau : R;
  Vr : R;
  Vth : R;
  lamb : R;
  ref : list R;
  lamb_in : R;
  tau_psc : list R;
  keep_data : bool;
  dt : R;
  tauRise : R;
  tauDec : R;
  Vk : R;
  gk : R;
  alpha : R;
  tauN : R;
  J : R;
  input_num : nat;
  clusters : nat;
  cluster_pr : R;
  V_syn : table;
  connect_const : table;
  inh_idx : list nat
}.

End Args.

(** The default tables of the signature of [__init__]. *)
Definition default_V_syn : table :=
  [((true, true), 5); ((true, false), 25); ((false, true), -20); ((false, false), -20)].

Definition default_connect_const : table :=
  [((true, true), 0.3); ((true, false), 0.2); ((false, true), 0.4); ((false, false), 0.1)].

(** The default arguments, for a lattice [d] and a choice [inh] of inhibitory
    neurons. *)
Definition default_args (m : string) (d : nat * nat * nat) (inh : list nat) : Args.t :=
  Args.mk m d 5 1 30 0 15 2 [2; 3] 2 [6; 3] true 0.01 1 6.5 (-60.6) 10 0.02 230
          0.0615 1 1 0.1 default_V_syn default_connect_const inh.

(** The attributes set before [generate_connections] is called. *)
Definition init_config (a : Args.t) : Config :=
  let '(d0, d1, d2) := Args.dim a in
  let d := if Nat.ltb 1 (Args.clusters a)
           then (d0, (d1 * Args.clusters a)%nat, d2) else (d0, d1, d2) in
  let N := (let '(e0, e1, e2) := d in e0 * e1 * e2)%nat in
  let fn1 := if String.eqb (Args.model a) "SFA" then Some fn_SFA else None in
  let fn := if String.eqb (Args.model a) "LIF" || String.eqb (Args.model a) "SOC"
            then Some fn_LIF else fn1 in
  mkConfig (Args.model a) (Args.Vth a) (Args.Vr a) (Args.Vth a - Args.Vreset a)
           (Args.R_ a) (Args.tau a) (Args.dt a) d (Args.clusters a) N
           (Args.cluster_pr a) 1 (Args.ref a) (Args.input_num a)
           (Args.connect_const a) (Args.lamb_in a) (Args.tau_psc a) (Args.lamb a)
           (Args.keep_data a) fn fn fn (Args.inh_idx a) (Args.V_syn a)
           (Args.Vk a) (Args.gk a) (Args.alpha a) (Args.tauN a) (Args.J a)
           (Args.tauRise a) (Args.tauDec a).

(** [M != 0], element-wise. *)
Definition nonzero_mask (M : list (list R)) : list (list bool) :=
  map (map (fun x => negb (Reqb x 0))) M.

Definition empty_sim : SimState :=
  mkSimState 0 [] [] [] [] [] [] [] [] [] [] [] [] [].

(** [Network.__init__] *)
Definition init (a : Args.t) (rand : nat -> R) : exn + Network :=
  let c := init_config a in
  let N := neuron_num c in
  let type_array0 := assign_idx_scalar (repeat 1%nat N) (inh_idx c) 0%nat in
  match generate_connections c rand
          (mkGenState (zeros2 N N) (zeros2 N (input_num c)) 0) with
  | inl e => inl e
  | inr g =>
      let tp := mkTopology (g_connections g) (g_input_connections g)
                           (nonzero_mask (g_connections g))
                           (nonzero_mask (g_input_connections g)) in
      inr (reset_history
             (mkNetwork c tp type_array0 0 (repeat (-1) (input_num c))
                        (zeros (input_num c)) None empty_sim None))
  end.

(** ** Local field potential *)

(** [np.arctan2(y, x)] *)
Definition arctan2 (y x : R) : R :=
  if Rlt_dec 0 x then atan (y / x)
  else if Rlt_dec x 0 then
    if Rle_dec 0 y then atan (y / x) + PI else atan (y / x) - PI
  else if Rlt_dec 0 y then PI / 2
  else if Rlt_dec y 0 then - PI / 2
  else 0.

(** [get_r]: radius, angle, and a zero third row. *)
Definition get_r (x y : R) : R * R * R :=
  (sqrt (x ^ 2 + y ^ 2), arctan2 y x, 0).

(** [calc_dist], as the source computes it. *)
Definition calc_dist (r1 r2 : R * R * R) : R :=
  let '(a, th1, _) := r1 in
  let '(b, th2, _) := r2 in
  sqrt (a ^ 2 + b ^ 2 - a * b * cos (th1 - th2)).

(** [np.any(r != r0)] *)
Definition any_differs (r r0 : R * R * R) : bool :=
  let '(a, b, c) := r in
  let '(a0, b0, c0) := r0 in
  negb (Reqb a a0) || negb (Reqb b b0) || negb (Reqb c c0).

(** The channels that pass the guard of [get_phi], each with the current
    read and the distance that divides it. *)
Fixpoint phi_terms (d : nat * nat * nat) (SPC : list (list R)) (i : nat)
    (r : R * R * R) (tt : nat) : exn + list (R * R) :=
  match SPC with
  | [] => inr []
  | channel :: rest =>
      match get_pos d i with
      | inl e => inl e
      | inr (_, x, y) =>
          let r0 := get_r (INR x) (INR y) in
          let here :=
            if any_differs r r0 then
              match nth_error channel tt with
              | None => inl IndexError
              | Some cur => inr [(cur, calc_dist r r0)]
              end
            else inr [] in
          match here, phi_terms d rest (S i) r tt with
          | inl e, _ => inl e
          | _, inl e => inl e
          | inr h, inr l => inr (h ++ l)
          end
      end
  end.

(** [get_phi] *)
Definition get_phi (net : Network) (SPC : list (list R)) (r : R * R * R)
    (tt : nat) (sigma : R) : exn + R :=
  match phi_terms (dim (cfg net)) SPC 0 r tt with
  | inl e => inl e
  | inr terms =>
      let phi := vsum (map (fun cd => fst cd / (snd cd * (4 * PI * sigma))) terms) in
      inr (phi / (INR (length SPC) - 1))
  end.

(** The distance between two points in polar coordinates by the law of
    cosines, as the claim about [get_phi] words it. *)
Definition law_of_cosines_dist (r1 r2 : R * R * R) : R :=
  let '(a, th1, _) := r1 in
  let '(b, th2, _) := r2 in
  sqrt (a ^ 2 + b ^ 2 - 2 * a * b * cos (th1 - th2)).

(** ** Shapes

    [reset_history] and [run_model] allocate every per-neuron array with
    [neuron_num] entries and every history matrix with one column per step
    plus one; the constructor allocates the matrices of the topology. *)

Definition mat_shape {T : Type} (M : list (list T)) (rows cols : nat) : Prop :=
  length M = rows /\ Forall (fun row => length row = cols) M.

(** The arrays that [__init__] allocates and no method replaces. *)
Record shaped_topo (net : Network) : Prop := mkShapedTopo {
  sh_conn : length (connections (topo net)) = neuron_num (cfg net);
  sh_conn_bool : length (connections_bool (topo net)) = neuron_num (cfg net);
  sh_in : length (input_connections (topo net)) = neuron_num (cfg net);
  sh_in_bool : length (in_connections_bool (topo net)) = neuron_num (cfg net);
  sh_input_t : length (input_t net) = input_num (cfg net)
}.

(** The arrays of a run of [steps] steps. *)
Record shaped_run (steps : nat) (net : Network) : Prop := mkShapedRun {
  sh_Vs : length (Vs (sim net)) = neuron_num (cfg net);
  sh_spikes_t : length (spikes_t (sim net)) = neuron_num (cfg net);
  sh_n : length (n (sim net)) = neuron_num (cfg net);
  sh_hist : keep_data (cfg net) = true ->
            exists h, hist net = Some h /\
                      mat_shape (Vseq h) (neuron_num (cfg net)) (steps + 1) /\
                      mat_shape (spikes_seq h) (neuron_num (cfg net)) (steps + 1)
}.

(** The methods stored by [__init__] for the two models that [run_model]
    can step. *)
Definition wired (c : Config) : Prop :=
  (model_type c = "LIF"%string /\ model c = Some fn_LIF /\
   synaptic_current c = Some fn_LIF /\ input_current c = Some fn_LIF) \/
  (model_type c = "SFA"%string /\ model c = Some fn_SFA /\
   synaptic_current c = Some fn_SFA /\ input_current c = Some fn_SFA).

(** For the LIF model, whose lines 170, 181 and 256 index [tau_psc] and [ref]
    by neuron type: both tables have an entry for type 0 and for the type of
    every neuron. *)
Definition types_indexed (net : Network) : Prop :=
  model_type (cfg net) = "LIF"%string ->
  (0 < length (ref (cfg net)))%nat /\ (0 < length (tau_psc (cfg net)))%nat /\
  Forall (fun ty => (ty < length (ref (cfg net)))%nat /\
                    (ty < length (tau_psc (cfg net)))%nat) (type_array net).


(** The channel count that [run_model] expects for an input kind. *)
Definition expected_channels (c : Config) (input_type : bool) : nat :=
  if input_type then input_num c else neuron_num c.

(** A table that has an entry for each of the four pairs of types. *)
Definition complete (d : table) : Prop :=
  forall k : bool * bool, exists v : R, dict_get d k = inr v.

(** The resting state of a run of [steps] steps: every potential at [Vr],
    no last-spike time, no current, no spike, and nothing but zeros in the
    recorded spike series. *)
Record resting (steps : nat) (net : Network) : Prop := mkResting {
  rest_Vs : Vs (sim net) = repeat (Vr (cfg net)) (neuron_num (cfg net));
  rest_spikes_t : spikes_t (sim net) = repeat (-1) (neuron_num (cfg net));
  rest_Is : Is (sim net) = zeros (neuron_num (cfg net));
  rest_EPSC : EPSC (sim net) = zeros (neuron_num (cfg net));
  rest_spikes : spikes (sim net) = repeat false (neuron_num (cfg net));
  rest_hist : keep_data (cfg net) = true ->
              exists h, hist net = Some h /\
                        spikes_seq h = zeros2 (neuron_num (cfg net)) (steps + 1)
}.

(** Several calls of [run_model] in a row on the same object, whether or not
    a call raised. *)
Fixpoint run_many (net : Network) (runs : list (list (list R) * bool)) : Network :=
  match runs with
  | [] => net
  | (inj, input_type) :: rest => run_many (outcome_net (run_model net inj input_type)) rest
  end.

(** An entry that is zero or a value of the table [d]. *)
Definition table_value_or_zero (d : table) (x : R) : Prop :=
  x = 0 \/ exists k, dict_get d k = inr x.

(** The state of the generation: both matrices have their shape, the
    diagonal of [connections] is zero, every entry is zero or a value of
    [V_syn], and row [j] of [input_connections] holds nothing but zero and
    the entry of [V_syn] for the type of neuron [j] and an excitatory
    partner. *)
Record gen_inv (c : Config) (g : GenState) : Prop := mkGenInv {
  gi_shape : mat_shape (g_connections g) (neuron_num c) (neuron_num c);
  gi_in_shape : mat_shape (g_input_connections g) (neuron_num c) (input_num c);
  gi_diag : forall i, nth i (nth i (g_connections g) []) 0 = 0;
  gi_values : forall i j,
      table_value_or_zero (V_syn c) (nth j (nth i (g_connections g) []) 0);
  gi_in_values : forall j i,
      nth i (nth j (g_input_connections g) []) 0 = 0 \/
      dict_get (V_syn c) (negb (isin j (inh_idx c)), true) =
        inr (nth i (nth j (g_input_connections g) []) 0)
}.

(** The rows that an iteration of [run_model] accepts: as currents, a row
    with one entry per neuron or a single entry (which NumPy broadcasts); as
    spike events, a row whose non-zero entries all index an input channel. *)
Definition row_accepted (c : Config) (input_type : bool) (row : list R) : Prop :=
  if input_type then Forall (fun k => (k < input_num c)%nat) (where_nonzero row)
  else length row = neuron_num c \/ length row = 1%nat.

(** Example inputs: a lattice of one inhibitory neuron built with the
    default arguments, and a source of draws that always returns 0. *)
Definition one_inhibitory_args : Args.t := default_args "LIF" (1, 1, 1)%nat [0%nat].
Definition zero_draws : nat -> R := fun _ => 0.

(** Further example inputs, all on default arguments: two excitatory LIF
    neurons; one excitatory neuron for each of the models ['SOC'] and
    ['SFA']; a row of three neurons for the field potential; one LIF neuron
    whose resting potential lies above the threshold. *)
Definition two_neuron_args : Args.t := default_args "LIF" (1, 1, 2)%nat [].
Definition soc_args : Args.t := default_args "SOC" (1, 1, 1)%nat [].
Definition sfa_args : Args.t := default_args "SFA" (1, 1, 1)%nat [].
Definition row_of_three_args : Args.t := default_args "LIF" (1, 3, 1)%nat [].

Definition high_rest_args : Args.t :=
  Args.mk "LIF" (1, 1, 1)%nat 5 1 30 20 15 2 [2; 3] 2 [6; 3] true 0.01 1 6.5
          (-60.6) 10 0.02 230 0.0615 1 1 0.1 default_V_syn default_connect_const [].

(** A network object for given arguments and matrices, as the constructor
    leaves it. *)
Definition network_of (a : Args.t) (conn inp : list (list R)) : Network :=
  let c := init_config a in
  reset_history
    (mkNetwork c (mkTopology conn inp (nonzero_mask conn) (nonzero_mask inp))
               (assign_idx_scalar (repeat 1%nat (neuron_num c)) (inh_idx c) 0%nat)
               0 (repeat (-1) (input_num c)) (zeros (input_num c)) None
               empty_sim None).

Definition high_rest_net : Network := network_of high_rest_args [[0]] [[5]].
Definition one_inhibitory_net : Network := network_of one_inhibitory_args [[0]] [[-20]].
Definition sfa_net : Network := network_of sfa_args [[0]] [[5]].

(** More example inputs: one neuron in each of two clusters; two neurons
    and an empty table of connection constants. *)
Definition two_cluster_args : Args.t :=
  Args.mk "LIF" (1, 1, 1)%nat 5 1 30 0 15 2 [2; 3] 2 [6; 3] true 0.01 1 6.5
          (-60.6) 10 0.02 230 0.0615 1 2 0.1 default_V_syn default_connect_const [].

Definition no_const_args : Args.t :=
  Args.mk "LIF" (1, 1, 2)%nat 5 1 30 0 15 2 [2; 3] 2 [6; 3] true 0.01 1 6.5
          (-60.6) 10 0.02 230 0.0615 1 1 0.1 default_V_syn [] [].

(** One SFA neuron whose resting potential lies above the threshold, the
    other arguments at their defaults. *)
Definition high_rest_sfa_args : Args.t :=
  Args.mk "SFA" (1, 1, 1)%nat 5 1 30 20 15 2 [2; 3] 2 [6; 3] true 0.01 1 6.5
          (-60.6) 10 0.02 230 0.0615 1 1 0.1 default_V_syn default_connect_const [].

Definition high_rest_sfa_net : Network := network_of high_rest_sfa_args [[0]] [[5]].

(** One excitatory LIF neuron (type 1) and a table [ref] with the single
    entry of type 0. *)
Definition short_ref_args : Args.t :=
  Args.mk "LIF" (1, 1, 1)%nat 5 1 30 0 15 2 [2] 2 [6; 3] true 0.01 1 6.5
          (-60.6) 10 0.02 230 0.0615 1 1 0.1 default_V_syn default_connect_const [].

Definition short_ref_net : Network := network_of short_ref_args [[0]] [[5]].

(** A state two time units into a run, the first neuron having spiked at
    time 1. *)
Definition spiked_once (net : Network) : Network :=
  set_t (set_sim net (set_spikes_t (sim net) [1])) 2.

(** * Facts about the array helpers *)

Section ListFacts.

Context {A B C : Type}.

Lemma map2_length (f : A -> B -> C) (a : list A) (b : list B) :
  length (map2 f a b) = Nat.min (length a) (length b).
Proof.
  revert b; induction a as [|x a IH]; intros [|y b]; simpl; auto.
Qed.

Lemma nth_map2 (f : A -> B -> C) (a : list A) (b : list B) (k : nat) da db dc :
  (k < length a)%nat -> (k < length b)%nat ->
  nth k (map2 f a b) dc = f (nth k a da) (nth k b db).
Proof.
  revert b k; induction a as [|x a IH]; intros [|y b] k Ha Hb; simpl in *; try lia.
  destruct k; auto. apply IH; lia.
Qed.

Lemma map2_repeat_r (f : A -> B -> C) (a : list A) (y : B) (m : nat) :
  length a = m -> map2 f a (repeat y m) = map (fun x => f x y) a.
Proof.
  revert m; induction a as [|x a IH]; intros [|m] H; simpl in *; try lia; auto.
  f_equal. apply IH. lia.
Qed.

Lemma set_nth_length (k : nat) (x : A) (v : list A) :
  length (set_nth k x v) = length v.
Proof.
  revert k; induction v as [|y v IH]; intros [|k]; simpl; auto.
Qed.

Lemma nth_set_nth_eq (k : nat) (x d : A) (v : list A) :
  (k < length v)%nat -> nth k (set_nth k x v) d = x.
Proof.
  revert k; induction v as [|y v IH]; intros [|k] H; simpl in *; try lia; auto.
  apply IH; lia.
Qed.

Lemma nth_set_nth_neq (k j : nat) (x d : A) (v : list A) :
  k <> j -> nth j (set_nth k x v) d = nth j v d.
Proof.
  revert k j; induction v as [|y v IH]; intros [|k] [|j] H; simpl; auto; try lia.
Qed.

Lemma assign_idx_length (v : list A) (idx : list nat) (vals : list A) :
  length (assign_idx v idx vals) = length v.
Proof.
  revert v vals; induction idx as [|k idx IH]; intros v [|x vals]; simpl; auto.
  rewrite IH. apply set_nth_length.
Qed.

Lemma nth_assign_idx_other (v : list A) (idx : list nat) (vals : list A) (j : nat) d :
  ~ In j idx -> nth j (assign_idx v idx vals) d = nth j v d.
Proof.
  revert v vals; induction idx as [|k idx IH]; intros v [|x vals] H; simpl; auto.
  rewrite IH by (intro; apply H; right; assumption).
  apply nth_set_nth_neq. intro; apply H; left; assumption.
Qed.

Lemma assign_idx_scalar_length (v : list A) (idx : list nat) (x : A) :
  length (assign_idx_scalar v idx x) = length v.
Proof.
  unfold assign_idx_scalar. revert v; induction idx as [|k idx IH]; intro v; simpl; auto.
  rewrite IH. apply set_nth_length.
Qed.

Lemma nth_assign_idx_scalar_other (v : list A) (idx : list nat) (x : A) (j : nat) d :
  ~ In j idx -> nth j (assign_idx_scalar v idx x) d = nth j v d.
Proof.
  unfold assign_idx_scalar. revert v; induction idx as [|k idx IH]; intros v H; simpl; auto.
  rewrite IH by (intro; apply H; right; assumption).
  apply nth_set_nth_neq. intro; apply H; left; assumption.
Qed.

End ListFacts.

Lemma assign_mask_length (v : list R) (mask : list bool) (x : R) :
  length (assign_mask v mask x) = Nat.min (length v) (length mask).
Proof. apply map2_length. Qed.

Lemma nth_assign_mask (v : list R) (mask : list bool) (x : R) (k : nat) :
  (k < length v)%nat -> (k < length mask)%nat ->
  nth k (assign_mask v mask x) 0 = if nth k mask false then x else nth k v 0.
Proof.
  intros Hv Hm. unfold assign_mask.
  rewrite (nth_map2 _ v mask k 0 false 0) by assumption. reflexivity.
Qed.

Lemma set_col_length (M : list (list R)) (i : nat) (col : list R) :
  length col = length M -> length (set_col M i col) = length M.
Proof. intro H. unfold set_col. rewrite map2_length, H. apply Nat.min_id. Qed.

Lemma nth_set_col (M : list (list R)) (i : nat) (col : list R) (k : nat) :
  (k < length M)%nat -> (k < length col)%nat -> (i < length (nth k M []))%nat ->
  nth i (nth k (set_col M i col) []) 0 = nth k col 0.
Proof.
  intros HM Hc Hi. unfold set_col.
  rewrite (nth_map2 _ M col k [] 0 []) by assumption.
  apply nth_set_nth_eq. assumption.
Qed.

Lemma set_col_row_length (M : list (list R)) (i : nat) (col : list R) (k : nat) :
  length (nth k (set_col M i col) []) = length (nth k M []) \/
  nth k (set_col M i col) [] = [].
Proof.
  unfold set_col. revert col k; induction M as [|row M IH]; intros [|x col] [|k]; simpl; auto.
  left. apply set_nth_length.
Qed.

Lemma In_nonzero_from (mask : list bool) (s k : nat) :
  In k (nonzero_from s mask) <->
  (s <= k)%nat /\ (k - s < length mask)%nat /\ nth (k - s) mask false = true.
Proof.
  revert s; induction mask as [|b m IH]; intro s; simpl.
  - split; [tauto | intros (_ & H & _); lia].
  - assert (Hstep : In k (nonzero_from (S s) m) <->
                    (S s <= k)%nat /\ (k - S s < length m)%nat /\
                    nth (k - S s) m false = true) by apply IH.
    destruct (Nat.eq_dec k s) as [->|Hn].
    + rewrite Nat.sub_diag. destruct b; simpl.
      * split; [intros _; repeat split; auto; lia | auto].
      * split; [intro H; apply Hstep in H; lia | intros (_ & _ & H); discriminate].
    + assert (Hiff : (S s <= k)%nat /\ (k - S s < length m)%nat /\
                     nth (k - S s) m false = true <->
                     (s <= k)%nat /\ (k - s < S (length m))%nat /\
                     match (k - s)%nat with O => b | S j => nth j m false end = true).
      { split.
        - intros (H1 & H2 & H3). replace (k - s)%nat with (S (k - S s)) by lia.
          repeat split; auto; lia.
        - intros (H1 & H2 & H3). assert (S s <= k)%nat by lia.
          replace (k - s)%nat with (S (k - S s)) in H3 by lia.
          repeat split; auto; lia. }
      destruct b; simpl; rewrite <- Hiff, <- Hstep; [|tauto].
      split; [intros [H|H]; [congruence | auto] | auto].
Qed.

Lemma In_nonzero (mask : list bool) (k : nat) :
  In k (nonzero mask) <-> (k < length mask)%nat /\ nth k mask false = true.
Proof.
  unfold nonzero. rewrite In_nonzero_from, Nat.sub_0_r.
  split; [intros (_ & H1 & H2) | intros (H1 & H2)]; repeat split; auto; lia.
Qed.

Lemma zeros_length (k : nat) : length (zeros k) = k.
Proof. apply repeat_length. Qed.

Lemma nth_repeat_lt {T : Type} (x d : T) (m k : nat) :
  (k < m)%nat -> nth k (repeat x m) d = x.
Proof.
  revert k; induction m as [|m IH]; intros [|k] H; simpl; try lia; auto.
  apply IH; lia.
Qed.

Lemma linspace_length (a b : R) (m : nat) : length (linspace a b m) = m.
Proof.
  destruct m as [|[|m]]; simpl; auto.
  rewrite length_map, length_seq. reflexivity.
Qed.

Lemma nth_linspace (d : R) (T j : nat) :
  (j < T)%nat -> nth j (linspace d (INR T * d) T) 0 = INR (S j) * d.
Proof.
  intro Hj. destruct T as [|[|T]]; [lia | |].
  - assert (j = 0%nat) by lia. subst. simpl. lra.
  - unfold linspace.
    set (f := fun k : nat => d + INR k * ((INR (S (S T)) * d - d) / INR (S (S T) - 1))).
    change (nth j (map f (seq 0 (S (S T)))) 0 = INR (S j) * d).
    rewrite (nth_indep _ 0 (f 0%nat)) by (rewrite length_map, length_seq; exact Hj).
    rewrite map_nth, seq_nth by exact Hj. unfold f.
    replace (S (S T) - 1)%nat with (S T) by lia.
    assert (HT : INR (S T) <> 0) by (apply not_0_INR; lia).
    rewrite (S_INR (S T)), (S_INR j). simpl Nat.add.
    rewrite S_INR in HT |- *. field. exact HT.
Qed.

Lemma run_times_length (c : Config) (T : nat) : length (run_times c T) = T.
Proof.
  unfold run_times. rewrite length_combine, length_seq, linspace_length.
  apply Nat.min_id.
Qed.

Lemma nth_run_times (c : Config) (T j : nat) :
  (j < T)%nat -> nth j (run_times c T) (0%nat, 0) = (S j, INR (S j) * dt c).
Proof.
  intro Hj. unfold run_times.
  rewrite combine_nth by (rewrite length_seq, linspace_length; reflexivity).
  rewrite seq_nth by exact Hj. rewrite nth_linspace by exact Hj. reflexivity.
Qed.

(** * The loops of [generate_connections] *)

Lemma for_each_invariant {S : Type} (P : S -> Prop) (l : list nat)
    (body : nat -> S -> exn + S) :
  (forall k s s', In k l -> P s -> body k s = inr s' -> P s') ->
  forall s s', P s -> for_each l body s = inr s' -> P s'.
Proof.
  induction l as [|k l IH]; intros Hbody s s' Hs Hrun; simpl in Hrun.
  - injection Hrun as <-. exact Hs.
  - destruct (body k s) as [e|s1] eqn:Hk; [discriminate|].
    apply (IH (fun k' a b H => Hbody k' a b (or_intror H)) s1 s'); auto.
    apply (Hbody k s s1); auto. left; reflexivity.
Qed.

Lemma for_each_total {S : Type} (P : S -> Prop) (l : list nat)
    (body : nat -> S -> exn + S) :
  (forall k s, In k l -> P s -> exists s', body k s = inr s' /\ P s') ->
  forall s, P s -> exists s', for_each l body s = inr s' /\ P s'.
Proof.
  induction l as [|k l IH]; intros Hbody s Hs; simpl.
  - exists s. auto.
  - destruct (Hbody k s (or_introl eq_refl) Hs) as (s1 & -> & Hs1).
    apply IH; auto. intros k' a H. apply Hbody. right; exact H.
Qed.

Lemma get_pos_in_range (d : nat * nat * nat) (idx : nat) :
  (idx < fst (fst d) * snd (fst d) * snd d)%nat -> exists p, get_pos d idx = inr p.
Proof.
  destruct d as [[d0 d1] d2]. simpl. intro H. unfold get_pos.
  apply Nat.ltb_lt in H. rewrite H. eauto.
Qed.

(** The lattice of [init_config] has [neuron_num] points. *)
Lemma init_config_neuron_num (a : Args.t) :
  neuron_num (init_config a) =
  (fst (fst (dim (init_config a))) * snd (fst (dim (init_config a))) *
   snd (dim (init_config a)))%nat.
Proof.
  unfold init_config. destruct (Args.dim a) as [[d0 d1] d2].
  destruct (Nat.ltb 1 (Args.clusters a)); reflexivity.
Qed.

Lemma input_body_total (c : Config) (rand : nat -> R) (i j : nat) (g : GenState) :
  complete (V_syn c) ->
  (j < fst (fst (dim c)) * snd (fst (dim c)) * snd (dim c))%nat ->
  exists g', input_body c rand i j g = inr g'.
Proof.
  intros HV Hj. unfold input_body.
  destruct (get_pos_in_range _ _ Hj) as (p & ->).
  destruct (Rltb _ _); [|eauto].
  destruct (HV (negb (isin j (inh_idx c)), true)) as (v & ->). eauto.
Qed.

Lemma connect_pr_of_total (c : Config) (i j : nat) :
  complete (connect_const c) ->
  (i < fst (fst (dim c)) * snd (fst (dim c)) * snd (dim c))%nat ->
  (j < fst (fst (dim c)) * snd (fst (dim c)) * snd (dim c))%nat ->
  exists x, connect_pr_of c i j = inr x.
Proof.
  intros HC Hi Hj. unfold connect_pr_of.
  destruct (get_pos_in_range _ _ Hi) as (p & ->).
  destruct (get_pos_in_range _ _ Hj) as (q & ->).
  destruct (_ && _).
  - destruct (Nat.ltb j i); eauto.
  - destruct (HC (negb (isin i (inh_idx c)), negb (isin j (inh_idx c)))) as (v & ->).
    eauto.
Qed.

Lemma pair_body_total (c : Config) (rand : nat -> R) (i j : nat) (g : GenState) :
  complete (V_syn c) -> complete (connect_const c) ->
  (i < fst (fst (dim c)) * snd (fst (dim c)) * snd (dim c))%nat ->
  (j < fst (fst (dim c)) * snd (fst (dim c)) * snd (dim c))%nat ->
  exists g', pair_body c rand i j g = inr g'.
Proof.
  intros HV HC Hi Hj. unfold pair_body.
  destruct (Nat.eqb i j) eqn:E; [eauto|].
  destruct (connect_pr_of_total c i j HC Hi Hj) as (x & ->).
  destruct (Rltb _ _); [|eauto].
  destruct (HV (negb (isin i (inh_idx c)), negb (isin j (inh_idx c)))) as (v & ->).
  eauto.
Qed.

(** With complete tables the generation raises nothing. *)
Lemma generate_connections_total (c : Config) (rand : nat -> R) (g : GenState) :
  complete (V_syn c) -> complete (connect_const c) ->
  neuron_num c = (fst (fst (dim c)) * snd (fst (dim c)) * snd (dim c))%nat ->
  exists g', generate_connections c rand g = inr g'.
Proof.
  intros HV HC HN. unfold generate_connections.
  destruct (for_each_total (fun _ => True) (seq 0 (input_num c))
              (fun i => for_each (seq 0 (neuron_num c / clusters c)) (input_body c rand i)))
    with (s := g) as (g1 & -> & _); auto.
  { intros i s _ _.
    destruct (for_each_total (fun _ => True) (seq 0 (neuron_num c / clusters c))
                (input_body c rand i)) with (s := s) as (s' & Hs & _); eauto.
    intros j s0 Hj _. apply in_seq in Hj.
    destruct (input_body_total c rand i j s0 HV) as (g' & Hg'); eauto.
    rewrite <- HN.
    assert (neuron_num c / clusters c <= neuron_num c)%nat.
    { destruct (clusters c); [simpl; lia | apply Nat.Div0.div_le_upper_bound; nia]. }
    lia. }
  destruct (for_each_total (fun _ => True) (seq 0 (neuron_num c))
              (fun i => for_each (seq 0 (neuron_num c)) (pair_body c rand i)))
    with (s := g1) as (g2 & -> & _); eauto.
  intros i s Hi _. apply in_seq in Hi.
  destruct (for_each_total (fun _ => True) (seq 0 (neuron_num c))
              (pair_body c rand i)) with (s := s) as (s' & Hs & _); eauto.
  intros j s0 Hj _. apply in_seq in Hj.
  destruct (pair_body_total c rand i j s0 HV HC) as (g' & Hg'); eauto; lia.
Qed.

(** * The configuration is never reassigned *)

Lemma cfg_reset_history (net : Network) : cfg (reset_history net) = cfg net.
Proof. reflexivity. Qed.

Lemma cfg_run_prepare (net : Network) (I : list (list R)) :
  cfg (run_prepare net I) = cfg net.
Proof. unfold run_prepare. destruct (keep_data _); reflexivity. Qed.

Lemma sim_run_prepare (net : Network) (I : list (list R)) :
  sim (run_prepare net I) = sim (reset_history net) /\
  input_t (run_prepare net I) = input_t net /\
  topo (run_prepare net I) = topo net /\
  type_array (run_prepare net I) =
    assign_idx_scalar (type_array net) (inh_idx (cfg net)) 0%nat.
Proof.
  unfold run_prepare. destruct (keep_data (cfg (reset_history net))); auto.
Qed.

Lemma init_config_model_type (a : Args.t) :
  model_type (init_config a) = Args.model a.
Proof. unfold init_config. destruct (Args.dim a) as [[d0 d1] d2]. reflexivity. Qed.

Lemma init_config_Vreset (a : Args.t) :
  Vreset (init_config a) = Args.Vth a - Args.Vreset a /\
  Vth (init_config a) = Args.Vth a.
Proof. unfold init_config. destruct (Args.dim a) as [[d0 d1] d2]. split; reflexivity. Qed.

Lemma init_config_tables (a : Args.t) :
  V_syn (init_config a) = Args.V_syn a /\
  connect_const (init_config a) = Args.connect_const a.
Proof. unfold init_config. destruct (Args.dim a) as [[d0 d1] d2]. split; reflexivity. Qed.

Lemma init_config_wiring (a : Args.t) :
  let fn := if String.eqb (Args.model a) "LIF" || String.eqb (Args.model a) "SOC"
            then Some fn_LIF
            else if String.eqb (Args.model a) "SFA" then Some fn_SFA else None in
  model (init_config a) = fn /\ synaptic_current (init_config a) = fn /\
  input_current (init_config a) = fn.
Proof. unfold init_config. destruct (Args.dim a) as [[d0 d1] d2]. repeat split. Qed.

Lemma init_cfg (a : Args.t) (rand : nat -> R) (net : Network) :
  init a rand = inr net -> cfg net = init_config a.
Proof.
  unfold init. destruct (generate_connections _ _ _); [discriminate|].
  intro H. injection H as <-. reflexivity.
Qed.

Lemma init_total (a : Args.t) (rand : nat -> R) :
  complete (Args.V_syn a) -> complete (Args.connect_const a) ->
  exists net, init a rand = inr net.
Proof.
  intros HV HC. unfold init.
  destruct (generate_connections_total (init_config a) rand
              (mkGenState (zeros2 (neuron_num (init_config a)) (neuron_num (init_config a)))
                          (zeros2 (neuron_num (init_config a)) (input_num (init_config a))) 0))
    as (g & ->).
  - destruct (init_config_tables a) as [-> _]. exact HV.
  - destruct (init_config_tables a) as [_ ->]. exact HC.
  - apply init_config_neuron_num.
  - eauto.
Qed.

(** * Model ['SOC'] *)

Lemma stage_active_unbound (net : Network) :
  model_type (cfg net) = "SOC"%string -> stage_active net = (net, inr None).
Proof. intro H. unfold stage_active. rewrite H. reflexivity. Qed.

Lemma input_current_LIF_error (net : Network) (e : exn) :
  input_current_LIF net = inl e -> e = IndexError.
Proof.
  unfold input_current_LIF. destruct (tau_psc (cfg net)); [|discriminate].
  intro H; injection H as <-. reflexivity.
Qed.

Lemma stage_input_cases (input_type : bool) (row : list R) (t_cur : R) (net : Network) :
  input_current (cfg net) <> None ->
  (exists net1 I_cur, stage_input input_type row t_cur net = (net1, inr I_cur)) \/
  (input_type = true /\
   exists net1, stage_input input_type row t_cur net = (net1, inl IndexError)).
Proof.
  intro Hic. unfold stage_input. destruct input_type; [|left; eauto].
  destruct (forallb _ _); [|right; eauto].
  unfold call_input_current. cbn [cfg set_input_t].
  destruct (input_current (cfg net)) as [[|]|]; [|left; eauto | congruence].
  destruct (input_current_LIF _) as [e|ic] eqn:E; [|left; eauto].
  right. split; [reflexivity|]. rewrite (input_current_LIF_error _ _ E). eauto.
Qed.

(** C10: a network built with model ['SOC'] is constructed (the tables being
    complete) and stores the LIF methods, but [run_model] on it with a
    non-empty injected array raises in the first iteration and completes no
    step: no branch binds [active_neurons] for that model, so line 273 raises
    [UnboundLocalError] (unless, for a spike-train input, the assignment to
    [input_t] or the read of [tau_psc[0]] has already raised [IndexError]). *)
Theorem soc_run_model_fails_first_step (a : Args.t) (rand : nat -> R) :
  Args.model a = "SOC"%string ->
  complete (Args.V_syn a) -> complete (Args.connect_const a) ->
  exists net,
    init a rand = inr net /\
    model (cfg net) = Some fn_LIF /\
    synaptic_current (cfg net) = Some fn_LIF /\
    input_current (cfg net) = Some fn_LIF /\
    (forall net', cfg net' = cfg net -> snd (stage_active net') = inr None) /\
    forall (I : list (list R)) (input_type : bool),
      I <> [] ->
      exists e net',
        run_model net I input_type = Raised e net' /\
        steps_completed input_type I (run_times (cfg net) (length I))
                        (run_prepare net I) = 0%nat /\
        (e = UnboundLocalError \/ (input_type = true /\ e = IndexError)) /\
        (input_type = false -> e = UnboundLocalError).
Proof.
  intros Hm HV HC.
  destruct (init_total a rand HV HC) as (net & Hnet).
  exists net. split; [exact Hnet|].
  pose proof (init_cfg a rand net Hnet) as Hcfg.
  pose proof (init_config_wiring a) as Hw. rewrite Hm in Hw. simpl in Hw.
  destruct Hw as (Hw1 & Hw2 & Hw3). rewrite <- Hcfg in Hw1, Hw2, Hw3.
  assert (Hmt : model_type (cfg net) = "SOC"%string)
    by (rewrite Hcfg, init_config_model_type; exact Hm).
  repeat (split; [assumption|]).
  split.
  { intros net' H. rewrite stage_active_unbound by (rewrite H; exact Hmt). reflexivity. }
  intros I input_type HI. unfold run_model.
  pose proof (run_times_length (cfg net) (length I)) as Hlen.
  destruct (run_times (cfg net) (length I)) as [|[i t_cur] rest] eqn:Hrt.
  { destruct I; [congruence | simpl in Hlen; discriminate]. }
  simpl. unfold run_step, integrate_part.
  rewrite stage_active_unbound by (simpl; rewrite cfg_run_prepare; exact Hmt).
  destruct (stage_input_cases input_type (nth (i - 1) I []) t_cur
              (set_t (run_prepare net I) t_cur)) as [(n1 & ic & ->) | (Hit & n1 & ->)].
  - simpl. rewrite cfg_run_prepare, Hw3. discriminate.
  - exists UnboundLocalError, n1. repeat split; auto.
  - exists IndexError, n1. repeat split; auto.
    intro H. rewrite H in Hit. discriminate.
Qed.

(** * Shapes are kept by every statement of the loop *)

Lemma mat_shape_zeros2 (rows cols : nat) : mat_shape (zeros2 rows cols) rows cols.
Proof.
  unfold mat_shape, zeros2. split; [apply repeat_length|].
  apply Forall_forall. intros row H. apply repeat_spec in H. subst. apply zeros_length.
Qed.

Lemma mat_shape_set_col (M : list (list R)) (rows cols i : nat) (col : list R) :
  mat_shape M rows cols -> length col = rows -> mat_shape (set_col M i col) rows cols.
Proof.
  intros [HM HF] Hc. split.
  - rewrite set_col_length; congruence.
  - clear HM Hc. unfold set_col. revert col.
    induction HF as [|row M Hrow HF IH]; intros [|x col]; simpl; constructor.
    + rewrite set_nth_length. exact Hrow.
    + apply IH.
Qed.

Lemma mat_shape_nth {T : Type} (M : list (list T)) (rows cols k : nat) :
  mat_shape M rows cols -> (k < rows)%nat -> length (nth k M []) = cols.
Proof.
  intros [HM HF] Hk. rewrite Forall_forall in HF. apply HF. apply nth_In. lia.
Qed.

Lemma shaped_run_prepare (net : Network) (I : list (list R)) :
  shaped_run (length I) (run_prepare net I).
Proof.
  unfold run_prepare. rewrite cfg_reset_history.
  destruct (keep_data (cfg net)) eqn:K; constructor; simpl;
    try apply repeat_length; try apply zeros_length; try congruence.
  intros _. eexists. split; [reflexivity|]. simpl. split.
  - apply mat_shape_set_col; [apply mat_shape_zeros2 | apply repeat_length].
  - apply mat_shape_zeros2.
Qed.

Lemma shaped_topo_reset_history (net : Network) :
  shaped_topo net -> shaped_topo (reset_history net).
Proof. intros [H1 H2 H3 H4 H5]. constructor; assumption. Qed.

Lemma shaped_topo_run_prepare (net : Network) (I : list (list R)) :
  shaped_topo net -> shaped_topo (run_prepare net I).
Proof.
  intros [H1 H2 H3 H4 H5]. unfold run_prepare.
  destruct (keep_data _); constructor; assumption.
Qed.

(** The frame of each stage: what it leaves alone. *)

Lemma stage_active_frame (net net1 : Network) (oa : exn + option (list nat)) :
  stage_active net = (net1, oa) ->
  cfg net1 = cfg net /\ topo net1 = topo net /\ input_t net1 = input_t net /\
  hist net1 = hist net /\ t net1 = t net /\ type_array net1 = type_array net /\
  Vs (sim net1) = Vs (sim net) /\ spikes_t (sim net1) = spikes_t (sim net) /\
  Is (sim net1) = Is (sim net) /\ n (sim net1) = n (sim net) /\
  (forall a, oa = inr (Some a) -> active (sim net1) = a).
Proof.
  unfold stage_active.
  destruct (String.eqb (model_type (cfg net)) "LIF");
    [destruct (refractory_mask net) as [e|mask]|];
    destruct (String.eqb (model_type (cfg net)) "SFA"); simpl;
    intro H; injection H as <- <-; repeat split; auto; intros a Ha;
    try discriminate; injection Ha as <-; reflexivity.
Qed.

Lemma stage_input_frame (input_type : bool) (row : list R) (t_cur : R)
    (net net1 : Network) (r : exn + list R) :
  stage_input input_type row t_cur net = (net1, r) ->
  cfg net1 = cfg net /\ topo net1 = topo net /\ sim net1 = sim net /\
  hist net1 = hist net /\ t net1 = t net /\ type_array net1 = type_array net /\
  length (input_t net1) = length (input_t net) /\
  (input_type = false -> input_t net1 = input_t net /\ r = inr row).
Proof.
  unfold stage_input. destruct input_type.
  - destruct (forallb _ _).
    + destruct (call_input_current _); intro H; injection H as <- <-; simpl;
        repeat split; auto; try apply assign_idx_scalar_length; discriminate.
    + intro H; injection H as <- <-. repeat split; auto; discriminate.
  - intro H; injection H as <- <-. repeat split; auto.
Qed.

Lemma call_model_frame (net net1 : Network) (r : exn + list R) :
  call_model net = (net1, r) ->
  cfg net1 = cfg net /\ topo net1 = topo net /\ input_t net1 = input_t net /\
  hist net1 = hist net /\ t net1 = t net /\ type_array net1 = type_array net /\
  Vs (sim net1) = Vs (sim net) /\ spikes_t (sim net1) = spikes_t (sim net) /\
  Is (sim net1) = Is (sim net) /\ active (sim net1) = active (sim net) /\
  (length (spikes_t (sim net)) = length (n (sim net)) ->
   length (n (sim net1)) = length (n (sim net))).
Proof.
  unfold call_model. destruct (model (cfg net)) as [[|]|].
  - intro H; injection H as <- <-. repeat split; auto.
  - unfold SFA, K_frac. intro H; injection H as <- _. simpl. repeat split; auto.
    intro E. rewrite map2_length, length_map, E. apply Nat.min_id.
  - intro H; injection H as <- <-. repeat split; auto.
Qed.

Lemma stage_integrate_frame (an : list nat) (net net1 : Network) :
  stage_integrate an net = Done net1 ->
  cfg net1 = cfg net /\ topo net1 = topo net /\ input_t net1 = input_t net /\
  hist net1 = hist net /\ t net1 = t net /\ type_array net1 = type_array net /\
  spikes_t (sim net1) = spikes_t (sim net) /\ Is (sim net1) = Is (sim net) /\
  length (Vs (sim net1)) = length (Vs (sim net)) /\
  (length (spikes_t (sim net)) = length (n (sim net)) ->
   length (n (sim net1)) = length (n (sim net))) /\
  (forall k, ~ In k an -> nth k (Vs (sim net1)) 0 = nth k (Vs (sim net)) 0).
Proof.
  unfold stage_integrate.
  destruct (in_range (Vs (sim net)) an); [|discriminate].
  destruct (call_model net) as [n1 d] eqn:Hc.
  apply call_model_frame in Hc.
  destruct Hc as (H1 & H2 & H3 & H4 & H5 & H6 & H7 & H8 & H9 & H10 & H11).
  destruct d as [e|deriv]; [discriminate|].
  destruct (np_bin _ _ _) as [e|rhs]; [discriminate|].
  destruct (Nat.eqb _ _).
  - intro H; injection H as <-. simpl. rewrite assign_idx_length, <- H7.
    repeat split; auto. intros k Hk. apply nth_assign_idx_other. exact Hk.
  - destruct rhs as [|x [|y rhs]]; try discriminate.
    intro H; injection H as <-. simpl. rewrite assign_idx_scalar_length, <- H7.
    repeat split; auto. intros k Hk. apply nth_assign_idx_scalar_other. exact Hk.
Qed.

Lemma dot_length (M : list (list R)) (v : list R) : length (dot M v) = length M.
Proof. apply length_map. Qed.

Lemma dot_bool_length (B : list (list bool)) (v : list R) :
  length (dot_bool B v) = length B.
Proof. apply length_map. Qed.

(** What lines 275-296 leave behind when they run to their end. *)
Lemma after_integrate_frame (i : nat) (t_cur : R) (I_cur : list R) (net net' : Network) :
  after_integrate i t_cur I_cur net = Done net' ->
  cfg net' = cfg net /\ topo net' = topo net /\ input_t net' = input_t net /\
  t net' = t net /\ type_array net' = type_array net /\
  n (sim net') = n (sim net) /\
  spikes (sim net') = map (fun v => Rgtb v (Vth (cfg net))) (Vs (sim net)) /\
  spikes_t (sim net') =
    assign_mask (spikes_t (sim net)) (spikes (sim net')) t_cur /\
  Vs (sim net') =
    assign_mask (assign_mask (Vs (sim net)) (spikes (sim net')) 0)
                (spikes (sim net')) (Vreset (cfg net)) /\
  np_bin Rplus I_cur (EPSC (sim net')) = inr (Is (sim net')) /\
  (keep_data (cfg net) = false -> hist net' = hist net) /\
  (keep_data (cfg net) = true ->
   exists h, hist net = Some h /\
     hist net' = Some (mkRecording
       (set_col (Vseq h) i (assign_mask (Vs (sim net)) (spikes (sim net')) 0))
       (set_col (spikes_seq h) i (map b2R (spikes (sim net'))))
       (set_col (EPSC_seq h) i (EPSC (sim net')))
       (set_col (A_seq h) i (A (sim net)))
       (set_col (n_seq h) i (n (sim net)))
       (I_seq h))).
Proof.
  unfold after_integrate, stage_EPSC.
  destruct (call_synaptic_current (stage_spike t_cur net)) as [e|syn]; [discriminate|].
  unfold stage_record. simpl.
  destruct (keep_data (cfg net)) eqn:K.
  - destruct (hist net) as [h|] eqn:Hh; [|discriminate].
    unfold stage_currents. simpl.
    destruct (np_bin Rplus I_cur _) as [e|x] eqn:Hb; [discriminate|].
    intro H; injection H as <-. simpl. repeat split; auto; try discriminate.
    intros _. exists h. split; reflexivity.
  - unfold stage_currents. simpl.
    destruct (np_bin Rplus I_cur _) as [e|x] eqn:Hb; [discriminate|].
    intro H; injection H as <-. simpl. repeat split; auto; discriminate.
Qed.

(** What lines 251-273 leave behind when they run to their end. *)
Lemma integrate_part_frame (input_type : bool) (I : list (list R)) (i : nat)
    (t_cur : R) (net n3 : Network) (I_cur : list R) :
  integrate_part input_type I i t_cur net = (n3, inr I_cur) ->
  cfg n3 = cfg net /\ topo n3 = topo net /\ hist n3 = hist net /\
  t n3 = t_cur /\ type_array n3 = type_array net /\
  spikes_t (sim n3) = spikes_t (sim net) /\ Is (sim n3) = Is (sim net) /\
  length (Vs (sim n3)) = length (Vs (sim net)) /\
  length (input_t n3) = length (input_t net) /\
  (length (spikes_t (sim net)) = length (n (sim net)) ->
   length (n (sim n3)) = length (n (sim net))) /\
  (input_type = false -> I_cur = nth (i - 1) I [] /\ input_t n3 = input_t net) /\
  exists an, snd (stage_active (set_t net t_cur)) = inr (Some an) /\
             forall k, ~ In k an -> nth k (Vs (sim n3)) 0 = nth k (Vs (sim net)) 0.
Proof.
  unfold integrate_part.
  destruct (stage_active (set_t net t_cur)) as [n1 oa] eqn:Ha.
  destruct oa as [e|oa]; [discriminate|].
  destruct (stage_input input_type (nth (i - 1) I []) t_cur n1) as [n2 ic] eqn:Hi.
  destruct ic as [e|ic]; [discriminate|].
  destruct oa as [an|]; [|discriminate].
  destruct (stage_integrate an n2) as [n3'|e n3'] eqn:Hg; [|discriminate].
  intro H; injection H as <- <-.
  apply stage_active_frame in Ha. apply stage_input_frame in Hi.
  apply stage_integrate_frame in Hg.
  destruct Ha as (A1 & A2 & A3 & A4 & A5 & A6 & A7 & A8 & A9 & A10 & A11).
  destruct Hi as (B1 & B2 & B3 & B4 & B5 & B6 & B7 & B8).
  destruct Hg as (C1 & C2 & C3 & C4 & C5 & C6 & C7 & C8 & C9 & C10 & C11).
  simpl in *. rewrite B3 in *.
  repeat split; try congruence.
  - intro E. rewrite C10; congruence.
  - destruct (B8 H) as [_ E]. congruence.
  - destruct (B8 H) as [E _]. congruence.
  - exists an. split; [reflexivity|]. intros k Hk. rewrite C11 by exact Hk. congruence.
Qed.

Lemma run_step_frame (input_type : bool) (I : list (list R)) (i : nat) (t_cur : R)
    (net net' : Network) :
  run_step input_type I i t_cur net = Done net' ->
  cfg net' = cfg net /\ topo net' = topo net /\
  length (input_t net') = length (input_t net) /\
  (input_type = false -> input_t net' = input_t net).
Proof.
  unfold run_step.
  destruct (integrate_part input_type I i t_cur net) as [n3 r] eqn:Hp.
  destruct r as [e|I_cur]; [discriminate|].
  intro Ha. apply integrate_part_frame in Hp. apply after_integrate_frame in Ha.
  destruct Hp as (P1 & P2 & P3 & P4 & P5 & P6 & P7 & P8 & P9 & P10 & P11 & _).
  destruct Ha as (A1 & A2 & A3 & _).
  repeat split; try congruence.
  intro H. destruct (P11 H). congruence.
Qed.

Lemma run_step_shaped (steps : nat) (input_type : bool) (I : list (list R)) (i : nat)
    (t_cur : R) (net net' : Network) :
  shaped_run steps net ->
  run_step input_type I i t_cur net = Done net' ->
  shaped_run steps net'.
Proof.
  intros [SV St Sn Sh]. unfold run_step.
  destruct (integrate_part input_type I i t_cur net) as [n3 r] eqn:Hp.
  destruct r as [e|I_cur]; [discriminate|].
  intro Ha. apply integrate_part_frame in Hp. apply after_integrate_frame in Ha.
  destruct Hp as (P1 & P2 & P3 & P4 & P5 & P6 & P7 & P8 & P9 & P10 & P11 & _).
  destruct Ha as (A1 & A2 & A3 & A4 & A5 & A6 & A7 & A8 & A9 & A10 & A11 & A12).
  assert (Hsp : length (spikes (sim net')) = neuron_num (cfg net))
    by (rewrite A7, length_map; congruence).
  constructor.
  - rewrite A9, !assign_mask_length, Hsp, A1, P1. lia.
  - rewrite A8, assign_mask_length, Hsp, A1, P1, P6. lia.
  - rewrite A6, A1, P1. rewrite P10; congruence.
  - rewrite A1, P1. intro K. rewrite <- P1 in K.
    destruct (A12 K) as (h & Hh & ->).
    rewrite P3 in Hh. rewrite P1 in K. destruct (Sh K) as (h0 & Hh0 & HV & HS).
    assert (h0 = h) by congruence. subst h0.
    eexists. split; [reflexivity|]. simpl. split.
    + apply mat_shape_set_col; [exact HV|].
      rewrite assign_mask_length, Hsp. lia.
    + apply mat_shape_set_col; [exact HS|]. rewrite length_map. exact Hsp.
Qed.

Lemma run_loop_shaped (steps : nat) (input_type : bool) (I : list (list R))
    (its : list (nat * R)) (net net' : Network) :
  shaped_run steps net ->
  run_loop input_type I its net = Done net' ->
  shaped_run steps net' /\ cfg net' = cfg net /\ topo net' = topo net /\
  length (input_t net') = length (input_t net).
Proof.
  revert net. induction its as [|[i t_cur] its IH]; intros net Hs; simpl.
  - intro H; injection H as <-. auto.
  - destruct (run_step input_type I i t_cur net) as [n1|e n1] eqn:H1; [|discriminate].
    intro H. apply IH in H; [|eapply run_step_shaped; eauto].
    apply run_step_frame in H1. destruct H1 as (F1 & F2 & F3 & _).
    destruct H as (G1 & G2 & G3 & G4). split; [exact G1|]. repeat split; congruence.
Qed.

Lemma nth_map_lt {X Y : Type} (f : X -> Y) (l : list X) (k : nat) (d : X) (d' : Y) :
  (k < length l)%nat -> nth k (map f l) d' = f (nth k l d).
Proof.
  intro H. rewrite (nth_indep _ d' (f d)) by (rewrite length_map; exact H).
  apply map_nth.
Qed.

Lemma Rgtb_true (x y : R) : x > y -> Rgtb x y = true.
Proof. intro H. unfold Rgtb. destruct (Rgt_dec x y); [reflexivity | contradiction]. Qed.

Lemma Rgtb_false (x y : R) : ~ x > y -> Rgtb x y = false.
Proof. intro H. unfold Rgtb. destruct (Rgt_dec x y); [contradiction | reflexivity]. Qed.

(** * Spike handling (lines 275-296) *)

(** * Last-spike times *)

Lemma assign_mask_values (v : list R) (mask : list bool) (x : R) :
  Forall (fun y => In y v \/ y = x) (assign_mask v mask x).
Proof.
  unfold assign_mask. revert mask.
  induction v as [|y v IH]; intros [|b mask]; simpl; constructor.
  - destruct b; auto.
  - eapply Forall_impl; [|apply IH]. simpl. intros z [H|H]; auto.
Qed.

(** Every last-spike time after a run of the loop is one that was there
    before or the time of one of the iterations. *)
Lemma run_loop_spike_times (input_type : bool) (I : list (list R))
    (its : list (nat * R)) (net net' : Network) :
  run_loop input_type I its net = Done net' ->
  Forall (fun s => In s (spikes_t (sim net)) \/ In s (map snd its))
         (spikes_t (sim net')).
Proof.
  revert net. induction its as [|[i t_cur] its IH]; intros net; simpl.
  - intro H; injection H as <-. apply Forall_forall. auto.
  - destruct (run_step input_type I i t_cur net) as [n1|e n1] eqn:H1; [|discriminate].
    intro H. apply IH in H. eapply Forall_impl; [|exact H]. simpl.
    intros s [Hs|Hs]; [|auto].
    unfold run_step in H1.
    destruct (integrate_part input_type I i t_cur net) as [n3 r] eqn:Hp.
    destruct r as [e|I_cur]; [discriminate|].
    apply integrate_part_frame in Hp. apply after_integrate_frame in H1.
    destruct Hp as (_ & _ & _ & _ & _ & P6 & _).
    destruct H1 as (_ & _ & _ & _ & _ & _ & _ & A8 & _).
    rewrite A8, P6 in Hs.
    pose proof (assign_mask_values (spikes_t (sim net)) (spikes (sim n1)) t_cur) as F.
    rewrite Forall_forall in F. destruct (F s Hs); auto.
Qed.

Lemma run_times_prefix (c : Config) (T j : nat) (x : R) :
  (j <= T)%nat -> In x (map snd (firstn j (run_times c T))) ->
  exists j', (1 <= j' <= j)%nat /\ x = INR j' * dt c.
Proof.
  intros Hj Hin. apply in_map_iff in Hin. destruct Hin as ([i' t'] & Hx & Hin).
  simpl in Hx. subst t'.
  apply (In_nth _ _ (0%nat, 0)) in Hin. destruct Hin as (m & Hm & Hnth).
  rewrite length_firstn, run_times_length in Hm.
  rewrite nth_firstn in Hnth.
  assert (E : Nat.ltb m j = true) by (apply Nat.ltb_lt; lia).
  rewrite E in Hnth. rewrite nth_run_times in Hnth by lia.
  exists (S m). split; [lia | congruence].
Qed.

(** During a run every last-spike time is the sentinel or the time of an
    earlier step. *)
Lemma run_spike_times (net : Network) (I : list (list R)) (input_type : bool)
    (j k : nat) (nj : Network) :
  (j <= length I)%nat ->
  run_loop input_type I (firstn j (run_times (cfg net) (length I)))
           (run_prepare net I) = Done nj ->
  (k < neuron_num (cfg net))%nat ->
  nth k (spikes_t (sim nj)) 0 = -1 \/
  exists j', (1 <= j' <= j)%nat /\ nth k (spikes_t (sim nj)) 0 = INR j' * dt (cfg net).
Proof.
  intros Hj Hloop Hk.
  destruct (run_loop_shaped (length I) _ _ _ _ _ (shaped_run_prepare net I) Hloop)
    as ([SV St Sn Sh] & Hc & _).
  rewrite cfg_run_prepare in Hc.
  apply run_loop_spike_times in Hloop. rewrite Forall_forall in Hloop.
  destruct (Hloop (nth k (spikes_t (sim nj)) 0)) as [H|H].
  - apply nth_In. rewrite St, Hc. exact Hk.
  - left. destruct (sim_run_prepare net I) as (E & _). rewrite E in H. simpl in H.
    apply repeat_spec in H. exact H.
  - right. apply run_times_prefix in H; assumption.
Qed.

Lemma run_step_type_array (input_type : bool) (I : list (list R)) (i : nat) (t_cur : R)
    (net net' : Network) :
  run_step input_type I i t_cur net = Done net' -> type_array net' = type_array net.
Proof.
  unfold run_step.
  destruct (integrate_part input_type I i t_cur net) as [n3 r] eqn:Hp.
  destruct r as [e|I_cur]; [discriminate|].
  intro Ha. apply integrate_part_frame in Hp. apply after_integrate_frame in Ha.
  destruct Hp as (_ & _ & _ & _ & P5 & _). destruct Ha as (_ & _ & _ & _ & A5 & _).
  congruence.
Qed.

Lemma run_loop_type_array (input_type : bool) (I : list (list R))
    (its : list (nat * R)) (net net' : Network) :
  run_loop input_type I its net = Done net' -> type_array net' = type_array net.
Proof.
  revert net. induction its as [|[i t_cur] its IH]; intros net; simpl.
  - intro H; injection H as <-. reflexivity.
  - destruct (run_step input_type I i t_cur net) as [n1|e n1] eqn:H1; [|discriminate].
    intro H. apply IH in H. apply run_step_type_array in H1. congruence.
Qed.

Lemma Reqb_true (x : R) : Reqb x x = true.
Proof. unfold Reqb. destruct (Req_dec_T x x); [reflexivity | contradiction]. Qed.

Lemma Reqb_false (x y : R) : x <> y -> Reqb x y = false.
Proof. intro H. unfold Reqb. destruct (Req_dec_T x y); [contradiction | reflexivity]. Qed.

(** * The refractory period of the LIF model (lines 253-257) *)

Lemma in_range_Forall {X : Type} (v : list X) (idx : list nat) :
  in_range v idx = true <-> Forall (fun k => (k < length v)%nat) idx.
Proof.
  unfold in_range. rewrite forallb_forall, Forall_forall.
  split; intros H k Hk; [apply Nat.ltb_lt | apply Nat.ltb_lt]; apply H; exact Hk.
Qed.

Lemma Forall_assign_idx_scalar {X : Type} (P : X -> Prop) (v : list X) (idx : list nat)
    (x : X) :
  Forall P v -> P x -> Forall P (assign_idx_scalar v idx x).
Proof.
  intros Hv Hx. unfold assign_idx_scalar. revert v Hv.
  induction idx as [|a idx IH]; intros v Hv; [exact Hv|].
  cbn [fold_left]. apply IH. clear IH. revert a.
  induction Hv as [|y v Hy Hv IHv]; intros [|a]; cbn [set_nth]; constructor; auto.
Qed.

(** The tables stay indexed through a run: the configuration is fixed and
    [reset_history] only writes type 0. *)
Lemma types_indexed_run_prepare (net : Network) (I : list (list R)) :
  types_indexed net -> types_indexed (run_prepare net I).
Proof.
  intros H Hm. rewrite cfg_run_prepare in *.
  destruct (H Hm) as (H1 & H2 & H3). split; [exact H1|]. split; [exact H2|].
  destruct (sim_run_prepare net I) as (_ & _ & _ & ->).
  apply Forall_assign_idx_scalar; [exact H3 | split; assumption].
Qed.

Lemma types_indexed_same (net net' : Network) :
  cfg net' = cfg net -> type_array net' = type_array net ->
  types_indexed net -> types_indexed net'.
Proof. unfold types_indexed. intros -> ->. auto. Qed.

Lemma types_indexed_SFA (net : Network) :
  model_type (cfg net) = "SFA"%string -> types_indexed net.
Proof. intros H E. rewrite H in E. discriminate. Qed.

Lemma types_indexed_ranges (net : Network) :
  types_indexed net -> model_type (cfg net) = "LIF"%string ->
  in_range (ref (cfg net)) (type_array net) = true /\
  in_range (tau_psc (cfg net)) (type_array net) = true /\
  exists tp rest, tau_psc (cfg net) = tp :: rest.
Proof.
  intros H Hm. destruct (H Hm) as (H1 & H2 & H3).
  split; [|split].
  - apply in_range_Forall. eapply Forall_impl; [|exact H3]. intros ty [Ha _]. exact Ha.
  - apply in_range_Forall. eapply Forall_impl; [|exact H3]. intros ty [_ Hb]. exact Hb.
  - destruct (tau_psc (cfg net)) as [|tp rest]; [simpl in H2; lia | eauto].
Qed.

Lemma types_indexed_prefix (net : Network) (I : list (list R)) (input_type : bool)
    (its : list (nat * R)) (nj : Network) :
  types_indexed net ->
  run_loop input_type I its (run_prepare net I) = Done nj ->
  types_indexed nj.
Proof.
  intros H Hloop.
  apply (types_indexed_same (run_prepare net I) nj).
  - destruct (run_loop_shaped (length I) _ _ _ _ _ (shaped_run_prepare net I) Hloop)
      as (_ & Hc & _). exact Hc.
  - exact (run_loop_type_array _ _ _ _ _ Hloop).
  - apply types_indexed_run_prepare. exact H.
Qed.

(** Lines 253-257 for the LIF model, where the types index [ref]. *)
Lemma stage_active_LIF (net : Network) :
  model_type (cfg net) = "LIF"%string ->
  in_range (ref (cfg net)) (type_array net) = true ->
  stage_active net =
  (set_sim net (set_active (sim net) (nonzero (refractory_mask_values net))),
   inr (Some (nonzero (refractory_mask_values net)))).
Proof.
  intros Hm Hr. unfold stage_active, refractory_mask. rewrite Hm, Hr. reflexivity.
Qed.

(** C2: in a run of the LIF model with a positive time step, where [ref] and
    [tau_psc] have an entry for every neuron type, at every step the
    last-spike time [s] of a neuron is the sentinel -1 or the time of an
    earlier step (so lies before the step time); a neuron inside its
    refractory window, [0 < t - s <= ref[type]], is left out of the active
    set and the integration of line 273 leaves its potential as it was; a
    neuron with [t - s > ref[type]] is in the active set, and so is a neuron
    that never spiked. *)
Theorem lif_refractory_exclusion (net : Network) (I : list (list R))
    (input_type : bool) (j i k : nat) (t_cur : R) (nj : Network) :
  model_type (cfg net) = "LIF"%string ->
  types_indexed net ->
  0 < dt (cfg net) ->
  length (type_array net) = neuron_num (cfg net) ->
  (j < length I)%nat ->
  run_loop input_type I (firstn j (run_times (cfg net) (length I)))
           (run_prepare net I) = Done nj ->
  nth j (run_times (cfg net) (length I)) (0%nat, 0) = (i, t_cur) ->
  (k < neuron_num (cfg net))%nat ->
  let s := nth k (spikes_t (sim nj)) 0 in
  let r := nth (nth k (type_array nj) 0%nat) (ref (cfg net)) 0 in
  exists n1 an,
    stage_active (set_t nj t_cur) = (n1, inr (Some an)) /\
    active (sim n1) = an /\
    (nth k (type_array nj) 0%nat < length (ref (cfg net)))%nat /\
    (s = -1 \/ exists j', (1 <= j' <= j)%nat /\ s = INR j' * dt (cfg net)) /\
    (s <> -1 -> 0 < t_cur - s) /\
    (s <> -1 -> 0 < t_cur - s <= r ->
     ~ In k an /\
     forall n3 I_cur,
       integrate_part input_type I i t_cur nj = (n3, inr I_cur) ->
       nth k (Vs (sim n3)) 0 = nth k (Vs (sim nj)) 0) /\
    (t_cur - s > r -> In k an) /\
    (s = -1 -> In k an).
Proof.
  intros Hm Hidx Hdt Hty Hj Hloop Hnth Hk s r.
  rewrite nth_run_times in Hnth by exact Hj.
  assert (Hi : i = S j) by congruence.
  assert (Ht : t_cur = INR (S j) * dt (cfg net)) by congruence.
  clear Hnth.
  destruct (run_loop_shaped (length I) _ _ _ _ _ (shaped_run_prepare net I) Hloop)
    as ([SV St Sn Sh] & Hc & _).
  rewrite cfg_run_prepare in Hc.
  pose proof (run_loop_type_array _ _ _ _ _ Hloop) as Hta.
  destruct (sim_run_prepare net I) as (_ & _ & _ & Hta0). rewrite Hta0 in Hta.
  assert (Htl : length (type_array nj) = neuron_num (cfg net))
    by (rewrite Hta, assign_idx_scalar_length; exact Hty).
  pose proof (types_indexed_prefix _ _ _ _ _ Hidx Hloop) as Hidxj.
  destruct (types_indexed_ranges nj Hidxj ltac:(rewrite Hc; exact Hm)) as (Hrng & _ & _).
  pose proof (run_spike_times net I input_type j k nj (Nat.lt_le_incl _ _ Hj) Hloop Hk)
    as Hinv. fold s in Hinv.
  set (an := nonzero (refractory_mask_values (set_t nj t_cur))).
  assert (Hact : stage_active (set_t nj t_cur) =
                 (set_sim (set_t nj t_cur) (set_active (sim nj) an), inr (Some an))).
  { apply (stage_active_LIF (set_t nj t_cur)); cbn [cfg set_t type_array];
      [rewrite Hc; exact Hm | exact Hrng]. }
  assert (Hmask : nth k (refractory_mask_values (set_t nj t_cur)) false =
                  Rgtb (t_cur - s) r || Reqb s (-1)).
  { unfold refractory_mask_values. simpl.
    rewrite (nth_map2 _ _ _ k 0 0 false)
      by (unfold take_idx; rewrite ?length_map, ?St, ?Hc, ?Htl; exact Hk).
    unfold take_idx. rewrite (nth_map_lt _ _ _ 0%nat) by (rewrite Htl; exact Hk).
    rewrite Hc. reflexivity. }
  assert (Hlen : length (refractory_mask_values (set_t nj t_cur)) = neuron_num (cfg net)).
  { unfold refractory_mask_values, take_idx. simpl.
    rewrite map2_length, length_map, St, Hc, Htl. apply Nat.min_id. }
  assert (Hin : In k an <-> Rgtb (t_cur - s) r || Reqb s (-1) = true).
  { unfold an. rewrite In_nonzero, Hlen, Hmask. tauto. }
  assert (Hpos : s <> -1 -> 0 < t_cur - s).
  { intro Hs. destruct Hinv as [E | (j' & Hj' & E)]; [contradiction|].
    rewrite E, Ht, <- Rmult_minus_distr_r. apply Rmult_lt_0_compat; [|exact Hdt].
    apply Rlt_0_minus. apply lt_INR. lia. }
  assert (Hty' : (nth k (type_array nj) 0%nat < length (ref (cfg net)))%nat).
  { apply in_range_Forall in Hrng. rewrite Forall_forall in Hrng.
    rewrite <- Hc. apply Hrng. apply nth_In. rewrite Htl. exact Hk. }
  exists (set_sim (set_t nj t_cur) (set_active (sim nj) an)), an.
  split; [exact Hact|]. split; [reflexivity|]. split; [exact Hty'|]. split; [exact Hinv|].
  split; [exact Hpos|]. split; [|split].
  - intros Hs [_ Hle].
    assert (Hout : ~ In k an).
    { rewrite Hin, Rgtb_false by lra. rewrite Reqb_false by exact Hs. discriminate. }
    split; [exact Hout|]. intros n3 I_cur Hint.
    apply integrate_part_frame in Hint.
    destruct Hint as (_ & _ & _ & _ & _ & _ & _ & _ & _ & _ & _ & (an' & Ha' & Hfr)).
    rewrite Hact in Ha'. simpl in Ha'. injection Ha' as <-. apply Hfr. exact Hout.
  - intro Hgt. apply Hin. rewrite Rgtb_true by exact Hgt. reflexivity.
  - intro Hs. apply Hin. rewrite Hs, Reqb_true. apply orb_true_r.
Qed.

(** * The adaptation fraction of the SFA model (lines 186-192) *)

Lemma Rleb_true (x y : R) : x <= y -> Rleb x y = true.
Proof. intro H. unfold Rleb. destruct (Rle_dec x y); [reflexivity | contradiction]. Qed.

Lemma Rleb_false (x y : R) : ~ x <= y -> Rleb x y = false.
Proof. intro H. unfold Rleb. destruct (Rle_dec x y); [contradiction | reflexivity]. Qed.

Lemma K_gate_spec (now s : R) : K_gate now s = true <-> now - s <= 1 /\ s > 0.
Proof.
  unfold K_gate, Rleb, Rgtb.
  destruct (Rle_dec (now - s) 1); destruct (Rgt_dec s 0); simpl;
    split; try discriminate; try tauto.
Qed.

(** With the SFA method stored, the integration of line 273 calls [K_frac]
    once, at the time of the step. *)
Lemma integrate_part_SFA_n (input_type : bool) (I : list (list R)) (i : nat)
    (t_cur : R) (net n3 : Network) (I_cur : list R) :
  model (cfg net) = Some fn_SFA ->
  integrate_part input_type I i t_cur net = (n3, inr I_cur) ->
  n (sim n3) = map2 (K_update (cfg net)) (n (sim net))
                    (map (K_gate t_cur) (spikes_t (sim net))).
Proof.
  intro Hm. unfold integrate_part.
  destruct (stage_active (set_t net t_cur)) as [n1 oa] eqn:Ha.
  destruct oa as [e|oa]; [discriminate|].
  destruct (stage_input input_type (nth (i - 1) I []) t_cur n1) as [n2 ic] eqn:Hi.
  destruct ic as [e|ic]; [discriminate|].
  destruct oa as [an|]; [|discriminate].
  apply stage_active_frame in Ha. apply stage_input_frame in Hi.
  destruct Ha as (A1 & A2 & A3 & A4 & A5 & A6 & A7 & A8 & A9 & A10 & A11).
  destruct Hi as (B1 & B2 & B3 & B4 & B5 & B6 & B7 & B8).
  simpl in A1, A5.
  unfold stage_integrate, call_model.
  destruct (in_range (Vs (sim n2)) an); [|discriminate].
  rewrite B1, A1, Hm.
  unfold SFA, K_frac. simpl.
  destruct (np_bin Rminus _ _) as [e|diff]; [discriminate|].
  destruct (np_bin Rplus (map _ _) _) as [e|num]; [discriminate|].
  destruct (np_bin Rplus (take_idx _ _ _) _) as [e|rhs]; [discriminate|].
  rewrite B3, B5, A5, B1, A1, A8, A10.
  destruct (Nat.eqb _ _).
  - intro H; injection H as <- _. reflexivity.
  - destruct rhs as [|x [|y rhs]]; try discriminate.
    intro H; injection H as <- _. reflexivity.
Qed.

(** * Zero input (the LIF model at rest) *)

Lemma map2_repeat {X Y Z : Type} (f : X -> Y -> Z) (x : X) (y : Y) (m : nat) :
  map2 f (repeat x m) (repeat y m) = repeat (f x y) m.
Proof. induction m as [|m IH]; simpl; [reflexivity | rewrite IH; reflexivity]. Qed.

Lemma set_nth_repeat_same {X : Type} (x : X) (m k : nat) :
  set_nth k x (repeat x m) = repeat x m.
Proof.
  revert k; induction m as [|m IH]; intros [|k]; simpl; auto. rewrite IH. reflexivity.
Qed.

Lemma assign_idx_repeat_same {X : Type} (x : X) (m : nat) (idx : list nat) (vals : list X) :
  Forall (fun y => y = x) vals -> assign_idx (repeat x m) idx vals = repeat x m.
Proof.
  revert vals; induction idx as [|k idx IH]; intros [|y vals] H; simpl; auto.
  inversion H; subst. rewrite set_nth_repeat_same. apply IH. assumption.
Qed.

Lemma take_idx_repeat {X : Type} (d x : X) (m : nat) (idx : list nat) :
  Forall (fun k => (k < m)%nat) idx ->
  take_idx d (repeat x m) idx = repeat x (length idx).
Proof.
  unfold take_idx. induction 1 as [|k idx Hk _ IH]; simpl; [reflexivity|].
  rewrite IH, nth_repeat_lt by exact Hk. reflexivity.
Qed.

Lemma nonzero_bound (mask : list bool) :
  Forall (fun k => (k < length mask)%nat) (nonzero mask).
Proof. apply Forall_forall. intros k H. apply In_nonzero in H. tauto. Qed.

Lemma vsum_mul_zeros (row : list R) (m : nat) : vsum (map2 Rmult row (zeros m)) = 0.
Proof.
  unfold zeros. revert m; induction row as [|x row IH]; intros [|m]; simpl; auto.
  rewrite IH. ring.
Qed.

Lemma dot_zeros (M : list (list R)) (m : nat) : dot M (zeros m) = zeros (length M).
Proof.
  unfold dot. induction M as [|row M IH]; simpl; [reflexivity|].
  rewrite vsum_mul_zeros. unfold zeros in *. simpl. rewrite IH. reflexivity.
Qed.

Lemma set_col_zeros (rows cols i : nat) :
  set_col (zeros2 rows cols) i (zeros rows) = zeros2 rows cols.
Proof.
  unfold set_col, zeros2, zeros. rewrite map2_repeat, set_nth_repeat_same. reflexivity.
Qed.

Lemma np_bin_same_length (f : R -> R -> R) (a b : list R) :
  length a = length b -> np_bin f a b = inr (map2 f a b).
Proof. intro H. unfold np_bin. rewrite H, Nat.eqb_refl. reflexivity. Qed.

Lemma in_range_bound {X : Type} (v : list X) (idx : list nat) (m : nat) :
  length v = m -> Forall (fun k => (k < m)%nat) idx -> in_range v idx = true.
Proof. intros <- H. apply in_range_Forall. exact H. Qed.

Lemma synaptic_current_LIF_values_rest (net : Network) :
  spikes_t (sim net) = repeat (-1) (neuron_num (cfg net)) ->
  length (type_array net) = neuron_num (cfg net) ->
  synaptic_current_LIF_values net = zeros (neuron_num (cfg net)).
Proof.
  intros Hs Hty. unfold synaptic_current_LIF_values. rewrite Hs.
  rewrite !map_repeat.
  assert (E : Rltb (-1) 0 = true).
  { unfold Rltb. destruct (Rlt_dec (-1) 0); [reflexivity | lra]. }
  rewrite E. unfold assign_mask.
  rewrite map2_repeat_r; [| rewrite map2_length, repeat_length; unfold take_idx;
                            rewrite length_map, Hty; apply Nat.min_id].
  rewrite map_const, map2_length, repeat_length. unfold take_idx.
  rewrite length_map, Hty, Nat.min_id. reflexivity.
Qed.

Lemma synaptic_current_LIF_rest (net : Network) :
  in_range (tau_psc (cfg net)) (type_array net) = true ->
  spikes_t (sim net) = repeat (-1) (neuron_num (cfg net)) ->
  length (type_array net) = neuron_num (cfg net) ->
  synaptic_current_LIF net = inr (zeros (neuron_num (cfg net))).
Proof.
  intros Hr Hs Hty. unfold synaptic_current_LIF. rewrite Hr.
  rewrite synaptic_current_LIF_values_rest by assumption. reflexivity.
Qed.

Lemma run_step_resting (steps : nat) (I : list (list R)) (i : nat) (t_cur : R)
    (net : Network) :
  model_type (cfg net) = "LIF"%string ->
  types_indexed net ->
  model (cfg net) = Some fn_LIF ->
  synaptic_current (cfg net) = Some fn_LIF ->
  Vr (cfg net) < Vth (cfg net) ->
  tau (cfg net) <> 0 ->
  length (type_array net) = neuron_num (cfg net) ->
  length (connections (topo net)) = neuron_num (cfg net) ->
  nth (i - 1) I [] = zeros (neuron_num (cfg net)) ->
  resting steps net ->
  exists net',
    run_step false I i t_cur net = Done net' /\ resting steps net' /\
    cfg net' = cfg net /\ topo net' = topo net /\ type_array net' = type_array net.
Proof.
  intros Hmt Hidx Hm Hsc HV Htau Hty Hconn Hrow [QV Qt QI QE QS QH].
  destruct (types_indexed_ranges net Hidx Hmt) as (Hr1 & Hr2 & _).
  set (N := neuron_num (cfg net)) in *.
  unfold run_step, integrate_part.
  rewrite (stage_active_LIF (set_t net t_cur) Hmt Hr1).
  unfold stage_input. rewrite Hrow.
  set (an := nonzero (refractory_mask_values (set_t net t_cur))).
  assert (Han : Forall (fun k => (k < N)%nat) an).
  { pose proof (nonzero_bound (refractory_mask_values (set_t net t_cur))) as F.
    eapply Forall_impl; [|exact F]. intros k Hk.
    unfold refractory_mask_values in Hk. rewrite map2_length in Hk. simpl in Hk.
    rewrite Qt, repeat_length in Hk. lia. }
  assert (LV : length (Vs (sim net)) = N) by (rewrite QV; apply repeat_length).
  assert (LI : length (Is (sim net)) = N) by (rewrite QI; apply repeat_length).
  unfold stage_integrate, call_model. simpl. rewrite Hm.
  rewrite (in_range_bound (Vs (sim net)) an N LV Han).
  unfold LIF. simpl.
  rewrite (in_range_bound (Vs (sim net)) an N LV Han).
  rewrite (in_range_bound (Is (sim net)) an N LI Han).
  cbn [andb]. unfold LIF_values. simpl. rewrite QV, QI. unfold zeros.
  rewrite !take_idx_repeat by exact Han.
  rewrite map2_repeat, map_repeat.
  rewrite np_bin_same_length by (rewrite !repeat_length; reflexivity).
  rewrite map2_repeat, repeat_length, Nat.eqb_refl.
  replace (Vr (cfg net) + dt (cfg net) * ((Vr (cfg net) - Vr (cfg net) + 0 * Res (cfg net)) / tau (cfg net)))
    with (Vr (cfg net)) by (field; exact Htau).
  rewrite assign_idx_repeat_same by (apply Forall_forall; intros y Hy; apply repeat_spec in Hy; exact Hy).
  unfold after_integrate, stage_EPSC, stage_spike. simpl.
  rewrite map_repeat, (Rgtb_false (Vr (cfg net)) (Vth (cfg net))) by lra.
  rewrite Qt. unfold assign_mask. rewrite !map2_repeat.
  unfold call_synaptic_current. simpl. rewrite Hsc.
  rewrite synaptic_current_LIF_rest by (simpl; auto).
  simpl. rewrite Hmt. simpl. fold N. rewrite dot_zeros, Hconn.
  unfold stage_record, stage_currents, stage_reset. simpl.
  destruct (keep_data (cfg net)) eqn:K.
  - destruct (QH eq_refl) as (h & Hh & Hss). rewrite Hh. simpl.
    unfold assign_mask. rewrite !map2_repeat.
    rewrite np_bin_same_length by (unfold zeros; rewrite !repeat_length; reflexivity).
    unfold zeros. rewrite map2_repeat, Rplus_0_l.
    eexists. split; [reflexivity|]. split; [|auto].
    constructor; simpl; auto. intros _. eexists. split; [reflexivity|]. simpl.
    rewrite Hss, map_repeat. apply set_col_zeros.
  - simpl. unfold assign_mask. rewrite !map2_repeat.
    rewrite np_bin_same_length by (unfold zeros; rewrite !repeat_length; reflexivity).
    unfold zeros. rewrite map2_repeat, Rplus_0_l.
    eexists. split; [reflexivity|]. split; [|auto].
    constructor; simpl; auto. rewrite K. discriminate.
Qed.

Lemma run_loop_resting (steps : nat) (I : list (list R)) (its : list (nat * R))
    (net : Network) :
  model_type (cfg net) = "LIF"%string ->
  types_indexed net ->
  model (cfg net) = Some fn_LIF ->
  synaptic_current (cfg net) = Some fn_LIF ->
  Vr (cfg net) < Vth (cfg net) ->
  tau (cfg net) <> 0 ->
  length (type_array net) = neuron_num (cfg net) ->
  length (connections (topo net)) = neuron_num (cfg net) ->
  Forall (fun it => nth (fst it - 1) I [] = zeros (neuron_num (cfg net))) its ->
  resting steps net ->
  exists net',
    run_loop false I its net = Done net' /\ resting steps net' /\
    cfg net' = cfg net /\
    steps_completed false I its net = length its.
Proof.
  revert net. induction its as [|[i t_cur] its IH];
    intros net Hmt Hidx Hm Hsc HV Htau Hty Hconn Hrows Hrest; simpl.
  - exists net. auto.
  - inversion Hrows as [|x l Hrow Hrows']; subst. simpl in Hrow.
    destruct (run_step_resting steps I i t_cur net Hmt Hidx Hm Hsc HV Htau Hty Hconn
                Hrow Hrest)
      as (n1 & -> & R1 & C1 & T1 & Y1).
    pose proof (types_indexed_same net n1 C1 Y1 Hidx) as Hidx1.
    destruct (IH n1) as (net' & Hrun & R' & C' & S'); try (rewrite ?C1, ?T1, ?Y1; assumption).
    exists net'. rewrite S'. split; [exact Hrun|]. split; [exact R'|].
    split; [congruence | reflexivity].
Qed.

Lemma resting_run_prepare (net : Network) (I : list (list R)) :
  resting (length I) (run_prepare net I).
Proof.
  unfold run_prepare. rewrite cfg_reset_history.
  destruct (keep_data (cfg net)) eqn:K; constructor; simpl; auto; try congruence.
  intros _. eexists. split; reflexivity.
Qed.

Lemma run_times_rows (c : Config) (I : list (list R)) (j : nat) (P : list R -> Prop) :
  Forall P I ->
  Forall (fun it => P (nth (fst it - 1) I [])) (firstn j (run_times c (length I))).
Proof.
  intro HI. apply Forall_forall. intros [i t_cur] Hin.
  apply (In_nth _ _ (0%nat, 0)) in Hin. destruct Hin as (m & Hm & Hnth).
  rewrite length_firstn, run_times_length in Hm.
  rewrite nth_firstn in Hnth.
  assert (E : Nat.ltb m j = true) by (apply Nat.ltb_lt; lia).
  rewrite E in Hnth. rewrite nth_run_times in Hnth by lia.
  injection Hnth as <- _. simpl. rewrite Nat.sub_0_r.
  rewrite Forall_forall in HI. apply HI. apply nth_In. lia.
Qed.

(** C4: for the LIF model with [Vr < Vth] (a non-zero membrane time
    constant, and an entry of [ref] and [tau_psc] for every neuron type), an
    all-zero injected array taken as currents keeps the network at rest:
    after every number of steps of the run every potential is [Vr], no
    neuron has spiked, every synaptic current is 0, and the recorded spike
    series holds nothing but zeros; the whole run completes in that state. *)
Theorem zero_input_stays_at_rest (net : Network) (I : list (list R)) :
  model_type (cfg net) = "LIF"%string ->
  types_indexed net ->
  model (cfg net) = Some fn_LIF ->
  synaptic_current (cfg net) = Some fn_LIF ->
  Vr (cfg net) < Vth (cfg net) ->
  tau (cfg net) <> 0 ->
  length (type_array net) = neuron_num (cfg net) ->
  length (connections (topo net)) = neuron_num (cfg net) ->
  Forall (fun row => row = zeros (neuron_num (cfg net))) I ->
  (forall j, (j <= length I)%nat ->
     exists nj,
       run_loop false I (firstn j (run_times (cfg net) (length I)))
                (run_prepare net I) = Done nj /\
       Vs (sim nj) = repeat (Vr (cfg net)) (neuron_num (cfg net)) /\
       spikes (sim nj) = repeat false (neuron_num (cfg net)) /\
       spikes_t (sim nj) = repeat (-1) (neuron_num (cfg net)) /\
       EPSC (sim nj) = zeros (neuron_num (cfg net)) /\
       synaptic_current_LIF nj = inr (zeros (neuron_num (cfg net))) /\
       (keep_data (cfg net) = true ->
        exists h, hist nj = Some h /\
                  spikes_seq h = zeros2 (neuron_num (cfg net)) (length I + 1))) /\
  exists nT, run_model net I false = Done nT /\
             steps_completed false I (run_times (cfg net) (length I))
                             (run_prepare net I) = length I.
Proof.
  intros Hmt Hidx Hm Hsc HV Htau Hty Hconn HI.
  pose proof (types_indexed_run_prepare net I Hidx) as Hidx0.
  destruct (sim_run_prepare net I) as (_ & _ & Htopo & Hta).
  assert (Hpre : forall j,
    exists nj,
      run_loop false I (firstn j (run_times (cfg net) (length I)))
               (run_prepare net I) = Done nj /\
      resting (length I) nj /\ cfg nj = cfg net /\
      steps_completed false I (firstn j (run_times (cfg net) (length I)))
                      (run_prepare net I) =
      length (firstn j (run_times (cfg net) (length I)))).
  { intro j.
    destruct (run_loop_resting (length I) I
                (firstn j (run_times (cfg net) (length I))) (run_prepare net I))
      as (nj & Hrun & Hrest & Hc & Hs);
      rewrite ?cfg_run_prepare, ?Htopo, ?Hta, ?assign_idx_scalar_length; auto.
    - apply (run_times_rows (cfg net) I j
               (fun row => row = zeros (neuron_num (cfg net)))). exact HI.
    - apply resting_run_prepare.
    - exists nj. rewrite cfg_run_prepare in Hc. auto. }
  split.
  - intros j Hj. destruct (Hpre j) as (nj & Hrun & [QV Qt QI QE QS QH] & Hc & _).
    exists nj.
    assert (Hsyn : synaptic_current_LIF nj = inr (zeros (neuron_num (cfg nj)))).
    { apply synaptic_current_LIF_rest; [|exact Qt|].
      - apply (types_indexed_ranges nj (types_indexed_prefix _ _ _ _ _ Hidx Hrun)).
        rewrite Hc. exact Hmt.
      - rewrite (run_loop_type_array _ _ _ _ _ Hrun), Hta, assign_idx_scalar_length, Hc.
        exact Hty. }
    rewrite Hc in *. repeat (split; [assumption|]). exact QH.
  - destruct (Hpre (length I)) as (nT & Hrun & _ & _ & Hs).
    rewrite firstn_all2 in Hrun, Hs by (rewrite run_times_length; lia).
    exists nT. split; [exact Hrun|]. rewrite Hs. apply run_times_length.
Qed.

(** * The matrices built by [generate_connections] *)

Lemma set_nth_out_of_range {X : Type} (k : nat) (x : X) (v : list X) :
  (length v <= k)%nat -> set_nth k x v = v.
Proof.
  revert k; induction v as [|y v IH]; intros [|k] H; simpl in *; auto; try lia.
  rewrite IH by lia. reflexivity.
Qed.

Lemma Forall_set_nth {X : Type} (P : X -> Prop) (k : nat) (x d : X) (v : list X) :
  Forall P v -> (P (nth k v d) -> P x) -> Forall P (set_nth k x v).
Proof.
  intro H. revert k. induction H as [|y v Hy Hv IH]; intros [|k] Hx; simpl in *;
    constructor; auto.
Qed.

Lemma mat_shape_set_cell (M : list (list R)) (rows cols j i : nat) (x : R) :
  mat_shape M rows cols -> mat_shape (set_cell M j i x) rows cols.
Proof.
  intros [HM HF]. unfold set_cell. split.
  - rewrite set_nth_length. exact HM.
  - apply (Forall_set_nth _ _ _ []); [exact HF|].
    intro H. rewrite set_nth_length. exact H.
Qed.

Lemma nth_set_cell_other (M : list (list R)) (j i a b : nat) (x : R) :
  a <> j \/ b <> i ->
  nth b (nth a (set_cell M j i x) []) 0 = nth b (nth a M []) 0.
Proof.
  intro H. unfold set_cell.
  destruct (Nat.eq_dec a j) as [->|Ha].
  - destruct H as [H|H]; [contradiction|].
    destruct (Nat.lt_ge_cases j (length M)) as [Hj|Hj].
    + rewrite nth_set_nth_eq by exact Hj. apply nth_set_nth_neq. auto.
    + rewrite set_nth_out_of_range by exact Hj. reflexivity.
  - rewrite nth_set_nth_neq by auto. reflexivity.
Qed.

Lemma nth_set_cell_cases (M : list (list R)) (j i a b : nat) (x : R) :
  nth b (nth a (set_cell M j i x) []) 0 = nth b (nth a M []) 0 \/
  (a = j /\ b = i /\ nth b (nth a (set_cell M j i x) []) 0 = x).
Proof.
  destruct (Nat.eq_dec a j) as [->|Ha];
    [|left; apply nth_set_cell_other; auto].
  destruct (Nat.eq_dec b i) as [->|Hb];
    [|left; apply nth_set_cell_other; auto].
  unfold set_cell.
  destruct (Nat.lt_ge_cases j (length M)) as [Hj|Hj].
  - rewrite nth_set_nth_eq by exact Hj.
    destruct (Nat.lt_ge_cases i (length (nth j M []))) as [Hi|Hi].
    + right. rewrite nth_set_nth_eq by exact Hi. auto.
    + left. rewrite set_nth_out_of_range by exact Hi. reflexivity.
  - left. rewrite set_nth_out_of_range by exact Hj. reflexivity.
Qed.

Lemma nth_zeros2 (rows cols a b : nat) : nth b (nth a (zeros2 rows cols) []) 0 = 0.
Proof.
  unfold zeros2, zeros.
  destruct (Nat.lt_ge_cases a rows) as [Ha|Ha].
  - rewrite nth_repeat_lt by exact Ha.
    destruct (Nat.lt_ge_cases b cols) as [Hb|Hb].
    + apply nth_repeat_lt. exact Hb.
    + apply nth_overflow. rewrite repeat_length. exact Hb.
  - rewrite (nth_overflow (repeat _ _)) by (rewrite repeat_length; exact Ha).
    destruct b; reflexivity.
Qed.

Lemma gen_inv_zeros (c : Config) :
  gen_inv c (mkGenState (zeros2 (neuron_num c) (neuron_num c))
                        (zeros2 (neuron_num c) (input_num c)) 0).
Proof.
  constructor; simpl.
  - apply mat_shape_zeros2.
  - apply mat_shape_zeros2.
  - intro i. apply nth_zeros2.
  - intros i j. left. apply nth_zeros2.
  - intros j i. left. apply nth_zeros2.
Qed.

Lemma input_body_inv (c : Config) (rand : nat -> R) (i j : nat) (g g' : GenState) :
  gen_inv c g -> input_body c rand i j g = inr g' -> gen_inv c g'.
Proof.
  intros [G1 G2 G3 G4 G5]. unfold input_body.
  destruct (get_pos (dim c) j) as [e|p]; [discriminate|].
  destruct (Rltb _ _).
  - destruct (dict_get (V_syn c) (negb (isin j (inh_idx c)), true)) as [e|x] eqn:Hx;
      [discriminate|].
    intro H; injection H as <-. constructor; simpl; auto.
    + apply mat_shape_set_cell. exact G2.
    + intros a b.
      destruct (nth_set_cell_cases (g_input_connections g) j i a b x)
        as [-> | (-> & -> & ->)]; auto.
  - intro H; injection H as <-. constructor; simpl; auto.
Qed.

Lemma pair_body_inv (c : Config) (rand : nat -> R) (i j : nat) (g g' : GenState) :
  gen_inv c g -> pair_body c rand i j g = inr g' -> gen_inv c g'.
Proof.
  intros [G1 G2 G3 G4 G5]. unfold pair_body.
  destruct (Nat.eqb i j) eqn:E.
  - intro H; injection H as <-. constructor; auto.
  - apply Nat.eqb_neq in E.
    destruct (connect_pr_of c i j) as [e|pr]; [discriminate|].
    destruct (Rltb _ _).
    + destruct (dict_get (V_syn c) _) as [e|x] eqn:Hx; [discriminate|].
      intro H; injection H as <-. constructor; simpl; auto.
      * apply mat_shape_set_cell. exact G1.
      * intro a. rewrite nth_set_cell_other; [apply G3|].
        destruct (Nat.eq_dec a i); [right; congruence | left; assumption].
      * intros a b.
        destruct (nth_set_cell_cases (g_connections g) i j a b x)
          as [-> | (-> & -> & ->)]; [apply G4|].
        right. eexists. exact Hx.
    + intro H; injection H as <-. constructor; simpl; auto.
Qed.

Lemma generate_connections_inv (c : Config) (rand : nat -> R) (g g' : GenState) :
  gen_inv c g -> generate_connections c rand g = inr g' -> gen_inv c g'.
Proof.
  intros Hg. unfold generate_connections.
  destruct (for_each (seq 0 (input_num c)) _ g) as [e|g1] eqn:H1; [discriminate|].
  intro H2.
  assert (Hg1 : gen_inv c g1).
  { eapply (for_each_invariant (gen_inv c)); [|exact Hg|exact H1].
    intros i s s' _ Hs Hrun.
    eapply (for_each_invariant (gen_inv c)); [|exact Hs|exact Hrun].
    intros j s0 s0' _ Hs0 Hb. eapply input_body_inv; eauto. }
  eapply (for_each_invariant (gen_inv c)); [|exact Hg1|exact H2].
  intros i s s' _ Hs Hrun.
  eapply (for_each_invariant (gen_inv c)); [|exact Hs|exact Hrun].
  intros j s0 s0' _ Hs0 Hb. eapply pair_body_inv; eauto.
Qed.

(** * No statement of [run_model] assigns the matrices *)

Lemma stage_integrate_topo (an : list nat) (net : Network) :
  topo (outcome_net (stage_integrate an net)) = topo net.
Proof.
  unfold stage_integrate.
  destruct (in_range (Vs (sim net)) an); [|reflexivity].
  destruct (call_model net) as [n1 d] eqn:Hc. apply call_model_frame in Hc.
  destruct Hc as (_ & H2 & _).
  destruct d as [e|deriv]; [exact H2|].
  destruct (np_bin _ _ _) as [e|rhs]; [exact H2|].
  destruct (Nat.eqb _ _); [exact H2|].
  destruct rhs as [|x [|y rhs]]; exact H2.
Qed.

Lemma after_integrate_topo (i : nat) (t_cur : R) (I_cur : list R) (net : Network) :
  topo (outcome_net (after_integrate i t_cur I_cur net)) = topo net.
Proof.
  unfold after_integrate, stage_EPSC.
  destruct (call_synaptic_current (stage_spike t_cur net)); [reflexivity|].
  unfold stage_record. simpl.
  destruct (keep_data (cfg net)).
  - destruct (hist net); [|reflexivity].
    unfold stage_currents. destruct (np_bin _ _ _); reflexivity.
  - unfold stage_currents. destruct (np_bin _ _ _); reflexivity.
Qed.

Lemma run_step_topo (input_type : bool) (I : list (list R)) (i : nat) (t_cur : R)
    (net : Network) :
  topo (outcome_net (run_step input_type I i t_cur net)) = topo net.
Proof.
  unfold run_step, integrate_part.
  destruct (stage_active (set_t net t_cur)) as [n1 oa] eqn:Ha.
  apply stage_active_frame in Ha. destruct Ha as (_ & A2 & _). simpl in A2.
  destruct oa as [e|oa]; [exact A2|].
  destruct (stage_input input_type (nth (i - 1) I []) t_cur n1) as [n2 ic] eqn:Hi.
  apply stage_input_frame in Hi. destruct Hi as (_ & B2 & _).
  destruct ic as [e|ic]; [simpl; congruence|].
  destruct oa as [an|]; [|simpl; congruence].
  pose proof (stage_integrate_topo an n2) as Hg.
  destruct (stage_integrate an n2) as [n3|e n3]; simpl in Hg |- *; [|congruence].
  rewrite after_integrate_topo. congruence.
Qed.

Lemma run_loop_topo (input_type : bool) (I : list (list R)) (its : list (nat * R))
    (net : Network) :
  topo (outcome_net (run_loop input_type I its net)) = topo net.
Proof.
  revert net. induction its as [|[i t_cur] its IH]; intro net; simpl; [reflexivity|].
  pose proof (run_step_topo input_type I i t_cur net) as H.
  destruct (run_step input_type I i t_cur net) as [n1|e n1]; simpl in H |- *;
    [rewrite IH|]; exact H.
Qed.

Lemma run_model_topo (net : Network) (I : list (list R)) (input_type : bool) :
  topo (outcome_net (run_model net I input_type)) = topo net.
Proof.
  unfold run_model. rewrite run_loop_topo.
  destruct (sim_run_prepare net I) as (_ & _ & H & _). exact H.
Qed.

Lemma run_many_topo (runs : list (list (list R) * bool)) (net : Network) :
  topo (run_many net runs) = topo net.
Proof.
  revert net. induction runs as [|[inj it] runs IH]; intro net; simpl; [reflexivity|].
  rewrite IH. apply run_model_topo.
Qed.

Lemma init_gen_inv (a : Args.t) (rand : nat -> R) (net : Network) :
  init a rand = inr net ->
  exists g,
    generate_connections (init_config a) rand
      (mkGenState (zeros2 (neuron_num (init_config a)) (neuron_num (init_config a)))
                  (zeros2 (neuron_num (init_config a)) (input_num (init_config a))) 0)
      = inr g /\
    gen_inv (init_config a) g /\
    connections (topo net) = g_connections g /\
    input_connections (topo net) = g_input_connections g.
Proof.
  unfold init.
  destruct (generate_connections _ _ _) as [e|g] eqn:Hg; [discriminate|].
  intro H; injection H as <-. exists g. split; [reflexivity|]. split; [|auto].
  eapply generate_connections_inv; [apply gen_inv_zeros | exact Hg].
Qed.

(** C6: once the constructor has generated the topology, the diagonal of
    [connections] is zero, every non-zero entry of either matrix is a value of
    the configured table [V_syn], the matrices are [neuron_num] by
    [neuron_num] and [neuron_num] by [input_num], and neither
    [reset_history] nor any sequence of [run_model] calls (completed or
    failed) changes either matrix. *)
Theorem topology_invariants (a : Args.t) (rand : nat -> R) (net : Network) :
  init a rand = inr net ->
  let N := neuron_num (cfg net) in
  (forall i, nth i (nth i (connections (topo net)) []) 0 = 0) /\
  (forall i j, nth j (nth i (connections (topo net)) []) 0 <> 0 ->
     exists k, dict_get (Args.V_syn a) k = inr (nth j (nth i (connections (topo net)) []) 0)) /\
  (forall j i, nth i (nth j (input_connections (topo net)) []) 0 <> 0 ->
     exists k, dict_get (Args.V_syn a) k =
               inr (nth i (nth j (input_connections (topo net)) []) 0)) /\
  mat_shape (connections (topo net)) N N /\
  mat_shape (input_connections (topo net)) N (input_num (cfg net)) /\
  topo (reset_history net) = topo net /\
  (forall I input_type, topo (outcome_net (run_model net I input_type)) = topo net) /\
  (forall runs, connections (topo (run_many net runs)) = connections (topo net) /\
                input_connections (topo (run_many net runs)) =
                  input_connections (topo net)).
Proof.
  intros Hinit N.
  pose proof (init_cfg a rand net Hinit) as Hcfg.
  destruct (init_gen_inv a rand net Hinit) as (g & _ & [G1 G2 G3 G4 G5] & Hc & Hi).
  destruct (init_config_tables a) as [HV _].
  unfold N. rewrite Hcfg, Hc, Hi, <- HV.
  split; [exact G3|]. split.
  { intros i j Hnz. destruct (G4 i j) as [H|H]; [contradiction | exact H]. }
  split.
  { intros j i Hnz. destruct (G5 j i) as [H|H]; [contradiction | eauto]. }
  split; [exact G1|]. split; [exact G2|]. split; [reflexivity|]. split.
  { intros I it. apply run_model_topo. }
  intro runs. rewrite run_many_topo, Hc, Hi. split; reflexivity.
Qed.

(** * Input weights (lines 314-329) *)

Lemma Rltb_true (x y : R) : x < y -> Rltb x y = true.
Proof. intro H. unfold Rltb. destruct (Rlt_dec x y); [reflexivity | contradiction]. Qed.

Lemma input_connect_pr_pos (c : Config) (p : nat * nat * nat) : 0 < input_connect_pr c p.
Proof.
  unfold input_connect_pr. apply Rmult_lt_0_compat; [lra | apply exp_pos].
Qed.

(** The constructor on the one-neuron example: the single draw is below the
    connection probability, so the input edge is created. *)
Lemma init_one_inhibitory_net :
  init one_inhibitory_args zero_draws =
  inr (network_of one_inhibitory_args [[0]] [[-20]]).
Proof.
  unfold init, network_of.
  assert (Hg : generate_connections (init_config one_inhibitory_args) zero_draws
             (mkGenState (zeros2 (neuron_num (init_config one_inhibitory_args))
                                 (neuron_num (init_config one_inhibitory_args)))
                (zeros2 (neuron_num (init_config one_inhibitory_args))
                        (input_num (init_config one_inhibitory_args))) 0)
           = inr (mkGenState [[0]] [[-20]] 1)).
  { unfold generate_connections. simpl for_each.
    unfold input_body. simpl get_pos. unfold zero_draws.
    rewrite Rltb_true by apply input_connect_pr_pos.
    simpl. reflexivity. }
  rewrite Hg. reflexivity.
Qed.

(** C5, as amended: when the inner loop creates an edge from an input channel
    to neuron [j], the weight stored is the entry of [V_syn] under the key
    (type of [j], 1), the type of the target neuron first and the excitatory
    input second; so after construction every non-zero entry of row [j] of
    [input_connections] is that entry. *)
Theorem input_edge_weight (a : Args.t) (rand : nat -> R) (net : Network) :
  init a rand = inr net ->
  (forall j i,
     nth i (nth j (input_connections (topo net)) []) 0 <> 0 ->
     dict_get (Args.V_syn a) (negb (isin j (Args.inh_idx a)), true) =
       inr (nth i (nth j (input_connections (topo net)) []) 0)) /\
  (forall i j g g' p,
     get_pos (dim (cfg net)) j = inr p ->
     rand (g_draws g) < input_connect_pr (cfg net) p ->
     input_body (cfg net) rand i j g = inr g' ->
     exists x,
       dict_get (Args.V_syn a) (negb (isin j (Args.inh_idx a)), true) = inr x /\
       g_input_connections g' = set_cell (g_input_connections g) j i x).
Proof.
  intro Hinit.
  pose proof (init_cfg a rand net Hinit) as Hcfg.
  destruct (init_gen_inv a rand net Hinit) as (g & _ & [G1 G2 G3 G4 G5] & Hc & Hi).
  assert (HV : V_syn (init_config a) = Args.V_syn a) by apply init_config_tables.
  assert (HI : inh_idx (init_config a) = Args.inh_idx a).
  { unfold init_config. destruct (Args.dim a) as [[d0 d1] d2]. reflexivity. }
  rewrite Hcfg. split.
  - intros j i Hnz. rewrite Hi in *. destruct (G5 j i) as [H|H]; [contradiction|].
    rewrite <- HV, <- HI. exact H.
  - intros i j g0 g' p Hp Hdraw. unfold input_body. rewrite Hp.
    rewrite Rltb_true by exact Hdraw. rewrite HV, HI.
    destruct (dict_get (Args.V_syn a) _) as [e|x]; [discriminate|].
    intro H; injection H as <-. exists x. split; reflexivity.
Qed.

(** C5, as claimed, fails on the one-neuron example: the edge to the
    inhibitory neuron 0 has the weight -20 of the key (0, 1), while the key
    (1, type(0)) = (1, 0) of the claim holds 25. *)
Lemma input_edge_weight_claim_fails :
  ~ (forall net j i,
       init one_inhibitory_args zero_draws = inr net ->
       nth i (nth j (input_connections (topo net)) []) 0 <> 0 ->
       dict_get (Args.V_syn one_inhibitory_args)
                (true, negb (isin j (Args.inh_idx one_inhibitory_args))) =
         inr (nth i (nth j (input_connections (topo net)) []) 0)).
Proof.
  intro H. specialize (H one_inhibitory_net 0%nat 0%nat init_one_inhibitory_net).
  simpl in H.
  assert (Hnz : -20 <> 0) by lra. specialize (H Hnz).
  injection H as H. lra.
Qed.

(** * Which rows an iteration accepts *)

(** Lengths of nested element-wise expressions. *)
Ltac list_length :=
  repeat (rewrite map2_length || rewrite length_map || rewrite length_seq ||
          rewrite dot_length || rewrite dot_bool_length ||
          rewrite repeat_length || rewrite assign_mask_length);
  simpl; lia.

Lemma np_bin_broadcast (f : R -> R -> R) (a b : list R) :
  length a = length b \/ length a = 1%nat ->
  exists x, np_bin f a b = inr x /\ length x = length b.
Proof.
  intros [H|H].
  - rewrite np_bin_same_length by exact H. eexists. split; [reflexivity|].
    rewrite map2_length, H. apply Nat.min_id.
  - unfold np_bin. destruct (Nat.eqb (length a) (length b)) eqn:E.
    + apply Nat.eqb_eq in E. eexists. split; [reflexivity|].
      rewrite map2_length, E. apply Nat.min_id.
    + destruct a as [|x [|y a]]; simpl in H; try discriminate.
      eexists. split; [reflexivity|]. apply length_map.
Qed.

Lemma stage_input_completes (input_type : bool) (row : list R) (t_cur : R)
    (net : Network) :
  input_current (cfg net) <> None ->
  (input_current (cfg net) = Some fn_LIF -> tau_psc (cfg net) <> []) ->
  shaped_topo net ->
  length (Vs (sim net)) = neuron_num (cfg net) ->
  row_accepted (cfg net) input_type row ->
  exists n2 I_cur,
    stage_input input_type row t_cur net = (n2, inr I_cur) /\
    (length I_cur = neuron_num (cfg net) \/ length I_cur = 1%nat).
Proof.
  intros Hic Htp [T1 T2 T3 T4 T5] HV Hrow. unfold stage_input, row_accepted in *.
  destruct input_type; [|eauto].
  assert (E : forallb (fun k => Nat.ltb k (length (input_t net))) (where_nonzero row) = true).
  { apply forallb_forall. intros k Hk. rewrite Forall_forall in Hrow.
    apply Nat.ltb_lt. rewrite T5. apply Hrow. exact Hk. }
  rewrite E. unfold call_input_current, input_current_LIF. simpl.
  destruct (input_current (cfg net)) as [[|]|]; [| |congruence].
  - destruct (tau_psc (cfg net)) as [|tp rest]; [exfalso; apply Htp; reflexivity|].
    eexists; eexists; split; [reflexivity|]; left;
      rewrite !map2_length, dot_length, dot_bool_length; simpl; lia.
  - eexists; eexists; split; [reflexivity|]; left;
      rewrite !map2_length, dot_length, dot_bool_length; simpl; lia.
Qed.

Lemma stage_integrate_completes (an : list nat) (net : Network) :
  wired (cfg net) ->
  (model_type (cfg net) = "LIF"%string -> active (sim net) = an) ->
  (model_type (cfg net) = "SFA"%string -> an = seq 0 (neuron_num (cfg net))) ->
  length (Vs (sim net)) = neuron_num (cfg net) ->
  length (Is (sim net)) = neuron_num (cfg net) ->
  length (n (sim net)) = neuron_num (cfg net) ->
  length (spikes_t (sim net)) = neuron_num (cfg net) ->
  Forall (fun k => (k < neuron_num (cfg net))%nat) an ->
  exists n3, stage_integrate an net = Done n3.
Proof.
  intros [(Hmt & Hm & _) | (Hmt & Hm & _)] HL HS HV HI Hn Ht Han;
    unfold stage_integrate, call_model;
    rewrite (in_range_bound (Vs (sim net)) an _ HV Han), Hm.
  - unfold LIF. rewrite (HL Hmt).
    rewrite (in_range_bound (Vs (sim net)) an _ HV Han).
    rewrite (in_range_bound (Is (sim net)) an _ HI Han).
    cbn [andb]. unfold LIF_values. rewrite (HL Hmt).
    rewrite np_bin_same_length by (unfold take_idx; list_length).
    replace (length (map2 Rplus _ _)) with (length an)
      by (unfold take_idx; list_length).
    rewrite Nat.eqb_refl. eauto.
  - rewrite (HS Hmt). unfold SFA, K_frac. simpl.
    rewrite np_bin_same_length by list_length.
    rewrite np_bin_same_length by list_length.
    rewrite np_bin_same_length by (unfold take_idx; list_length).
    replace (length (map2 Rplus _ _)) with (length (seq 0 (neuron_num (cfg net))))
      by (unfold take_idx; list_length).
    rewrite Nat.eqb_refl. eauto.
Qed.

Lemma call_synaptic_current_returns (net : Network) :
  synaptic_current (cfg net) <> None ->
  (synaptic_current (cfg net) = Some fn_LIF ->
   in_range (tau_psc (cfg net)) (type_array net) = true) ->
  exists syn, call_synaptic_current net = inr syn.
Proof.
  intros Hsc Hr. unfold call_synaptic_current, synaptic_current_LIF.
  destruct (synaptic_current (cfg net)) as [[|]|]; [|eauto|congruence].
  rewrite (Hr eq_refl). eauto.
Qed.

Lemma after_integrate_completes (i : nat) (t_cur : R) (I_cur : list R) (net : Network) :
  synaptic_current (cfg net) <> None ->
  (synaptic_current (cfg net) = Some fn_LIF ->
   in_range (tau_psc (cfg net)) (type_array net) = true) ->
  (keep_data (cfg net) = true -> exists h, hist net = Some h) ->
  length (connections (topo net)) = neuron_num (cfg net) ->
  length (connections_bool (topo net)) = neuron_num (cfg net) ->
  length (Vs (sim net)) = neuron_num (cfg net) ->
  length I_cur = neuron_num (cfg net) \/ length I_cur = 1%nat ->
  exists net',
    after_integrate i t_cur I_cur net = Done net' /\
    length (Is (sim net')) = neuron_num (cfg net).
Proof.
  intros Hsc Hr Hh Hc Hcb HV HI. unfold after_integrate, stage_EPSC.
  assert (Hsyn : exists syn, call_synaptic_current (stage_spike t_cur net) = inr syn).
  { apply call_synaptic_current_returns; assumption. }
  destruct Hsyn as (syn & ->).
  set (e := if String.eqb (model_type (cfg (stage_spike t_cur net))) "SFA"
            then _ else _).
  assert (He : length e = neuron_num (cfg net)).
  { unfold e. destruct (String.eqb _ _); simpl; list_length. }
  unfold stage_record. simpl.
  assert (Hb : forall m, EPSC (sim m) = e ->
             exists x, np_bin Rplus I_cur (EPSC (sim (stage_reset m))) = inr x /\
                       length x = neuron_num (cfg net)).
  { intros m Hm. simpl. rewrite Hm, <- He. apply np_bin_broadcast. rewrite He. exact HI. }
  destruct (keep_data (cfg net)) eqn:K.
  - destruct (Hh eq_refl) as (h & ->). unfold stage_currents.
    match goal with |- context [np_bin Rplus I_cur (EPSC (sim (stage_reset ?m)))] =>
      destruct (Hb m eq_refl) as (x & -> & Hx) end.
    eexists. split; [reflexivity|]. exact Hx.
  - unfold stage_currents.
    match goal with |- context [np_bin Rplus I_cur (EPSC (sim (stage_reset ?m)))] =>
      destruct (Hb m eq_refl) as (x & -> & Hx) end.
    eexists. split; [reflexivity|]. exact Hx.
Qed.

Lemma wired_methods (c : Config) :
  wired c ->
  model c <> None /\ synaptic_current c <> None /\ input_current c <> None /\
  (model_type c = "LIF"%string \/ model_type c = "SFA"%string).
Proof.
  intros [(H1 & H2 & H3 & H4) | (H1 & H2 & H3 & H4)];
    rewrite H2, H3, H4; repeat split; auto; discriminate.
Qed.

(** What the indexing hypothesis gives to each line of a wired network. *)
Lemma wired_indexed (net : Network) :
  wired (cfg net) -> types_indexed net ->
  (model_type (cfg net) = "LIF"%string ->
   in_range (ref (cfg net)) (type_array net) = true) /\
  (synaptic_current (cfg net) = Some fn_LIF ->
   in_range (tau_psc (cfg net)) (type_array net) = true) /\
  (input_current (cfg net) = Some fn_LIF -> tau_psc (cfg net) <> []).
Proof.
  intros [(H1 & H2 & H3 & H4) | (H1 & H2 & H3 & H4)] Hidx.
  - destruct (types_indexed_ranges net Hidx H1) as (R1 & R2 & tp & rest & R3).
    repeat split; intros _; try assumption. rewrite R3. discriminate.
  - repeat split; intro E; [rewrite H1 in E | rewrite H3 in E | rewrite H4 in E];
      discriminate.
Qed.

Lemma stage_active_bound (net : Network) :
  model_type (cfg net) = "LIF"%string \/ model_type (cfg net) = "SFA"%string ->
  (model_type (cfg net) = "LIF"%string ->
   in_range (ref (cfg net)) (type_array net) = true) ->
  exists n1 an,
    stage_active net = (n1, inr (Some an)) /\
    (model_type (cfg net) = "LIF"%string -> active (sim n1) = an) /\
    (model_type (cfg net) = "SFA"%string -> an = seq 0 (neuron_num (cfg net))) /\
    (length (spikes_t (sim net)) = neuron_num (cfg net) ->
     Forall (fun k => (k < neuron_num (cfg net))%nat) an).
Proof.
  intros [H|H] Hr.
  - rewrite (stage_active_LIF net H (Hr H)).
    eexists; eexists; split; [reflexivity|]. split; [reflexivity|].
    split; [intro E; rewrite H in E; discriminate|].
    intro Hl. eapply Forall_impl; [|apply nonzero_bound].
    intros k Hk. unfold refractory_mask_values in Hk. rewrite map2_length in Hk. lia.
  - unfold stage_active; rewrite H; simpl.
    eexists; eexists; split; [reflexivity|]. split; [discriminate|].
    split; [reflexivity|].
    intros _. apply Forall_forall. intros k Hk. apply in_seq in Hk. lia.
Qed.

(** An iteration runs to its end on every accepted row. *)
Lemma run_step_completes (steps : nat) (input_type : bool) (I : list (list R))
    (i : nat) (t_cur : R) (net : Network) :
  wired (cfg net) -> types_indexed net -> shaped_topo net -> shaped_run steps net ->
  length (Is (sim net)) = neuron_num (cfg net) ->
  row_accepted (cfg net) input_type (nth (i - 1) I []) ->
  exists net',
    run_step input_type I i t_cur net = Done net' /\
    length (Is (sim net')) = neuron_num (cfg net).
Proof.
  intros Hw Hidx Ht [SV St Sn Sh] HI Hrow.
  destruct (wired_methods _ Hw) as (Hm & Hsc & Hic & Hmt).
  destruct (wired_indexed net Hw Hidx) as (Hr1 & Hr2 & Hr3).
  unfold run_step, integrate_part.
  destruct (stage_active_bound (set_t net t_cur) Hmt Hr1)
    as (n1 & an & Ha & HL & HS & Hbound).
  rewrite Ha. apply stage_active_frame in Ha.
  destruct Ha as (A1 & A2 & A3 & A4 & A5 & A6 & A7 & A8 & A9 & A10 & A11).
  simpl in A1, A2, A3, A4, A5, A6, A7, A8, A9, A10, Hbound.
  specialize (Hbound St).
  assert (Ht1 : shaped_topo n1).
  { destruct Ht as [T1 T2 T3 T4 T5]. constructor; rewrite ?A1, ?A2, ?A3; assumption. }
  destruct (stage_input_completes input_type (nth (i - 1) I []) t_cur n1)
    as (n2 & I_cur & Hi & HIc); rewrite ?A1, ?A7; auto.
  rewrite Hi. apply stage_input_frame in Hi.
  destruct Hi as (B1 & B2 & B3 & B4 & B5 & B6 & B7 & B8).
  destruct (stage_integrate_completes an n2) as (n3 & Hg);
    rewrite ?B1, ?B3, ?A1, ?A7, ?A8, ?A9, ?A10; auto.
  rewrite Hg. apply stage_integrate_frame in Hg.
  destruct Hg as (C1 & C2 & C3 & C4 & C5 & C6 & C7 & C8 & C9 & C10 & C11).
  destruct Ht1 as [T1 T2 T3 T4 T5].
  assert (E3 : cfg n3 = cfg net) by congruence.
  assert (E3' : type_array n3 = type_array net) by congruence.
  assert (F1 : synaptic_current (cfg n3) <> None) by (rewrite E3; exact Hsc).
  assert (F1' : synaptic_current (cfg n3) = Some fn_LIF ->
                in_range (tau_psc (cfg n3)) (type_array n3) = true)
    by (rewrite E3, E3'; exact Hr2).
  assert (F2 : keep_data (cfg n3) = true -> exists h, hist n3 = Some h).
  { rewrite E3, C4, B4, A4. intro K. destruct (Sh K) as (h & Hh & _). eauto. }
  assert (F3 : length (connections (topo n3)) = neuron_num (cfg n3)) by congruence.
  assert (F4 : length (connections_bool (topo n3)) = neuron_num (cfg n3)) by congruence.
  assert (F5 : length (Vs (sim n3)) = neuron_num (cfg n3)) by congruence.
  assert (F6 : length I_cur = neuron_num (cfg n3) \/ length I_cur = 1%nat).
  { rewrite E3, <- A1. exact HIc. }
  destruct (after_integrate_completes i t_cur I_cur n3 F1 F1' F2 F3 F4 F5 F6)
    as (net' & Hn & HIs).
  exists net'. split; [exact Hn|]. rewrite HIs. congruence.
Qed.






(** The loop completes on accepted rows, one iteration per row, and leaves
    the object ready for further iterations. *)
Lemma run_loop_completes (steps : nat) (input_type : bool) (I : list (list R))
    (its : list (nat * R)) (net : Network) :
  wired (cfg net) -> types_indexed net -> shaped_topo net -> shaped_run steps net ->
  length (Is (sim net)) = neuron_num (cfg net) ->
  Forall (fun it => row_accepted (cfg net) input_type (nth (fst it - 1) I [])) its ->
  exists net',
    run_loop input_type I its net = Done net' /\
    steps_completed input_type I its net = length its /\
    cfg net' = cfg net /\ shaped_topo net' /\ shaped_run steps net' /\
    length (Is (sim net')) = neuron_num (cfg net).
Proof.
  revert net. induction its as [|[i t_cur] its IH];
    intros net Hw Hidx Ht Hs HI Hrows; simpl.
  - exists net. repeat (split; [solve [auto]|]). exact HI.
  - inversion Hrows as [|x l Hrow Hrows']; subst. simpl in Hrow.
    destruct (run_step_completes steps input_type I i t_cur net Hw Hidx Ht Hs HI Hrow)
      as (n1 & Hstep & HI1).
    rewrite Hstep.
    pose proof (run_step_frame _ _ _ _ _ _ Hstep) as (F1 & F2 & F3 & _).
    pose proof (run_step_shaped _ _ _ _ _ _ _ Hs Hstep) as Hs1.
    destruct (IH n1) as (net' & Hrun & Hcount & Hc' & Ht' & Hs' & HI').
    + rewrite F1. exact Hw.
    + exact (types_indexed_same net n1 F1 (run_step_type_array _ _ _ _ _ _ Hstep) Hidx).
    + destruct Ht as [T1 T2 T3 T4 T5]. constructor; rewrite ?F1, ?F2, ?F3; assumption.
    + exact Hs1.
    + rewrite F1. exact HI1.
    + rewrite F1. exact Hrows'.
    + exists net'. rewrite Hcount. split; [exact Hrun|]. split; [reflexivity|].
      split; [congruence|]. split; [exact Ht'|]. split; [exact Hs'|]. congruence.
Qed.

Lemma where_nonzero_bound (row : list R) :
  Forall (fun k => (k < length row)%nat) (where_nonzero row).
Proof.
  unfold where_nonzero.
  pose proof (nonzero_bound (map (fun x => negb (Reqb x 0)) row)) as H.
  rewrite length_map in H. exact H.
Qed.

(** A row with as many entries as the input kind expects is accepted. *)
Lemma conforming_accepted (c : Config) (input_type : bool) (row : list R) :
  length row = expected_channels c input_type -> row_accepted c input_type row.
Proof.
  unfold expected_channels, row_accepted. destruct input_type; intro H; [|auto].
  rewrite <- H. apply where_nonzero_bound.
Qed.

Lemma init_wired_shaped (a : Args.t) (rand : nat -> R) (net : Network) :
  init a rand = inr net ->
  Args.model a = "LIF"%string \/ Args.model a = "SFA"%string ->
  wired (cfg net) /\ shaped_topo net /\
  length (type_array net) = neuron_num (cfg net).
Proof.
  intros Hinit Hmodel.
  pose proof (init_cfg a rand net Hinit) as Hcfg.
  pose proof (init_config_wiring a) as Hw. simpl in Hw.
  pose proof (init_config_model_type a) as Hmt.
  split.
  { unfold wired. rewrite Hcfg, Hmt.
    destruct Hmodel as [E|E]; rewrite E in Hw |- *; simpl in Hw; tauto. }
  revert Hinit. unfold init.
  destruct (generate_connections _ _ _) as [e|g] eqn:Hg; [discriminate|].
  intro H; injection H as <-.
  pose proof (generate_connections_inv _ _ _ _ (gen_inv_zeros (init_config a)) Hg)
    as [[G1 _] [G2 _] _ _ _].
  split.
  - constructor; simpl; unfold nonzero_mask; rewrite ?length_map, ?repeat_length; auto.
  - simpl. rewrite !assign_idx_scalar_length, repeat_length. reflexivity.
Qed.

Lemma run_prepare_ready (net : Network) (I : list (list R)) :
  wired (cfg net) -> shaped_topo net ->
  wired (cfg (run_prepare net I)) /\ shaped_topo (run_prepare net I) /\
  shaped_run (length I) (run_prepare net I) /\
  length (Is (sim (run_prepare net I))) = neuron_num (cfg (run_prepare net I)).
Proof.
  intros Hw Ht. rewrite cfg_run_prepare.
  split; [exact Hw|]. split; [apply shaped_topo_run_prepare; exact Ht|].
  split; [apply shaped_run_prepare|].
  destruct (sim_run_prepare net I) as (-> & _). simpl. apply zeros_length.
Qed.

(** A run on accepted rows completes, one iteration per row. *)
Lemma run_model_completes (net : Network) (I : list (list R)) (input_type : bool) :
  wired (cfg net) -> types_indexed net -> shaped_topo net ->
  Forall (row_accepted (cfg net) input_type) I ->
  exists nT,
    run_model net I input_type = Done nT /\
    steps_completed input_type I (run_times (cfg net) (length I))
                    (run_prepare net I) = length I.
Proof.
  intros Hw Hidx Ht Hrows.
  destruct (run_prepare_ready net I Hw Ht) as (Hw0 & Ht0 & Hs0 & HI0).
  unfold run_model.
  destruct (run_loop_completes (length I) input_type I
              (run_times (cfg net) (length I)) (run_prepare net I) Hw0
              (types_indexed_run_prepare net I Hidx) Ht0 Hs0 HI0)
    as (nT & Hrun & Hcount & _).
  - rewrite cfg_run_prepare.
    pose proof (run_times_rows (cfg net) I (length I)
                  (row_accepted (cfg net) input_type) Hrows) as H.
    rewrite firstn_all2 in H by (rewrite run_times_length; lia). exact H.
  - exists nT. split; [exact Hrun|]. rewrite Hcount. apply run_times_length.
Qed.

(** After any prefix of a run on accepted rows, the next iteration runs to
    its end. *)
Lemma run_prefix_step_total (net : Network) (I : list (list R)) (input_type : bool)
    (j : nat) (t_cur : R) (nj : Network) :
  wired (cfg net) -> types_indexed net -> shaped_topo net ->
  Forall (row_accepted (cfg net) input_type) I ->
  (j < length I)%nat ->
  run_loop input_type I (firstn j (run_times (cfg net) (length I)))
           (run_prepare net I) = Done nj ->
  exists n3 I_cur net',
    integrate_part input_type I (S j) t_cur nj = (n3, inr I_cur) /\
    run_step input_type I (S j) t_cur nj = Done net'.
Proof.
  intros Hw Hidx Ht Hrows Hj Hloop.
  destruct (run_prepare_ready net I Hw Ht) as (Hw0 & Ht0 & Hs0 & HI0).
  pose proof (types_indexed_prefix net I input_type _ nj Hidx Hloop) as Hidxj.
  destruct (run_loop_completes (length I) input_type I
              (firstn j (run_times (cfg net) (length I))) (run_prepare net I)
              Hw0 (types_indexed_run_prepare net I Hidx) Ht0 Hs0 HI0)
    as (nj' & Hrun & _ & Hc & Htj & Hsj & HIj).
  { rewrite cfg_run_prepare.
    apply (run_times_rows (cfg net) I j (row_accepted (cfg net) input_type) Hrows). }
  assert (nj' = nj) by congruence. subst nj'.
  rewrite cfg_run_prepare in Hc, HIj.
  assert (Hrow : row_accepted (cfg nj) input_type (nth (S j - 1) I [])).
  { rewrite Hc. simpl. rewrite Nat.sub_0_r.
    rewrite Forall_forall in Hrows. apply Hrows. apply nth_In. exact Hj. }
  destruct (run_step_completes (length I) input_type I (S j) t_cur nj)
    as (net' & Hstep & _); auto; try congruence.
  pose proof Hstep as Hstep'. unfold run_step in Hstep'.
  destruct (integrate_part input_type I (S j) t_cur nj) as [n3 [e|I_cur]];
    [discriminate|].
  exists n3, I_cur, net'. split; [reflexivity | exact Hstep].
Qed.

(** * Spikes and adaptation, step by step *)

(** C1: a neuron whose updated potential exceeds [Vth] at step [i] gets the
    step time as its last-spike time; its potential is 0 in the state from
    which the synaptic current of the step is computed, and that 0 is what
    the step writes to column [i] of the recorded potentials: the column
    holds, for every neuron, the potential after the transient zero, and the
    same column of the recorded spikes holds a 1 for the neuron; at the end
    of the step, which is the start of step [i+1], its potential is
    [Vth - Vreset] for the [Vreset] passed to the constructor.  On a
    network built for the LIF or the SFA model, with an entry of [ref] and
    [tau_psc] for every neuron type in the LIF case, and rows that
    [run_model] accepts, the step does run to its end. *)
Theorem spike_reset_correct (a : Args.t) (net : Network) (I : list (list R))
    (input_type : bool) (j i : nat) (t_cur : R) (nj : Network) :
  cfg net = init_config a ->
  (j < length I)%nat ->
  run_loop input_type I (firstn j (run_times (cfg net) (length I)))
           (run_prepare net I) = Done nj ->
  nth j (run_times (cfg net) (length I)) (0%nat, 0) = (i, t_cur) ->
  (wired (cfg net) -> types_indexed net -> shaped_topo net ->
   Forall (row_accepted (cfg net) input_type) I ->
   exists n3 I_cur net',
     integrate_part input_type I i t_cur nj = (n3, inr I_cur) /\
     run_step input_type I i t_cur nj = Done net') /\
  forall (k : nat) (n3 net' : Network) (I_cur : list R),
  integrate_part input_type I i t_cur nj = (n3, inr I_cur) ->
  run_step input_type I i t_cur nj = Done net' ->
  (k < neuron_num (cfg net))%nat ->
  nth k (Vs (sim n3)) 0 > Vth (cfg net) ->
  nth k (spikes (sim net')) false = true /\
  nth k (spikes_t (sim net')) 0 = t_cur /\
  t_cur = INR i * dt (cfg net) /\
  (exists n4, stage_EPSC (stage_spike t_cur n3) = Done n4 /\
              EPSC (sim net') = EPSC (sim n4) /\
              nth k (Vs (sim (stage_spike t_cur n3))) 0 = 0) /\
  (keep_data (cfg net) = true ->
   exists h, hist net' = Some h /\
     nth i (nth k (Vseq h) []) 0 = 0 /\
     nth i (nth k (spikes_seq h) []) 0 = 1 /\
     forall m, (m < neuron_num (cfg net))%nat ->
       nth i (nth m (Vseq h) []) 0 = nth m (Vs (sim (stage_spike t_cur n3))) 0) /\
  nth k (Vs (sim net')) 0 = Args.Vth a - Args.Vreset a.
Proof.
  intros Hcfg Hj Hloop Hnth.
  rewrite nth_run_times in Hnth by exact Hj.
  assert (Hi : i = S j) by congruence.
  assert (Ht : t_cur = INR (S j) * dt (cfg net)) by congruence.
  clear Hnth. subst i.
  split; [intros Hw Hidx Htp Hrows; eapply run_prefix_step_total; eassumption|].
  intros k n3 net' I_cur Hint Hstep Hk Hspike.
  destruct (run_loop_shaped (length I) _ _ _ _ _ (shaped_run_prepare net I) Hloop)
    as ([SV St Sn Sh] & Hc & _).
  rewrite cfg_run_prepare in Hc. rewrite Hc in *.
  pose proof Hint as Hp. apply integrate_part_frame in Hp.
  destruct Hp as (P1 & P2 & P3 & P4 & P5 & P6 & P7 & P8 & _).
  unfold run_step in Hstep. rewrite Hint in Hstep.
  pose proof Hstep as Ha. apply after_integrate_frame in Ha.
  destruct Ha as (A1 & A2 & A3 & A4 & A5 & A6 & A7 & A8 & A9 & A10 & A11 & A12).
  rewrite P1, Hc in *.
  assert (HV : (k < length (Vs (sim n3)))%nat) by lia.
  assert (HT : length (spikes_t (sim n3)) = neuron_num (cfg net)) by congruence.
  assert (Hs : nth k (spikes (sim net')) false = true).
  { rewrite A7, (nth_map_lt _ _ _ 0) by exact HV. apply Rgtb_true. exact Hspike. }
  assert (HL : length (spikes (sim net')) = neuron_num (cfg net))
    by (rewrite A7, length_map; lia).
  assert (H0 : nth k (assign_mask (Vs (sim n3)) (spikes (sim net')) 0) 0 = 0).
  { rewrite nth_assign_mask by lia. rewrite Hs. reflexivity. }
  split; [exact Hs|]. split.
  { rewrite A8, nth_assign_mask by lia. rewrite Hs. reflexivity. }
  split; [exact Ht|]. split.
  { unfold after_integrate in Hstep.
    destruct (stage_EPSC (stage_spike t_cur n3)) as [n4|e n4] eqn:E4;
      [|discriminate].
    exists n4. split; [reflexivity|]. split.
    - unfold stage_record in Hstep.
      assert (He : forall m, stage_currents I_cur (stage_reset m) = Done net' ->
                             EPSC (sim net') = EPSC (sim m)).
      { intros m. unfold stage_currents.
        destruct (np_bin Rplus I_cur (EPSC (sim (stage_reset m)))); [discriminate|].
        intro H; injection H as <-. reflexivity. }
      destruct (keep_data (cfg n4)).
      + destruct (hist n4); [|discriminate]. rewrite (He _ Hstep). reflexivity.
      + apply He. exact Hstep.
    - simpl. rewrite P1, <- A7. exact H0. }
  split.
  { intro K. destruct (A12 K) as (h & Hh & ->). rewrite P3 in Hh.
    destruct (Sh K) as (h0 & Hh0 & HVs & Hss).
    assert (h0 = h) by congruence. subst h0.
    eexists. split; [reflexivity|]. simpl.
    split; [|split].
    - rewrite nth_set_col.
      + exact H0.
      + destruct HVs as [-> _]. exact Hk.
      + rewrite assign_mask_length. lia.
      + rewrite (mat_shape_nth _ _ _ _ HVs Hk). lia.
    - rewrite nth_set_col.
      + rewrite (nth_map_lt _ _ _ false) by lia. rewrite Hs. reflexivity.
      + destruct Hss as [-> _]. exact Hk.
      + rewrite length_map. lia.
      + rewrite (mat_shape_nth _ _ _ _ Hss Hk). lia.
    - intros m Hm. rewrite P1, <- A7. rewrite nth_set_col.
      + reflexivity.
      + destruct HVs as [-> _]. exact Hm.
      + rewrite assign_mask_length. lia.
      + rewrite (mat_shape_nth _ _ _ _ HVs Hm). lia. }
  rewrite A9, nth_assign_mask by (rewrite ?assign_mask_length; lia).
  rewrite Hs, Hcfg. apply init_config_Vreset.
Qed.

(** C3: in a run of the SFA model with a positive time step, every step
    replaces the adaptation fraction [n] of every neuron by
    [n - dt * (n / tauN - alpha * (1 - n) * gate)], where [gate] is 1 exactly
    when the last spike time [s] of the neuron satisfies [0 < t - s <= 1];
    with the gate closed this is [n - dt * n / tauN], which for
    [0 <= n] and [0 < dt <= tauN] lies between 0 and [n].  On rows that
    [run_model] accepts the step does run to its end. *)
Theorem sfa_adaptation_update (net : Network) (I : list (list R))
    (input_type : bool) (j i : nat) (t_cur : R) (nj : Network) :
  model_type (cfg net) = "SFA"%string ->
  model (cfg net) = Some fn_SFA ->
  0 < dt (cfg net) ->
  (j < length I)%nat ->
  run_loop input_type I (firstn j (run_times (cfg net) (length I)))
           (run_prepare net I) = Done nj ->
  nth j (run_times (cfg net) (length I)) (0%nat, 0) = (i, t_cur) ->
  (wired (cfg net) -> shaped_topo net ->
   Forall (row_accepted (cfg net) input_type) I ->
   exists net', run_step input_type I i t_cur nj = Done net') /\
  forall (k : nat) (net' : Network),
  run_step input_type I i t_cur nj = Done net' ->
  (k < neuron_num (cfg net))%nat ->
  let c := cfg net in
  let s := nth k (spikes_t (sim nj)) 0 in
  let x := nth k (n (sim nj)) 0 in
  let gate := K_gate t_cur s in
  nth k (n (sim net')) 0 = x - dt c * (x / tauN c - alpha c * (1 - x) * b2R gate) /\
  (gate = true <-> 0 < t_cur - s <= 1) /\
  (gate = false -> nth k (n (sim net')) 0 = x - dt c * x / tauN c) /\
  (gate = false -> 0 <= x -> dt c <= tauN c -> 0 <= nth k (n (sim net')) 0 <= x).
Proof.
  intros Hmt Hm Hdt Hj Hloop Hnth.
  rewrite nth_run_times in Hnth by exact Hj.
  assert (Hi : i = S j) by congruence.
  assert (Ht : t_cur = INR (S j) * dt (cfg net)) by congruence.
  clear Hnth.
  split.
  { intros Hw Htp Hrows. subst i.
    destruct (run_prefix_step_total net I input_type j t_cur nj Hw
                (types_indexed_SFA net Hmt) Htp Hrows Hj Hloop)
      as (n3 & I_cur & net' & _ & Hstep).
    exists net'. exact Hstep. }
  intros k net' Hstep Hk c s x gate.
  destruct (run_loop_shaped (length I) _ _ _ _ _ (shaped_run_prepare net I) Hloop)
    as ([SV St Sn Sh] & Hc & _).
  rewrite cfg_run_prepare in Hc.
  pose proof (run_spike_times net I input_type j k nj (Nat.lt_le_incl _ _ Hj) Hloop Hk)
    as Hinv. fold s in Hinv.
  unfold run_step in Hstep.
  destruct (integrate_part input_type I i t_cur nj) as [n3 r] eqn:Hp.
  destruct r as [e|I_cur]; [discriminate|].
  apply after_integrate_frame in Hstep.
  destruct Hstep as (_ & _ & _ & _ & _ & A6 & _).
  apply integrate_part_SFA_n in Hp; [|rewrite Hc; exact Hm].
  assert (Hn : nth k (n (sim net')) 0 = K_update c x gate).
  { rewrite A6, Hp, Hc.
    rewrite (nth_map2 _ _ _ k 0 false 0)
      by (rewrite ?length_map, ?Sn, ?St, ?Hc; exact Hk).
    rewrite (nth_map_lt _ _ _ 0) by (rewrite St, Hc; exact Hk). reflexivity. }
  assert (Htpos : 0 < t_cur).
  { rewrite Ht. apply Rmult_lt_0_compat; [apply lt_0_INR; lia | exact Hdt]. }
  assert (Hgate : gate = true <-> 0 < t_cur - s <= 1).
  { unfold gate. rewrite K_gate_spec.
    destruct Hinv as [E | (j' & Hj' & E)].
    - rewrite E. split; intros [H1 H2]; lra.
    - assert (0 < s).
      { rewrite E. apply Rmult_lt_0_compat; [apply lt_0_INR; lia | exact Hdt]. }
      assert (0 < t_cur - s).
      { rewrite E, Ht, <- Rmult_minus_distr_r. apply Rmult_lt_0_compat; [|exact Hdt].
        apply Rlt_0_minus. apply lt_INR. lia. }
      split; intros [H1 H2]; split; lra. }
  assert (Hclosed : gate = false -> nth k (n (sim net')) 0 = x - dt c * x / tauN c).
  { intro Hg. rewrite Hn. unfold K_update. rewrite Hg. simpl. unfold Rdiv. ring. }
  split; [exact Hn|]. split; [exact Hgate|]. split; [exact Hclosed|].
  intros Hg Hx Hle. rewrite (Hclosed Hg).
  assert (Htau : 0 < tauN c) by (fold c in Hdt; lra).
  assert (Hq : 0 <= x / tauN c).
  { unfold Rdiv. apply Rmult_le_pos; [exact Hx|]. left. apply Rinv_0_lt_compat. exact Htau. }
  assert (Hx' : x = x / tauN c * tauN c) by (field; lra).
  replace (dt c * x / tauN c) with (dt c * (x / tauN c)) by (unfold Rdiv; ring).
  fold c in Hdt. split; nra.
Qed.

(** * The shape of the injected array *)


Lemma default_V_syn_complete : complete default_V_syn.
Proof. intros [[|] [|]]; eexists; reflexivity. Qed.

Lemma default_connect_const_complete : complete default_connect_const.
Proof. intros [[|] [|]]; eexists; reflexivity. Qed.

Lemma init_config_ref (a : Args.t) :
  ref (init_config a) = Args.ref a /\ tau_psc (init_config a) = Args.tau_psc a.
Proof. unfold init_config. destruct (Args.dim a) as [[d0 d1] d2]. split; reflexivity. Qed.

(** The constructor marks every neuron with type 0 or 1: two entries in
    [ref] and in [tau_psc] cover every neuron. *)
Lemma init_types_indexed (a : Args.t) (rand : nat -> R) (net : Network) :
  init a rand = inr net ->
  (2 <= length (Args.ref a))%nat -> (2 <= length (Args.tau_psc a))%nat ->
  types_indexed net.
Proof.
  intros Hinit Hr Ht _. rewrite (init_cfg _ _ _ Hinit).
  destruct (init_config_ref a) as [-> ->].
  split; [lia|]. split; [lia|].
  revert Hinit. unfold init.
  destruct (generate_connections _ _ _) as [e|g]; [discriminate|].
  intro H; injection H as <-. cbn [reset_history type_array cfg].
  repeat apply Forall_assign_idx_scalar; try (split; lia).
  apply Forall_forall. intros x Hx. apply repeat_spec in Hx. subst x. split; lia.
Qed.


(** * Input activation times across runs *)

Lemma run_step_input_t (I : list (list R)) (i : nat) (t_cur : R) (net net' : Network) :
  run_step true I i t_cur net = Done net' ->
  input_t net' = assign_idx_scalar (input_t net) (where_nonzero (nth (i - 1) I [])) t_cur.
Proof.
  unfold run_step, integrate_part.
  destruct (stage_active (set_t net t_cur)) as [n1 oa] eqn:Ha.
  apply stage_active_frame in Ha. destruct Ha as (_ & _ & A3 & _). simpl in A3.
  destruct oa as [e|oa]; [discriminate|].
  destruct (stage_input true (nth (i - 1) I []) t_cur n1) as [n2 ic] eqn:Hi.
  assert (Hn2 : forall x, ic = inr x ->
            input_t n2 = assign_idx_scalar (input_t net) (where_nonzero (nth (i - 1) I [])) t_cur).
  { intros x ->. revert Hi. unfold stage_input.
    destruct (forallb _ _); [|discriminate].
    destruct (call_input_current _); [discriminate|].
    intro H; injection H as <- _. simpl. rewrite A3. reflexivity. }
  destruct ic as [e|ic]; [discriminate|].
  destruct oa as [an|]; [|discriminate].
  destruct (stage_integrate an n2) as [n3|e n3] eqn:Hg; [|discriminate].
  apply stage_integrate_frame in Hg. destruct Hg as (_ & _ & C3 & _).
  intro Hafter. apply after_integrate_frame in Hafter.
  destruct Hafter as (_ & _ & D3 & _).
  rewrite D3, C3. apply (Hn2 ic). reflexivity.
Qed.

Lemma where_nonzero_one : where_nonzero [1] = [0%nat].
Proof.
  unfold where_nonzero. simpl. rewrite Reqb_false by lra. reflexivity.
Qed.

Lemma where_nonzero_zero : where_nonzero [0] = [].
Proof.
  unfold where_nonzero. simpl. rewrite Reqb_true. reflexivity.
Qed.

(** C7 fails on the code: [reset_history] assigns every per-run array except
    [input_t], which only the constructor initialises.  After a run in which
    input channel 0 fired at time 0.01, the next call of [run_model] starts
    with that activation time still in place (the last-spike times of the
    neurons are back at -1), and the input kernel of its first step is 1
    where a fresh network has 0. *)
Theorem input_t_survives_reset :
  let net := network_of one_inhibitory_args [[0]] [[-20]] in
  init one_inhibitory_args zero_draws = inr net /\
  input_t net = [-1] /\
  (forall m, input_t (reset_history m) = input_t m) /\
  exists n1,
    run_model net [[1]] true = Done n1 /\
    input_t n1 = [0.01] /\
    input_t (run_prepare n1 [[0]]) = [0.01] /\
    spikes_t (sim (run_prepare n1 [[0]])) = [-1] /\
    input_current_LIF (set_t (run_prepare n1 [[0]]) 0.01) = inr [1] /\
    input_current_LIF (set_t (run_prepare net [[0]]) 0.01) = inr [0].
Proof.
  intro net. split; [apply init_one_inhibitory_net|]. split; [reflexivity|].
  split; [reflexivity|].
  destruct (init_wired_shaped _ _ _ init_one_inhibitory_net (or_introl eq_refl))
    as (Hw & Ht & _). fold net in Hw, Ht.
  assert (Hidx : types_indexed net)
    by (apply (init_types_indexed _ _ _ init_one_inhibitory_net); simpl; lia).
  destruct (run_model_completes net [[1]] true Hw Hidx Ht) as (n1 & Hrun & _).
  { constructor; [|constructor]. apply conforming_accepted. reflexivity. }
  exists n1. split; [exact Hrun|].
  assert (Hin : input_t n1 = [0.01]).
  { unfold run_model, run_times in Hrun. cbn [length seq linspace combine run_loop] in Hrun.
    destruct (run_step true [[1]] 1 (dt (cfg net)) (run_prepare net [[1]])) as [n1'|e n1'] eqn:Hs;
      [|discriminate].
    injection Hrun as <-. apply run_step_input_t in Hs. rewrite Hs.
    cbn [Nat.sub nth]. rewrite where_nonzero_one. reflexivity. }
  split; [exact Hin|].
  destruct (sim_run_prepare n1 [[0]]) as (Hsim & Hit & _).
  assert (Hc1 : cfg n1 = cfg net).
  { unfold run_model in Hrun.
    apply (run_loop_shaped 1 _ _ _ _ _ (shaped_run_prepare net [[1]])) in Hrun.
    destruct Hrun as (_ & Hc & _). rewrite Hc. apply cfg_run_prepare. }
  split; [rewrite Hit; exact Hin|].
  split; [rewrite Hsim; simpl; rewrite Hc1; reflexivity|].
  split.
  - unfold input_current_LIF. cbn [t set_t input_t cfg]. rewrite Hit, Hin.
    rewrite cfg_run_prepare, Hc1. simpl.
    unfold Rltb. destruct (Rlt_dec 0.01 0) as [H|H]; [lra|].
    replace (0.01 - 0.01) with 0 by lra.
    replace (- 0 / 6) with 0 by lra. rewrite exp_0.
    unfold heaviside. destruct (Rlt_dec 0 0) as [H0|H0]; [lra|].
    destruct (Req_dec_T 0 0) as [_|H1]; [|contradiction].
    unfold assign_mask. simpl. do 2 f_equal. lra.
  - unfold input_current_LIF, assign_mask. simpl.
    unfold Rltb. destruct (Rlt_dec (-1) 0) as [H|H]; [reflexivity | lra].
Qed.

(** * The distance used by the field potential *)

Lemma get_r_on_axis (x : R) : 0 < x -> get_r x 0 = (x, 0, 0).
Proof.
  intro Hx. unfold get_r, arctan2.
  destruct (Rlt_dec 0 x) as [_|H]; [|contradiction].
  replace (x ^ 2 + 0 ^ 2) with (x * x) by ring.
  rewrite sqrt_square by lra.
  replace (0 / x) with 0 by (unfold Rdiv; ring). rewrite atan_0. reflexivity.
Qed.

Lemma get_r_origin : get_r 0 0 = (0, 0, 0).
Proof.
  unfold get_r, arctan2.
  destruct (Rlt_dec 0 0) as [H|_]; [lra|].
  replace (0 ^ 2 + 0 ^ 2) with 0 by ring. rewrite sqrt_0. reflexivity.
Qed.

Lemma sqrt3_neq_1 : sqrt 3 <> 1.
Proof.
  intro H. assert (E : sqrt 3 * sqrt 3 = 3) by (apply sqrt_sqrt; lra).
  rewrite H in E. lra.
Qed.

(** C9 fails on the code: [calc_dist] computes
    [sqrt (r1^2 + r2^2 - r1 * r2 * cos (th1 - th2))], without the factor 2 of
    the law of cosines that its comment names.  Seen from the point (2, 0),
    the channel at (1, 0) is at distance 1, but [calc_dist] returns
    [sqrt 3], and [get_phi] divides the current of that channel by it. *)
Theorem calc_dist_not_law_of_cosines :
  calc_dist (get_r 2 0) (get_r 1 0) = sqrt 3 /\
  law_of_cosines_dist (get_r 2 0) (get_r 1 0) = 1 /\
  calc_dist (get_r 2 0) (get_r 1 0) <> law_of_cosines_dist (get_r 2 0) (get_r 1 0) /\
  exists net,
    init row_of_three_args zero_draws = inr net /\
    get_phi net [[0]; [1]] (get_r 2 0) 0 1 = inr (1 / (sqrt 3 * (4 * PI))) /\
    1 / (sqrt 3 * (4 * PI)) <> 1 / (1 * (4 * PI)).
Proof.
  rewrite !get_r_on_axis by lra.
  assert (Hc : calc_dist (2, 0, 0) (1, 0, 0) = sqrt 3).
  { unfold calc_dist. f_equal. replace (0 - 0) with 0 by ring. rewrite cos_0. ring. }
  assert (Hl : law_of_cosines_dist (2, 0, 0) (1, 0, 0) = 1).
  { unfold law_of_cosines_dist. replace (0 - 0) with 0 by ring. rewrite cos_0.
    replace (2 ^ 2 + 1 ^ 2 - 2 * 2 * 1 * 1) with 1 by ring. apply sqrt_1. }
  split; [exact Hc|]. split; [exact Hl|]. split.
  { rewrite Hc, Hl. apply sqrt3_neq_1. }
  destruct (init_total row_of_three_args zero_draws
              default_V_syn_complete default_connect_const_complete) as (net & Hinit).
  exists net. split; [exact Hinit|].
  pose proof (init_cfg _ _ _ Hinit) as Hcfg.
  assert (Hpos : 0 < sqrt 3) by (apply sqrt_lt_R0; lra).
  split.
  - unfold get_phi. rewrite Hcfg.
    change (dim (init_config row_of_three_args)) with (1, 3, 1)%nat.
    assert (P0 : get_pos (1, 3, 1)%nat 0 = inr (0, 0, 0)%nat) by reflexivity.
    assert (P1 : get_pos (1, 3, 1)%nat 1 = inr (0, 1, 0)%nat) by reflexivity.
    cbn [phi_terms]. rewrite P0, P1.
    change (INR 0) with 0. change (INR 1) with 1.
    rewrite get_r_origin, get_r_on_axis by lra.
    assert (D0 : any_differs (2, 0, 0) (0, 0, 0) = true).
    { unfold any_differs. rewrite (Reqb_false 2 0) by lra. reflexivity. }
    assert (D1 : any_differs (2, 0, 0) (1, 0, 0) = true).
    { unfold any_differs. rewrite (Reqb_false 2 1) by lra. reflexivity. }
    rewrite D0, D1, Hc. cbn [nth_error app map vsum fold_right fst snd length].
    f_equal. change (INR 2) with (1 + 1). unfold Rdiv. rewrite Rmult_0_l.
    field. split; [apply PI_neq0 | lra].
  - intro E. apply sqrt3_neq_1.
    assert (HP : 0 < PI) by apply PI_RGT_0.
    assert (E' : sqrt 3 * (4 * PI) = 1 * (4 * PI)).
    { apply Rinv_eq_reg. unfold Rdiv in E. rewrite !Rmult_1_l in E.
      rewrite Rmult_1_l. exact E. }
    nra.
Qed.

(** * The theorems at concrete inputs *)

(** Lines 251-273 on a LIF network at rest: every potential stays at [Vr]. *)
Lemma integrate_part_resting (I : list (list R)) (i : nat) (t_cur : R) (net : Network) :
  model_type (cfg net) = "LIF"%string ->
  in_range (ref (cfg net)) (type_array net) = true ->
  model (cfg net) = Some fn_LIF ->
  tau (cfg net) <> 0 ->
  Vs (sim net) = repeat (Vr (cfg net)) (neuron_num (cfg net)) ->
  spikes_t (sim net) = repeat (-1) (neuron_num (cfg net)) ->
  Is (sim net) = zeros (neuron_num (cfg net)) ->
  exists n3,
    integrate_part false I i t_cur net = (n3, inr (nth (i - 1) I [])) /\
    Vs (sim n3) = repeat (Vr (cfg net)) (neuron_num (cfg net)).
Proof.
  intros Hmt Hr1 Hm Htau QV Qt QI.
  set (N := neuron_num (cfg net)) in *.
  unfold integrate_part.
  rewrite (stage_active_LIF (set_t net t_cur) Hmt Hr1).
  unfold stage_input.
  set (an := nonzero (refractory_mask_values (set_t net t_cur))).
  assert (Han : Forall (fun k => (k < N)%nat) an).
  { pose proof (nonzero_bound (refractory_mask_values (set_t net t_cur))) as F.
    eapply Forall_impl; [|exact F]. intros k Hk.
    unfold refractory_mask_values in Hk. rewrite map2_length in Hk. simpl in Hk.
    rewrite Qt, repeat_length in Hk. lia. }
  assert (LV : length (Vs (sim net)) = N) by (rewrite QV; apply repeat_length).
  assert (LI : length (Is (sim net)) = N) by (rewrite QI; apply repeat_length).
  unfold stage_integrate, call_model. simpl. rewrite Hm.
  rewrite (in_range_bound (Vs (sim net)) an N LV Han).
  unfold LIF. simpl.
  rewrite (in_range_bound (Vs (sim net)) an N LV Han).
  rewrite (in_range_bound (Is (sim net)) an N LI Han).
  cbn [andb]. unfold LIF_values. simpl. rewrite QV, QI. unfold zeros.
  rewrite !take_idx_repeat by exact Han.
  rewrite map2_repeat, map_repeat.
  rewrite np_bin_same_length by (rewrite !repeat_length; reflexivity).
  rewrite map2_repeat, repeat_length, Nat.eqb_refl.
  replace (Vr (cfg net) + dt (cfg net) *
           ((Vr (cfg net) - Vr (cfg net) + 0 * Res (cfg net)) / tau (cfg net)))
    with (Vr (cfg net)) by (field; exact Htau).
  rewrite assign_idx_repeat_same
    by (apply Forall_forall; intros y Hy; apply repeat_spec in Hy; exact Hy).
  eexists. split; reflexivity.
Qed.

Lemma network_of_wired (a : Args.t) (conn inp : list (list R)) :
  Args.model a = "LIF"%string \/ Args.model a = "SFA"%string ->
  wired (cfg (network_of a conn inp)).
Proof.
  intro Hmodel. change (cfg (network_of a conn inp)) with (init_config a).
  pose proof (init_config_wiring a) as Hw. simpl in Hw.
  unfold wired. rewrite (init_config_model_type a).
  destruct Hmodel as [E|E]; rewrite E in Hw |- *; simpl in Hw; tauto.
Qed.

Lemma network_of_shaped (a : Args.t) (conn inp : list (list R)) :
  length conn = neuron_num (init_config a) ->
  length inp = neuron_num (init_config a) ->
  shaped_topo (network_of a conn inp).
Proof.
  intros Hc Hi. constructor; simpl; unfold nonzero_mask;
    rewrite ?length_map, ?repeat_length; auto.
Qed.

Lemma network_of_types_indexed (a : Args.t) (conn inp : list (list R)) :
  (2 <= length (Args.ref a))%nat -> (2 <= length (Args.tau_psc a))%nat ->
  types_indexed (network_of a conn inp).
Proof.
  intros Hr Ht _. change (cfg (network_of a conn inp)) with (init_config a).
  destruct (init_config_ref a) as [-> ->].
  split; [lia|]. split; [lia|].
  cbn [network_of reset_history type_array cfg].
  repeat apply Forall_assign_idx_scalar; try (split; lia).
  apply Forall_forall. intros x Hx. apply repeat_spec in Hx. subst x. split; lia.
Qed.

Lemma high_rest_indexed : types_indexed high_rest_net.
Proof. apply network_of_types_indexed; simpl; lia. Qed.

(** The spike of a neuron whose resting potential lies above the threshold,
    in the first step of a run: the step runs to its end, and column 1 of
    the history holds the spike and the potential 0. *)
Lemma spike_reset_correct_witness :
  exists n3 I_cur net',
    integrate_part false [[0]] 1 0.01 (run_prepare high_rest_net [[0]]) = (n3, inr I_cur) /\
    run_step false [[0]] 1 0.01 (run_prepare high_rest_net [[0]]) = Done net' /\
    nth 0 (Vs (sim n3)) 0 > 15 /\
    nth 0 (spikes (sim net')) false = true /\
    nth 0 (spikes_t (sim net')) 0 = 0.01 /\
    (exists h, hist net' = Some h /\
       nth 1 (nth 0 (Vseq h) []) 0 = 0 /\ nth 1 (nth 0 (spikes_seq h) []) 0 = 1) /\
    nth 0 (Vs (sim net')) 0 = 15 - 5.
Proof.
  destruct (spike_reset_correct high_rest_args high_rest_net [[0]] false 0 1 0.01
              (run_prepare high_rest_net [[0]])
              eq_refl (Nat.lt_0_succ 0) eq_refl eq_refl) as [Hrun Hspec].
  assert (Hrows : Forall (row_accepted (cfg high_rest_net) false) [[0]])
    by (constructor; [left; reflexivity | constructor]).
  destruct (Hrun (network_of_wired high_rest_args [[0]] [[5]] (or_introl eq_refl))
                 high_rest_indexed
                 (network_of_shaped high_rest_args [[0]] [[5]] eq_refl eq_refl)
                 Hrows)
    as (n3 & I_cur & net' & Hint & Hstep).
  destruct (integrate_part_resting [[0]] 1 0.01 (run_prepare high_rest_net [[0]]))
    as (n3' & Hint' & HVs);
    [reflexivity | reflexivity | reflexivity | simpl; lra | reflexivity | reflexivity
    | reflexivity |].
  assert (E : n3' = n3) by congruence. subst n3'.
  assert (Hspike : nth 0 (Vs (sim n3)) 0 > 15) by (rewrite HVs; simpl; lra).
  exists n3, I_cur, net'.
  destruct (Hspec 0%nat n3 net' I_cur Hint Hstep (Nat.lt_0_succ 0) Hspike)
    as (C1 & C2 & _ & _ & C5 & C6).
  repeat (split; [assumption|]).
  destruct (C5 eq_refl) as (h & Hh & Hv & Hsp & _).
  split; [exists h; repeat split; assumption | exact C6].
Defined.

Lemma run_times_head (c : Config) (T : nat) :
  (0 < T)%nat -> exists rest, run_times c T = (1%nat, INR 1 * dt c) :: rest.
Proof.
  intro HT. pose proof (nth_run_times c T 0 HT) as Hnth.
  pose proof (run_times_length c T) as Hl.
  destruct (run_times c T) as [|x rest]; [simpl in Hl; lia|].
  cbn [nth] in Hnth. subst x. eauto.
Qed.

(** The first step of a run of [high_rest_net]: its neuron, resting above
    the threshold, spikes. *)
Lemma high_rest_first_step (I : list (list R)) (t_cur : R) :
  length (nth 0 I []) = 1%nat ->
  exists n1,
    run_step false I 1 t_cur (run_prepare high_rest_net I) = Done n1 /\
    nth 0 (spikes_t (sim n1)) 0 = t_cur.
Proof.
  intro Hrow.
  destruct (integrate_part_resting I 1 t_cur (run_prepare high_rest_net I))
    as (n3 & Hint & HVs);
    try (destruct (sim_run_prepare high_rest_net I) as (-> & _); reflexivity);
    try (rewrite cfg_run_prepare; simpl; try reflexivity; lra).
  destruct (run_prepare_ready high_rest_net I
              (network_of_wired high_rest_args [[0]] [[5]] (or_introl eq_refl))
              (network_of_shaped high_rest_args [[0]] [[5]] eq_refl eq_refl))
    as (Hw & Ht & Hs & HI).
  destruct (run_step_completes (length I) false I 1 t_cur (run_prepare high_rest_net I)
              Hw (types_indexed_run_prepare _ I high_rest_indexed) Ht Hs HI)
    as (n1 & Hstep & _).
  { right. exact Hrow. }
  exists n1. split; [exact Hstep|].
  unfold run_step in Hstep. rewrite Hint in Hstep.
  apply integrate_part_frame in Hint. apply after_integrate_frame in Hstep.
  destruct Hint as (P1 & _ & _ & _ & _ & P6 & _).
  destruct Hstep as (_ & _ & _ & _ & _ & _ & A7 & A8 & _).
  rewrite A8, A7, P6, HVs, P1, cfg_run_prepare.
  destruct (sim_run_prepare high_rest_net I) as (-> & _). simpl.
  rewrite Rgtb_true by lra. reflexivity.
Qed.

(** In the second step of a run of [high_rest_net] the neuron, which spiked
    in the first step, is refractory and left out of the active set. *)
Lemma lif_refractory_exclusion_witness :
  exists nj n1 an,
    run_loop false [[0]; [0]] (firstn 1 (run_times (cfg high_rest_net) 2))
             (run_prepare high_rest_net [[0]; [0]]) = Done nj /\
    nth 0 (spikes_t (sim nj)) 0 = INR 1 * 0.01 /\
    stage_active (set_t nj (INR 2 * 0.01)) = (n1, inr (Some an)) /\
    ~ In 0%nat an.
Proof.
  destruct (high_rest_first_step [[0]; [0]] (INR 1 * 0.01) eq_refl) as (nj & Hstep & Hs).
  assert (Hloop : run_loop false [[0]; [0]] (firstn 1 (run_times (cfg high_rest_net) 2))
                    (run_prepare high_rest_net [[0]; [0]]) = Done nj).
  { destruct (run_times_head (cfg high_rest_net) 2 (Nat.lt_0_succ 1)) as (rest & ->).
    cbn [firstn run_loop]. change (dt (cfg high_rest_net)) with 0.01.
    rewrite Hstep. reflexivity. }
  assert (Hdt : 0 < dt (cfg high_rest_net)) by (simpl; lra).
  destruct (lif_refractory_exclusion high_rest_net [[0]; [0]] false 1 2 0 (INR 2 * 0.01) nj
              eq_refl high_rest_indexed Hdt eq_refl (Nat.lt_succ_diag_r 1) Hloop
              (nth_run_times (cfg high_rest_net) 2 1 (Nat.lt_succ_diag_r 1))
              (Nat.lt_0_succ 0))
    as (n1 & an & H1 & _ & _ & _ & _ & H5 & _).
  exists nj, n1, an. split; [exact Hloop|]. split; [exact Hs|]. split; [exact H1|].
  rewrite (run_loop_type_array _ _ _ _ _ Hloop), Hs in H5.
  apply H5; simpl; lra.
Defined.

Lemma one_inhibitory_indexed : types_indexed one_inhibitory_net.
Proof. apply network_of_types_indexed; simpl; lia. Qed.

(** One neuron, one row of zero current. *)
Lemma zero_input_stays_at_rest_witness :
  exists nT,
    run_model one_inhibitory_net [[0]] false = Done nT /\
    steps_completed false [[0]] (run_times (cfg one_inhibitory_net) 1)
                    (run_prepare one_inhibitory_net [[0]]) = 1%nat.
Proof.
  assert (HV : Vr (cfg one_inhibitory_net) < Vth (cfg one_inhibitory_net)) by (simpl; lra).
  assert (Htau : tau (cfg one_inhibitory_net) <> 0) by (simpl; lra).
  assert (HI : Forall (fun row => row = zeros (neuron_num (cfg one_inhibitory_net))) [[0]])
    by (constructor; [reflexivity | constructor]).
  exact (proj2 (zero_input_stays_at_rest one_inhibitory_net [[0]]
                  eq_refl one_inhibitory_indexed eq_refl eq_refl HV Htau eq_refl eq_refl
                  HI)).
Defined.

(** The edge to the inhibitory neuron 0 carries the entry of the key (0, 1). *)
Lemma input_edge_weight_witness :
  init one_inhibitory_args zero_draws = inr one_inhibitory_net /\
  dict_get (Args.V_syn one_inhibitory_args)
           (negb (isin 0 (Args.inh_idx one_inhibitory_args)), true) = inr (-20).
Proof.
  split; [exact init_one_inhibitory_net|].
  assert (Hnz : nth 0 (nth 0 (input_connections (topo one_inhibitory_net)) []) 0 <> 0)
    by (simpl; lra).
  exact (proj1 (input_edge_weight one_inhibitory_args zero_draws one_inhibitory_net
                  init_one_inhibitory_net) 0%nat 0%nat Hnz).
Defined.

(** The matrices of the one-neuron network, before and after any runs. *)
Lemma topology_invariants_witness :
  init one_inhibitory_args zero_draws = inr one_inhibitory_net /\
  nth 0 (nth 0 (connections (topo one_inhibitory_net)) []) 0 = 0 /\
  mat_shape (connections (topo one_inhibitory_net)) 1 1 /\
  mat_shape (input_connections (topo one_inhibitory_net)) 1 1 /\
  forall runs,
    connections (topo (run_many one_inhibitory_net runs)) = [[0]] /\
    input_connections (topo (run_many one_inhibitory_net runs)) = [[-20]].
Proof.
  split; [exact init_one_inhibitory_net|].
  destruct (topology_invariants one_inhibitory_args zero_draws one_inhibitory_net
              init_one_inhibitory_net) as (H1 & _ & _ & H4 & H5 & _ & _ & H8).
  split; [exact (H1 0%nat)|]. split; [exact H4|]. split; [exact H5|]. exact H8.
Defined.


(** A network built with model ['SOC'] on the default tables. *)
Lemma soc_run_model_fails_first_step_witness :
  exists net,
    init soc_args zero_draws = inr net /\
    model (cfg net) = Some fn_LIF /\
    exists e net',
      run_model net [[0]] false = Raised e net' /\ e = UnboundLocalError.
Proof.
  destruct (soc_run_model_fails_first_step soc_args zero_draws eq_refl
              default_V_syn_complete default_connect_const_complete)
    as (net & H1 & H2 & _ & _ & _ & H6).
  exists net. split; [exact H1|]. split; [exact H2|].
  assert (Hne : [[0]] <> (@nil (list R))) by discriminate.
  destruct (H6 [[0]] false Hne) as (e & net' & Hr & _ & _ & He).
  exists e, net'. split; [exact Hr | exact (He eq_refl)].
Defined.

(** * More on the lattice and the field potential *)

(** X1: [get_pos] is the inverse of row-major flattening: an index inside the
    lattice is sent to coordinates within the three dimensions whose
    flattening is the index, and any other index raises [ValueError]. *)
Theorem get_pos_unravels (d0 d1 d2 idx : nat) :
  match get_pos (d0, d1, d2) idx with
  | inr (z, x, y) =>
      (idx < d0 * d1 * d2)%nat /\ (z < d0)%nat /\ (x < d1)%nat /\ (y < d2)%nat /\
      (z * (d1 * d2) + x * d2 + y = idx)%nat
  | inl e => e = ValueError /\ (d0 * d1 * d2 <= idx)%nat
  end.
Proof.
  unfold get_pos. destruct (Nat.ltb idx (d0 * d1 * d2)) eqn:E.
  - apply Nat.ltb_lt in E.
    assert (H1 : (d1 <> 0)%nat) by (intro; subst; lia).
    assert (H2 : (d2 <> 0)%nat) by (intro; subst; lia).
    split; [exact E|]. split.
    { apply Nat.Div0.div_lt_upper_bound. lia. }
    split; [apply Nat.mod_upper_bound; exact H1|].
    split; [apply Nat.mod_upper_bound; exact H2|].
    pose proof (Nat.div_mod_eq idx d2) as Ha.
    pose proof (Nat.div_mod_eq (idx / d2) d1) as Hb.
    rewrite Nat.Div0.div_div in Hb.
    replace (d1 * d2)%nat with (d2 * d1)%nat by lia.
    set (q := (idx / (d2 * d1))%nat) in *.
    set (x := ((idx / d2) mod d1)%nat) in *.
    set (y := (idx mod d2)%nat) in *.
    rewrite Hb in Ha. nia.
  - apply Nat.ltb_ge in E. auto.
Qed.

Lemma calc_dist_radicand (a b c : R) : -1 <= c <= 1 -> (a ^ 2 + b ^ 2) / 2 <= a ^ 2 + b ^ 2 - a * b * c.
Proof.
  intros [Hl Hu].
  assert (H1 : 0 <= (a - b) ^ 2) by apply pow2_ge_0.
  assert (H2 : 0 <= (a + b) ^ 2) by apply pow2_ge_0.
  destruct (Rle_or_lt 0 (a * b)) as [Hab|Hab]; nra.
Qed.

Lemma calc_dist_nonneg (r1 r2 : R * R * R) : 0 <= calc_dist r1 r2.
Proof.
  destruct r1 as [[a th1] z1]. destruct r2 as [[b th2] z2]. apply sqrt_pos.
Qed.

Lemma calc_dist_zero (r1 r2 : R * R * R) :
  calc_dist r1 r2 = 0 <-> fst (fst r1) = 0 /\ fst (fst r2) = 0.
Proof.
  destruct r1 as [[a th1] z1]. destruct r2 as [[b th2] z2]. simpl.
  pose proof (COS_bound (th1 - th2)) as Hc.
  pose proof (calc_dist_radicand a b (cos (th1 - th2)) Hc) as Hr.
  assert (Ha : 0 <= a ^ 2) by apply pow2_ge_0.
  assert (Hb : 0 <= b ^ 2) by apply pow2_ge_0.
  split.
  - intro H. apply sqrt_eq_0 in H; [|lra].
    assert (a ^ 2 = 0 /\ b ^ 2 = 0) as [Ea Eb] by lra.
    split; nra.
  - intros [-> ->].
    match goal with |- sqrt ?x = 0 => replace x with 0 by ring end.
    apply sqrt_0.
Qed.

(** X2: the distance of [calc_dist] is symmetric and never negative; it is
    zero exactly when both radii are zero, whatever the angles; and a point
    is at distance [|radius|] from itself, not 0. *)
Theorem calc_dist_properties (r1 r2 : R * R * R) :
  calc_dist r1 r2 = calc_dist r2 r1 /\
  0 <= calc_dist r1 r2 /\
  (calc_dist r1 r2 = 0 <-> fst (fst r1) = 0 /\ fst (fst r2) = 0) /\
  calc_dist r1 r1 = Rabs (fst (fst r1)).
Proof.
  split; [|split; [apply calc_dist_nonneg | split; [apply calc_dist_zero|]]].
  - destruct r1 as [[a th1] z1]. destruct r2 as [[b th2] z2]. simpl.
    f_equal. replace (th2 - th1) with (- (th1 - th2)) by ring. rewrite cos_neg. ring.
  - destruct r1 as [[a th1] z1]. simpl.
    replace (th1 - th1) with 0 by ring. rewrite cos_0.
    match goal with |- sqrt ?x = _ => replace x with (Rsqr a) by (unfold Rsqr; ring) end.
    apply sqrt_Rsqr_abs.
Qed.

Lemma get_r_radius_zero (x y : R) : fst (fst (get_r x y)) = 0 -> x = 0 /\ y = 0.
Proof.
  unfold get_r. simpl. intro H.
  assert (Hx : 0 <= x * x) by nra. assert (Hy : 0 <= y * y) by nra.
  apply sqrt_eq_0 in H; [|nra]. split; nra.
Qed.

Lemma any_differs_same (r : R * R * R) : any_differs r r = false.
Proof. destruct r as [[a b] c]. unfold any_differs. rewrite !Reqb_true. reflexivity. Qed.

(** X3: when the observation point comes from [get_r], every channel that
    passes the guard of [get_phi] is at a strictly positive distance: the
    current of a channel is never divided by a zero distance. *)
Theorem get_phi_distances_positive (d : nat * nat * nat) (SPC : list (list R))
    (i : nat) (xo yo : R) (tt : nat) (terms : list (R * R)) :
  phi_terms d SPC i (get_r xo yo) tt = inr terms ->
  Forall (fun cd => 0 < snd cd) terms.
Proof.
  revert i terms. induction SPC as [|channel rest IH]; intros i terms; cbn [phi_terms].
  - intro H; injection H as <-. constructor.
  - destruct (get_pos d i) as [e|[[z x] y]]; [discriminate|].
    destruct (any_differs (get_r xo yo) (get_r (INR x) (INR y))) eqn:Hd.
    + destruct (nth_error channel tt) as [cur|]; [|discriminate].
      destruct (phi_terms d rest (S i) (get_r xo yo) tt) as [e|l] eqn:Hl; [discriminate|].
      intro H; injection H as <-. cbn [app]. constructor; [|apply (IH (S i)); exact Hl].
      cbn [snd]. destruct (calc_dist_nonneg (get_r xo yo) (get_r (INR x) (INR y))) as [Hp|Hz];
        [exact Hp|].
      exfalso. symmetry in Hz. apply calc_dist_zero in Hz. destruct Hz as [Ho Hc].
      apply get_r_radius_zero in Ho. apply get_r_radius_zero in Hc.
      destruct Ho as [-> ->]. destruct Hc as [Hx Hy]. rewrite Hx, Hy in Hd.
      rewrite any_differs_same in Hd. discriminate.
    + destruct (phi_terms d rest (S i) (get_r xo yo) tt) as [e|l] eqn:Hl; [discriminate|].
      intro H; injection H as <-. cbn [app]. apply (IH (S i)). exact Hl.
Qed.

Lemma phi_terms_total (d : nat * nat * nat) (SPC : list (list R)) (i : nat)
    (r : R * R * R) (tt : nat) :
  (i + length SPC <= fst (fst d) * snd (fst d) * snd d)%nat ->
  Forall (fun channel => (tt < length channel)%nat) SPC ->
  exists terms, phi_terms d SPC i r tt = inr terms /\ (length terms <= length SPC)%nat.
Proof.
  revert i. induction SPC as [|channel rest IH]; intros i Hi Hch; cbn [phi_terms].
  - exists []. auto.
  - inversion Hch as [|c l Hc Hrest]; subst.
    destruct (get_pos_in_range d i) as ([[z x] y] & ->); [simpl in Hi; lia|].
    destruct (IH (S i)) as (l & -> & Hl); [simpl in Hi; lia | exact Hrest|].
    destruct (any_differs r (get_r (INR x) (INR y))).
    + destruct (nth_error channel tt) as [cur|] eqn:E.
      * eexists. split; [reflexivity|]. simpl. lia.
      * apply nth_error_None in E. lia.
    + eexists. split; [reflexivity|]. simpl. lia.
Qed.

Lemma phi_terms_overflow (d : nat * nat * nat) (SPC : list (list R)) (i : nat)
    (r : R * R * R) (tt : nat) :
  (i <= fst (fst d) * snd (fst d) * snd d)%nat ->
  (fst (fst d) * snd (fst d) * snd d < i + length SPC)%nat ->
  exists e, phi_terms d SPC i r tt = inl e.
Proof.
  revert i. induction SPC as [|channel rest IH]; intros i Hle Hi; cbn [phi_terms].
  - simpl in Hi. lia.
  - destruct d as [[d0 d1] d2]. simpl in Hi, Hle. unfold get_pos.
    destruct (Nat.ltb i (d0 * d1 * d2)) eqn:E; [|eauto].
    apply Nat.ltb_lt in E.
    destruct (IH (S i)) as (e & ->); [simpl; lia | simpl; lia |].
    destruct (if any_differs r _ then _ else _); eauto.
Qed.

(** X4: [get_phi] returns a value whenever there are no more channels than
    lattice points, the number of channels is not 1 (the result is divided
    by that number minus 1) and every channel has a sample at index [t];
    with more channels than lattice points it raises. *)
Theorem get_phi_result (net : Network) (SPC : list (list R)) (r : R * R * R)
    (tt : nat) (sigma : R) :
  let points := (fst (fst (dim (cfg net))) * snd (fst (dim (cfg net))) *
                 snd (dim (cfg net)))%nat in
  ((length SPC <= points)%nat -> length SPC <> 1%nat ->
   Forall (fun channel => (tt < length channel)%nat) SPC ->
   exists v, get_phi net SPC r tt sigma = inr v) /\
  ((points < length SPC)%nat -> exists e, get_phi net SPC r tt sigma = inl e).
Proof.
  intro points. unfold get_phi. split.
  - intros Hn _ Hch.
    destruct (phi_terms_total (dim (cfg net)) SPC 0 r tt Hn Hch) as (terms & -> & _).
    eauto.
  - intro Hn.
    destruct (phi_terms_overflow (dim (cfg net)) SPC 0 r tt (Nat.le_0_l _) Hn) as (e & ->).
    eauto.
Qed.

(** * The synaptic kernels *)

Lemma nth_assign_mask_negative (v l : list R) (k : nat) :
  nth k l 0 < 0 -> nth k (assign_mask v (map (fun s => Rltb s 0) l) 0) 0 = 0.
Proof.
  intro Hs.
  assert (Hk : (k < length l)%nat).
  { destruct (Nat.lt_ge_cases k (length l)) as [H|H]; [exact H|].
    rewrite nth_overflow in Hs by exact H. lra. }
  destruct (Nat.lt_ge_cases k (length v)) as [Hv|Hv].
  - rewrite nth_assign_mask by (rewrite ?length_map; assumption).
    rewrite (nth_map_lt _ _ _ 0) by exact Hk.
    rewrite Rltb_true by exact Hs. reflexivity.
  - apply nth_overflow. rewrite assign_mask_length. lia.
Qed.

Lemma nth_assign_mask_nonnegative (v l : list R) (k : nat) :
  (k < length l)%nat -> 0 <= nth k l 0 ->
  nth k (assign_mask v (map (fun s => Rltb s 0) l) 0) 0 = nth k v 0.
Proof.
  intros Hk Hs.
  destruct (Nat.lt_ge_cases k (length v)) as [Hv|Hv].
  - rewrite nth_assign_mask by (rewrite ?length_map; assumption).
    rewrite (nth_map_lt _ _ _ 0) by exact Hk.
    unfold Rltb. destruct (Rlt_dec (nth k l 0) 0); [lra | reflexivity].
  - rewrite !nth_overflow; [reflexivity | exact Hv | rewrite assign_mask_length; lia].
Qed.

(** What the two LIF kernels return when their reads of [tau_psc] are in
    range. *)
Lemma synaptic_current_LIF_inr (net : Network) (Isyn : list R) :
  synaptic_current_LIF net = inr Isyn -> Isyn = synaptic_current_LIF_values net.
Proof.
  unfold synaptic_current_LIF. destruct (in_range _ _); [|discriminate].
  intro H; injection H as <-. reflexivity.
Qed.

Lemma synaptic_current_LIF_returns (net : Network) :
  in_range (tau_psc (cfg net)) (type_array net) = true ->
  synaptic_current_LIF net = inr (synaptic_current_LIF_values net).
Proof. intro H. unfold synaptic_current_LIF. rewrite H. reflexivity. Qed.

Lemma input_current_LIF_inr (net : Network) (Isyn : list R) :
  input_current_LIF net = inr Isyn ->
  exists tp rest,
    tau_psc (cfg net) = tp :: rest /\
    Isyn = assign_mask (map (fun x => exp (- x / tp) * heaviside x 1)
                            (map (fun it => t net - it) (input_t net)))
                       (map (fun it => Rltb it 0) (input_t net)) 0.
Proof.
  unfold input_current_LIF. destruct (tau_psc (cfg net)) as [|tp rest]; [discriminate|].
  intro H; injection H as <-. eauto.
Qed.

(** X5: a neuron whose last-spike time is negative (in particular the
    sentinel -1 of a neuron that never spiked) contributes a synaptic
    current of exactly 0 in both models, whatever the time; the same holds
    for an input channel with a negative activation time.  The LIF kernels
    return when [tau_psc] has an entry for every neuron type, respectively a
    first entry. *)
Theorem kernels_zero_before_first_event (net : Network) (k : nat) :
  (nth k (spikes_t (sim net)) 0 < 0 ->
   (forall Isyn, synaptic_current_LIF net = inr Isyn -> nth k Isyn 0 = 0) /\
   nth k (synaptic_current_SFA net) 0 = 0) /\
  (nth k (input_t net) 0 < 0 ->
   (forall Isyn, input_current_LIF net = inr Isyn -> nth k Isyn 0 = 0) /\
   nth k (input_current_SFA net) 0 = 0) /\
  (in_range (tau_psc (cfg net)) (type_array net) = true ->
   exists Isyn, synaptic_current_LIF net = inr Isyn) /\
  (tau_psc (cfg net) <> [] -> exists Isyn, input_current_LIF net = inr Isyn).
Proof.
  split; [|split; [|split]].
  - intro H. split.
    + intros Isyn E. apply synaptic_current_LIF_inr in E. subst Isyn.
      unfold synaptic_current_LIF_values. apply nth_assign_mask_negative. exact H.
    + unfold synaptic_current_SFA. apply nth_assign_mask_negative. exact H.
  - intro H. split.
    + intros Isyn E. apply input_current_LIF_inr in E.
      destruct E as (tp & rest & _ & ->). apply nth_assign_mask_negative. exact H.
    + unfold input_current_SFA. apply nth_assign_mask_negative. exact H.
  - intro H. rewrite (synaptic_current_LIF_returns net H). eauto.
  - intro H. unfold input_current_LIF.
    destruct (tau_psc (cfg net)) as [|tp rest]; [contradiction | eauto].
Qed.

Lemma exp_decay_bounds (d tc : R) : 0 <= d -> 0 < tc -> 0 < exp (- d / tc) <= 1.
Proof.
  intros Hd Ht. split; [apply exp_pos|].
  destruct Hd as [Hd|<-].
  - left. rewrite <- exp_0. apply exp_increasing.
    assert (0 < d / tc) by (apply Rdiv_lt_0_compat; assumption).
    unfold Rdiv in *. lra.
  - right. replace (- 0 / tc) with 0 by (unfold Rdiv; ring). apply exp_0.
Qed.

Lemma heaviside_one_values (x : R) :
  heaviside x 1 = if Rlt_dec x 0 then 0 else 1.
Proof.
  unfold heaviside. destruct (Rlt_dec x 0); [reflexivity|].
  destruct (Req_dec_T x 0); reflexivity.
Qed.

(** X6: with a positive decay constant for its type, the LIF synaptic kernel
    of a neuron, as returned by a call that finds an entry of [tau_psc] for
    every neuron type, lies between 0 and 1: it is
    [exp (-(t - s) / tau_psc[type])] from the spike time [s >= 0] on, exactly
    1 at the step of the spike, and 0 before the spike time. *)
Theorem synaptic_current_LIF_bounds (net : Network) (k : nat) (Isyn : list R) :
  synaptic_current_LIF net = inr Isyn ->
  (k < length (spikes_t (sim net)))%nat ->
  (k < length (type_array net))%nat ->
  0 < nth (nth k (type_array net) 0%nat) (tau_psc (cfg net)) 0 ->
  let s := nth k (spikes_t (sim net)) 0 in
  let tc := nth (nth k (type_array net) 0%nat) (tau_psc (cfg net)) 0 in
  let v := nth k Isyn 0 in
  0 <= v <= 1 /\
  (0 <= s <= t net -> v = exp (- (t net - s) / tc)) /\
  (0 <= s -> t net = s -> v = 1) /\
  (s < 0 \/ t net < s -> v = 0).
Proof.
  intros Hret Hk Hty Htc s tc v.
  apply synaptic_current_LIF_inr in Hret. subst Isyn.
  assert (Hraw : 0 <= s -> v = exp (- (t net - s) / tc) * heaviside (t net - s) 1).
  { intro Hs. unfold v, synaptic_current_LIF_values.
    rewrite nth_assign_mask_nonnegative by assumption.
    rewrite (nth_map2 _ _ _ k 0 0 0)
      by (unfold take_idx; rewrite ?length_map; assumption).
    rewrite (nth_map_lt _ _ _ 0) by exact Hk.
    unfold take_idx. rewrite (nth_map_lt _ _ _ 0%nat) by exact Hty. reflexivity. }
  assert (Hneg : s < 0 -> v = 0).
  { intro Hs. unfold v, synaptic_current_LIF_values.
    apply nth_assign_mask_negative. exact Hs. }
  assert (Hin : 0 <= s <= t net -> v = exp (- (t net - s) / tc)).
  { intros [H0 H1]. rewrite (Hraw H0), heaviside_one_values.
    destruct (Rlt_dec (t net - s) 0); [lra | ring]. }
  assert (Hout : s < 0 \/ t net < s -> v = 0).
  { intros [Hs|Hs]; [exact (Hneg Hs)|].
    destruct (Rlt_le_dec s 0) as [H0|H0]; [exact (Hneg H0)|].
    rewrite (Hraw H0), heaviside_one_values.
    destruct (Rlt_dec (t net - s) 0); [ring | lra]. }
  split; [|split; [exact Hin | split; [|exact Hout]]].
  - destruct (Rlt_le_dec s 0) as [H0|H0]; [rewrite (Hneg H0); lra|].
    destruct (Rlt_le_dec (t net) s) as [H1|H1]; [rewrite (Hout (or_intror H1)); lra|].
    rewrite (Hin (conj H0 H1)).
    destruct (exp_decay_bounds (t net - s) tc) as [Ha Hb]; [lra | exact Htc | lra].
  - intros H0 E. rewrite Hin by lra. rewrite E.
    replace (- (s - s) / tc) with 0 by (unfold Rdiv; ring). apply exp_0.
Qed.

(** X7: with rise and decay constants [0 < tauRise <= tauDec] and a
    strength [J >= 0], the SFA synaptic kernel of a neuron is 0 at the step
    of its spike and lies between 0 and [J] afterwards. *)
Theorem synaptic_current_SFA_bounds (net : Network) (k : nat) :
  (k < length (spikes_t (sim net)))%nat ->
  0 < tauRise (cfg net) <= tauDec (cfg net) ->
  0 <= J (cfg net) ->
  let s := nth k (spikes_t (sim net)) 0 in
  let v := nth k (synaptic_current_SFA net) 0 in
  (0 <= s -> t net = s -> v = 0) /\
  (0 <= s <= t net -> 0 <= v <= J (cfg net)).
Proof.
  intros Hk [Hr Hd] HJ s v.
  assert (Hraw : 0 <= s ->
            v = J (cfg net) * (exp (- (t net - s) / tauDec (cfg net)) -
                               exp (- (t net - s) / tauRise (cfg net)))).
  { intro Hs. unfold v, synaptic_current_SFA.
    rewrite nth_assign_mask_nonnegative by assumption.
    rewrite (nth_map_lt _ _ _ 0) by (rewrite length_map; exact Hk).
    rewrite (nth_map_lt _ _ _ 0) by exact Hk. reflexivity. }
  split.
  - intros H0 E. rewrite (Hraw H0), E.
    replace (- (s - s) / tauDec (cfg net)) with 0 by (unfold Rdiv; ring).
    replace (- (s - s) / tauRise (cfg net)) with 0 by (unfold Rdiv; ring).
    ring.
  - intros [H0 H1]. rewrite (Hraw H0).
    set (d := t net - s). assert (Hd0 : 0 <= d) by (unfold d; lra).
    destruct (exp_decay_bounds d (tauDec (cfg net))) as [A1 A2]; [exact Hd0 | lra|].
    destruct (exp_decay_bounds d (tauRise (cfg net))) as [B1 B2]; [exact Hd0 | lra|].
    assert (Hle : exp (- d / tauRise (cfg net)) <= exp (- d / tauDec (cfg net))).
    { destruct (Rle_lt_or_eq_dec _ _ Hd) as [Hlt|Heq]; [|rewrite Heq; lra].
      destruct Hd0 as [Hpos|<-].
      - left. apply exp_increasing.
        assert (/ tauDec (cfg net) < / tauRise (cfg net))
          by (apply Rinv_lt_contravar; [nra | exact Hlt]).
        unfold Rdiv. nra.
      - right. f_equal. unfold Rdiv. ring. }
    split; nra.
Qed.

(** * Polar coordinates *)

Lemma sqrt_sum_squares_pos (x y : R) :
  0 < x -> sqrt (x ^ 2 + y ^ 2) = x * sqrt (1 + (y / x)²).
Proof.
  intro Hx.
  replace (x ^ 2 + y ^ 2) with (x ^ 2 * (1 + (y / x)²))
    by (unfold Rsqr; field; lra).
  rewrite sqrt_mult_alt by (apply pow2_ge_0).
  rewrite sqrt_pow2 by lra. reflexivity.
Qed.

Lemma sqrt_sum_squares_neg (x y : R) :
  x < 0 -> sqrt (x ^ 2 + y ^ 2) = - x * sqrt (1 + (y / x)²).
Proof.
  intro Hx.
  replace (x ^ 2 + y ^ 2) with ((- x) ^ 2 * (1 + (y / x)²))
    by (unfold Rsqr; field; lra).
  rewrite sqrt_mult_alt by (apply pow2_ge_0).
  rewrite sqrt_pow2 by lra. reflexivity.
Qed.

Lemma sqrt_one_plus_sqr_pos (z : R) : 0 < sqrt (1 + z²).
Proof. apply sqrt_lt_R0. pose proof (Rle_0_sqr z). lra. Qed.

Lemma atan_sign (z : R) : (0 < z -> 0 < atan z) /\ (z <= 0 -> atan z <= 0).
Proof.
  split; intro H.
  - rewrite <- atan_0. apply atan_increasing. exact H.
  - destruct H as [H|H].
    + left. rewrite <- atan_0. apply atan_increasing. exact H.
    + rewrite H, atan_0. lra.
Qed.

(** X8: [get_r] returns polar coordinates of the point [(x, y)]: a radius
    that is not negative, an angle in the interval from -pi (excluded) to pi
    (included), and radius times cosine and sine of the angle give [x] and
    [y] back. *)
Theorem get_r_polar (x y : R) :
  let radius := fst (fst (get_r x y)) in
  let angle := snd (fst (get_r x y)) in
  0 <= radius /\ - PI < angle <= PI /\
  radius * cos angle = x /\ radius * sin angle = y /\
  snd (get_r x y) = 0.
Proof.
  unfold get_r. cbn [fst snd].
  split; [apply sqrt_pos|].
  pose proof PI_RGT_0 as Hpi.
  pose proof (atan_bound (y / x)) as Hb.
  pose proof (sqrt_one_plus_sqr_pos (y / x)) as Hs.
  unfold arctan2.
  destruct (Rlt_dec 0 x) as [Hx|Hx].
  - split; [lra|].
    rewrite sqrt_sum_squares_pos by exact Hx.
    rewrite cos_atan, sin_atan.
    repeat split; field; lra.
  - destruct (Rlt_dec x 0) as [Hx'|Hx'].
    + rewrite sqrt_sum_squares_neg by exact Hx'.
      destruct (Rle_dec 0 y) as [Hy|Hy].
      * assert (Hz : y / x <= 0).
        { unfold Rdiv. assert (/ x < 0) by (apply Rinv_lt_0_compat; exact Hx'). nra. }
        pose proof (proj2 (atan_sign (y / x)) Hz).
        split; [lra|].
        rewrite neg_cos, neg_sin, cos_atan, sin_atan.
        repeat split; field; lra.
      * assert (Hz : 0 < y / x).
        { unfold Rdiv. assert (/ x < 0) by (apply Rinv_lt_0_compat; exact Hx'). nra. }
        pose proof (proj1 (atan_sign (y / x)) Hz).
        split; [lra|].
        replace (atan (y / x) - PI) with (- (PI - atan (y / x))) by ring.
        rewrite cos_neg, sin_neg.
        replace (PI - atan (y / x)) with (- atan (y / x) + PI) by ring.
        rewrite neg_cos, neg_sin, cos_neg, sin_neg, cos_atan, sin_atan.
        repeat split; field; lra.
    + assert (E : x = 0) by lra. subst x.
      replace (0 ^ 2 + y ^ 2) with (y ^ 2) by ring.
      destruct (Rlt_dec 0 y) as [Hy|Hy].
      * rewrite sqrt_pow2 by lra. rewrite cos_PI2, sin_PI2.
        repeat split; lra.
      * destruct (Rlt_dec y 0) as [Hy'|Hy'].
        -- replace (y ^ 2) with ((- y) ^ 2) by ring.
           rewrite sqrt_pow2 by lra.
           replace (- PI / 2) with (- (PI / 2)) by field.
           rewrite cos_neg, sin_neg, cos_PI2, sin_PI2.
           repeat split; lra.
        -- assert (E : y = 0) by lra. subst y.
           replace (0 ^ 2) with 0 by ring. rewrite sqrt_0.
           repeat split; lra.
Qed.

(** * The integration step (line 273) *)

Lemma map2_map_same {X A B C : Type} (f : A -> B -> C) (a : X -> A) (b : X -> B)
    (l : list X) :
  map2 f (map a l) (map b l) = map (fun x => f (a x) (b x)) l.
Proof. induction l as [|x l IH]; simpl; [reflexivity | rewrite IH; reflexivity]. Qed.

Lemma nth_assign_idx_map {X : Type} (h : nat -> X) (idx : list nat) (v : list X)
    (k : nat) (d : X) :
  Forall (fun j => (j < length v)%nat) idx -> In k idx ->
  nth k (assign_idx v idx (map h idx)) d = h k.
Proof.
  revert v. induction idx as [|a idx IH]; intros v Hb Hin; [destruct Hin|].
  inversion Hb as [|? ? Ha Hb']; subst. simpl.
  destruct (in_dec Nat.eq_dec k idx) as [Hk|Hk].
  - apply IH; [|exact Hk]. rewrite set_nth_length. exact Hb'.
  - destruct Hin as [->|Hin]; [|contradiction].
    rewrite nth_assign_idx_other by exact Hk.
    apply nth_set_nth_eq. exact Ha.
Qed.

Lemma stage_integrate_LIF (an : list nat) (net : Network) :
  model (cfg net) = Some fn_LIF -> active (sim net) = an ->
  in_range (Vs (sim net)) an = true -> in_range (Is (sim net)) an = true ->
  stage_integrate an net =
  Done (set_sim net (set_Vs (sim net)
    (assign_idx (Vs (sim net)) an
       (map (fun k => nth k (Vs (sim net)) 0 +
                      dt (cfg net) * ((Vr (cfg net) - nth k (Vs (sim net)) 0 +
                                       nth k (Is (sim net)) 0 * Res (cfg net)) /
                                      tau (cfg net))) an)))).
Proof.
  intros Hm Ha HV HI. unfold stage_integrate, call_model. rewrite HV, Hm.
  unfold LIF. rewrite Ha, HV, HI. cbn [andb]. unfold LIF_values. rewrite Ha.
  unfold take_idx.
  rewrite map2_map_same, map_map.
  rewrite np_bin_same_length by (rewrite !length_map; reflexivity).
  rewrite map2_map_same, length_map, Nat.eqb_refl. reflexivity.
Qed.

Lemma stage_active_LIF_error (net : Network) :
  model_type (cfg net) = "LIF"%string ->
  in_range (ref (cfg net)) (type_array net) = false ->
  stage_active net = (net, inl IndexError).
Proof.
  intros Hm Hr. unfold stage_active, refractory_mask. rewrite Hm, Hr. reflexivity.
Qed.

Lemma nth_refractory_mask (net : Network) (k : nat) :
  (k < length (spikes_t (sim net)))%nat -> (k < length (type_array net))%nat ->
  nth k (refractory_mask_values net) false =
  Rgtb (t net - nth k (spikes_t (sim net)) 0)
       (nth (nth k (type_array net) 0%nat) (ref (cfg net)) 0)
  || Reqb (nth k (spikes_t (sim net)) 0) (-1).
Proof.
  intros Hs Ht. unfold refractory_mask_values.
  rewrite (nth_map2 _ _ _ k 0 0 false)
    by (unfold take_idx; rewrite ?length_map; assumption).
  unfold take_idx. rewrite (nth_map_lt _ _ _ 0%nat) by exact Ht. reflexivity.
Qed.

Lemma refractory_mask_length (net : Network) :
  length (refractory_mask_values net) =
  Nat.min (length (spikes_t (sim net))) (length (type_array net)).
Proof.
  unfold refractory_mask_values, take_idx. rewrite map2_length, length_map. reflexivity.
Qed.

(** What line 273 computes with the LIF method stored. *)
Lemma lif_integrate_values (net n3 : Network) (I : list (list R)) (input_type : bool)
    (i k : nat) (t_cur : R) (I_cur : list R) :
  model_type (cfg net) = "LIF"%string ->
  model (cfg net) = Some fn_LIF ->
  length (spikes_t (sim net)) = length (Vs (sim net)) ->
  length (type_array net) = length (Vs (sim net)) ->
  length (Is (sim net)) = length (Vs (sim net)) ->
  (k < length (Vs (sim net)))%nat ->
  integrate_part input_type I i t_cur net = (n3, inr I_cur) ->
  let c := cfg net in
  let s := nth k (spikes_t (sim net)) 0 in
  let r := nth (nth k (type_array net) 0%nat) (ref c) 0 in
  let v := nth k (Vs (sim net)) 0 in
  (s = -1 \/ t_cur - s > r ->
   nth k (Vs (sim n3)) 0 =
   v + dt c * ((Vr c - v + nth k (Is (sim net)) 0 * Res c) / tau c)) /\
  (s <> -1 -> t_cur - s <= r -> nth k (Vs (sim n3)) 0 = v).
Proof.
  intros Hmt Hm Hls Hlt Hli Hk Hint c s r v.
  unfold integrate_part in Hint.
  set (net0 := set_t net t_cur) in *.
  destruct (in_range (ref (cfg net0)) (type_array net0)) eqn:Hr;
    [|rewrite (stage_active_LIF_error net0 Hmt Hr) in Hint; discriminate].
  rewrite (stage_active_LIF net0 Hmt Hr) in Hint.
  set (an := nonzero (refractory_mask_values net0)) in *.
  assert (Hb : Forall (fun j => (j < length (Vs (sim net)))%nat) an).
  { unfold an. eapply Forall_impl; [|apply nonzero_bound].
    intros j Hj. rewrite refractory_mask_length in Hj. cbn in Hj. lia. }
  destruct (stage_input input_type (nth (i - 1) I []) t_cur _) as [n2 ic] eqn:Hi.
  destruct ic as [e|ic]; [discriminate|].
  apply stage_input_frame in Hi.
  destruct Hi as (B1 & B2 & B3 & _).
  rewrite (stage_integrate_LIF an n2) in Hint
    by (rewrite ?B1, ?B3;
        first [exact Hm | reflexivity
              | apply (in_range_bound _ an (length (Vs (sim net)))); cbn; auto]).
  injection Hint as <- _.
  rewrite B3, B1. cbn.
  assert (Hmask : nth k (refractory_mask_values net0) false =
                  Rgtb (t_cur - s) r || Reqb s (-1)).
  { rewrite nth_refractory_mask by (cbn; lia). reflexivity. }
  assert (Hin : In k an <-> Rgtb (t_cur - s) r || Reqb s (-1) = true).
  { unfold an. rewrite In_nonzero, <- Hmask, refractory_mask_length. cbn.
    split; [tauto|]. intro H; split; [lia | exact H]. }
  split.
  - intro H.
    rewrite (nth_assign_idx_map _ an _ k 0 Hb); [reflexivity|].
    apply Hin. destruct H as [H|H].
    + rewrite H, Reqb_true. apply orb_true_r.
    + rewrite Rgtb_true by exact H. reflexivity.
  - intros H1 H2. apply nth_assign_idx_other.
    rewrite Hin, Rgtb_false by lra. rewrite Reqb_false by exact H1. discriminate.
Qed.

(** X9: the integration of a LIF step is one forward-Euler step for every
    neuron that never spiked or has left its refractory period,
    [V + dt * (Vr - V + I * R) / tau], and leaves the potential of a
    refractory neuron as it was. *)
Theorem lif_euler_step (net n3 : Network) (I : list (list R)) (input_type : bool)
    (i k : nat) (t_cur : R) (I_cur : list R) :
  model_type (cfg net) = "LIF"%string ->
  model (cfg net) = Some fn_LIF ->
  length (spikes_t (sim net)) = length (Vs (sim net)) ->
  length (type_array net) = length (Vs (sim net)) ->
  length (Is (sim net)) = length (Vs (sim net)) ->
  (k < length (Vs (sim net)))%nat ->
  integrate_part input_type I i t_cur net = (n3, inr I_cur) ->
  let c := cfg net in
  let s := nth k (spikes_t (sim net)) 0 in
  let r := nth (nth k (type_array net) 0%nat) (ref c) 0 in
  let v := nth k (Vs (sim net)) 0 in
  (s = -1 \/ t_cur - s > r ->
   nth k (Vs (sim n3)) 0 =
   v + dt c * ((Vr c - v + nth k (Is (sim net)) 0 * Res c) / tau c)) /\
  (s <> -1 -> t_cur - s <= r -> nth k (Vs (sim n3)) 0 = v).
Proof. exact (lif_integrate_values net n3 I input_type i k t_cur I_cur). Qed.

Lemma nth_assign_idx_seq {X : Type} (v vals : list X) (k : nat) (d : X) :
  length vals = length v -> (k < length v)%nat ->
  nth k (assign_idx v (seq 0 (length v)) vals) d = nth k vals d.
Proof.
  intros Hl Hk.
  assert (E : vals = map (fun j => nth j vals d) (seq 0 (length v))).
  { rewrite <- Hl. apply nth_ext with (d := d) (d' := nth 0 vals d).
    - rewrite length_map, length_seq. reflexivity.
    - intros m Hm. rewrite (nth_map_lt _ _ _ 0%nat) by (rewrite length_seq; exact Hm).
      rewrite seq_nth by exact Hm. reflexivity. }
  assert (H : nth k (assign_idx v (seq 0 (length v))
                   (map (fun j => nth j vals d) (seq 0 (length v)))) d = nth k vals d).
  { apply (nth_assign_idx_map (fun j => nth j vals d)).
    - apply Forall_forall. intros j Hj. apply in_seq in Hj. lia.
    - apply in_seq. lia. }
  rewrite <- E in H. exact H.
Qed.

(** What line 273 computes with the SFA method stored. *)
Lemma sfa_integrate_values (net n3 : Network) (I : list (list R)) (input_type : bool)
    (i k : nat) (t_cur : R) (I_cur : list R) :
  model_type (cfg net) = "SFA"%string ->
  model (cfg net) = Some fn_SFA ->
  length (Vs (sim net)) = neuron_num (cfg net) ->
  length (spikes_t (sim net)) = neuron_num (cfg net) ->
  length (n (sim net)) = neuron_num (cfg net) ->
  length (Is (sim net)) = neuron_num (cfg net) ->
  (k < neuron_num (cfg net))%nat ->
  integrate_part input_type I i t_cur net = (n3, inr I_cur) ->
  let c := cfg net in
  let v := nth k (Vs (sim net)) 0 in
  let n' := K_update c (nth k (n (sim net)) 0)
                     (K_gate t_cur (nth k (spikes_t (sim net)) 0)) in
  let ia := gk c * n' * (v - Vk c) in
  nth k (n (sim n3)) 0 = n' /\
  nth k (Ia (sim n3)) 0 = ia /\
  nth k (Vs (sim n3)) 0 =
    v + dt c * ((Vr c - v + (nth k (Is (sim net)) 0 - ia) * Res c) / tau c).
Proof.
  intros Hmt Hm HV Ht Hn HI Hk Hint c v n' ia.
  unfold integrate_part in Hint.
  destruct (stage_active (set_t net t_cur)) as [n1 oa] eqn:Ha.
  assert (Hoa : oa = inr (Some (seq 0 (neuron_num (cfg net))))).
  { unfold stage_active in Ha. cbn [cfg set_t] in Ha. rewrite Hmt in Ha.
    cbn in Ha. injection Ha as _ <-. reflexivity. }
  subst oa.
  destruct (stage_input input_type (nth (i - 1) I []) t_cur n1) as [n2 ic] eqn:Hi.
  destruct ic as [e|ic]; [discriminate|].
  apply stage_active_frame in Ha. apply stage_input_frame in Hi.
  destruct Ha as (A1 & A2 & A3 & A4 & A5 & A6 & A7 & A8 & A9 & A10 & A11).
  destruct Hi as (B1 & B2 & B3 & B4 & B5 & B6 & B7 & B8).
  cbn [cfg set_t t sim] in A1, A5, A7, A8, A9, A10.
  revert Hint.
  unfold stage_integrate, call_model.
  rewrite (in_range_bound (Vs (sim n2)) (seq 0 (neuron_num (cfg net)))
             (neuron_num (cfg net)))
    by first [congruence | apply Forall_forall; intros j Hj; apply in_seq in Hj; lia].
  rewrite B1, A1, Hm.
  unfold SFA, K_frac. cbn [sim set_sim set_n set_Ia n Vs Is Ia cfg spikes_t t].
  rewrite ?B1, ?A1, B3, B5, A5, A7, A8, A9, A10.
  set (nn := map2 (K_update (cfg net)) (n (sim net))
                  (map (K_gate t_cur) (spikes_t (sim net)))).
  set (ias := map2 (fun x v0 => gk (cfg net) * x * (v0 - Vk (cfg net))) nn (Vs (sim net))).
  assert (Lnn : length nn = neuron_num (cfg net)) by (unfold nn; list_length).
  assert (Lia : length ias = neuron_num (cfg net)) by (unfold ias; list_length).
  rewrite np_bin_same_length by lia.
  rewrite np_bin_same_length by list_length.
  unfold take_idx.
  rewrite np_bin_same_length by list_length.
  replace (length (map2 Rplus _ _)) with (length (seq 0 (neuron_num (cfg net))))
    by list_length.
  rewrite Nat.eqb_refl.
  intro Hint. injection Hint as <- _.
  cbn [sim set_sim set_Vs set_n set_Ia n Vs Is Ia cfg].
  assert (En : nth k nn 0 = n').
  { unfold nn. rewrite (nth_map2 _ _ _ k 0 false 0) by list_length.
    rewrite (nth_map_lt _ _ _ 0) by lia. reflexivity. }
  assert (Ei : nth k ias 0 = ia).
  { unfold ias. rewrite (nth_map2 _ _ _ k 0 0 0) by lia.
    rewrite En. reflexivity. }
  split; [exact En|]. split; [exact Ei|].
  rewrite <- HV at 1.
  rewrite nth_assign_idx_seq by list_length.
  rewrite (nth_map2 _ _ _ k 0 0 0) by list_length.
  rewrite (nth_map_lt _ _ _ 0%nat) by list_length.
  rewrite seq_nth by exact Hk. cbn [Nat.add].
  rewrite (nth_map_lt _ _ _ 0) by list_length.
  rewrite (nth_map_lt _ _ _ 0) by list_length.
  rewrite (nth_map2 _ _ _ k 0 0 0) by list_length.
  rewrite (nth_map_lt _ _ _ 0) by list_length.
  rewrite (nth_map_lt _ _ _ 0) by list_length.
  rewrite (nth_map2 _ _ _ k 0 0 0) by list_length.
  rewrite Ei. reflexivity.
Qed.

(** X10: the integration of an SFA step first updates the open fraction [n]
    of every neuron, then sets the adaptation current
    [Ia = gk * n * (V - Vk)] from the potential before the step, and makes
    one forward-Euler step [V + dt * (Vr - V + (I - Ia) * R) / tau] for
    every neuron. *)
Theorem sfa_euler_step (net n3 : Network) (I : list (list R)) (input_type : bool)
    (i k : nat) (t_cur : R) (I_cur : list R) :
  model_type (cfg net) = "SFA"%string ->
  model (cfg net) = Some fn_SFA ->
  length (Vs (sim net)) = neuron_num (cfg net) ->
  length (spikes_t (sim net)) = neuron_num (cfg net) ->
  length (n (sim net)) = neuron_num (cfg net) ->
  length (Is (sim net)) = neuron_num (cfg net) ->
  (k < neuron_num (cfg net))%nat ->
  integrate_part input_type I i t_cur net = (n3, inr I_cur) ->
  let c := cfg net in
  let v := nth k (Vs (sim net)) 0 in
  let n' := K_update c (nth k (n (sim net)) 0)
                     (K_gate t_cur (nth k (spikes_t (sim net)) 0)) in
  let ia := gk c * n' * (v - Vk c) in
  nth k (n (sim n3)) 0 = n' /\
  nth k (Ia (sim n3)) 0 = ia /\
  nth k (Vs (sim n3)) 0 =
    v + dt c * ((Vr c - v + (nth k (Is (sim net)) 0 - ia) * Res c) / tau c).
Proof. exact (sfa_integrate_values net n3 I input_type i k t_cur I_cur). Qed.

(** * Runs, step after step *)

Lemma run_loop_app (input_type : bool) (I : list (list R)) (a b : list (nat * R))
    (net : Network) :
  run_loop input_type I (a ++ b) net =
  match run_loop input_type I a net with
  | Done n1 => run_loop input_type I b n1
  | Raised e n1 => Raised e n1
  end.
Proof.
  revert net. induction a as [|[i tc] a IH]; intro net; [reflexivity|].
  cbn [app run_loop]. destruct (run_step input_type I i tc net); [apply IH | reflexivity].
Qed.

Lemma firstn_snoc {X : Type} (l : list X) (j : nat) (d : X) :
  (j < length l)%nat -> firstn (S j) l = firstn j l ++ [nth j l d].
Proof.
  revert j. induction l as [|x l IH]; intros j Hj; [simpl in Hj; lia|].
  destruct j as [|j]; [reflexivity|].
  cbn [firstn app nth]. f_equal. apply IH. simpl in Hj. lia.
Qed.

Lemma run_prefix_snoc (net : Network) (I : list (list R)) (input_type : bool) (j : nat)
    (net' : Network) :
  (j < length I)%nat ->
  run_loop input_type I (firstn (S j) (run_times (cfg net) (length I)))
           (run_prepare net I) = Done net' ->
  exists nj,
    run_loop input_type I (firstn j (run_times (cfg net) (length I)))
             (run_prepare net I) = Done nj /\
    run_step input_type I (S j) (INR (S j) * dt (cfg net)) nj = Done net'.
Proof.
  intros Hj H.
  rewrite (firstn_snoc _ j (0%nat, 0)) in H by (rewrite run_times_length; exact Hj).
  rewrite nth_run_times in H by exact Hj.
  rewrite run_loop_app in H.
  destruct (run_loop input_type I (firstn j _) _) as [nj|e nj]; [|discriminate].
  exists nj. split; [reflexivity|].
  cbn [run_loop] in H.
  destruct (run_step input_type I (S j) _ nj); [|discriminate].
  exact H.
Qed.

(** Induction over the completed steps of a run. *)
Lemma run_prefix_ind (P : nat -> Network -> Prop) (net : Network) (I : list (list R))
    (input_type : bool) :
  P 0%nat (run_prepare net I) ->
  (forall j nj net',
     (j < length I)%nat ->
     run_loop input_type I (firstn j (run_times (cfg net) (length I)))
              (run_prepare net I) = Done nj ->
     P j nj ->
     run_step input_type I (S j) (INR (S j) * dt (cfg net)) nj = Done net' ->
     P (S j) net') ->
  forall j nj,
    (j <= length I)%nat ->
    run_loop input_type I (firstn j (run_times (cfg net) (length I)))
             (run_prepare net I) = Done nj ->
    P j nj.
Proof.
  intros H0 HS. induction j as [|j IH]; intros nj Hj H.
  - cbn in H. injection H as <-. exact H0.
  - destruct (run_prefix_snoc net I input_type j nj Hj H) as (n0 & Hp & Hs).
    apply (HS j n0 nj Hj Hp); [|exact Hs]. apply IH; [lia | exact Hp].
Qed.

Lemma run_step_split (input_type : bool) (I : list (list R)) (i : nat) (t_cur : R)
    (net net' : Network) :
  run_step input_type I i t_cur net = Done net' ->
  exists n3 I_cur,
    integrate_part input_type I i t_cur net = (n3, inr I_cur) /\
    after_integrate i t_cur I_cur n3 = Done net'.
Proof.
  unfold run_step.
  destruct (integrate_part input_type I i t_cur net) as [n3 [e|I_cur]]; [discriminate|].
  intro H. exists n3, I_cur. split; [reflexivity | exact H].
Qed.


Lemma potentials_step_cases (input_type : bool) (I : list (list R)) (i : nat)
    (t_cur : R) (net net' : Network) (k : nat) :
  run_step input_type I i t_cur net = Done net' ->
  (k < length (Vs (sim net')))%nat ->
  (nth k (spikes (sim net')) false = true /\
   nth k (Vs (sim net')) 0 = Vreset (cfg net)) \/
  (nth k (spikes (sim net')) false = false /\
   nth k (Vs (sim net')) 0 <= Vth (cfg net)).
Proof.
  intros Hstep Hk.
  destruct (run_step_split _ _ _ _ _ _ Hstep) as (n3 & I_cur & Hint & Haft).
  apply integrate_part_frame in Hint. destruct Hint as (C1 & _).
  apply after_integrate_frame in Haft.
  destruct Haft as (_ & _ & _ & _ & _ & _ & Hsp & _ & HV & _).
  rewrite C1 in Hsp, HV.
  assert (Hk3 : (k < length (Vs (sim n3)))%nat).
  { rewrite HV, !assign_mask_length, Hsp, length_map in Hk. lia. }
  assert (E : nth k (Vs (sim net')) 0 =
              if nth k (spikes (sim net')) false then Vreset (cfg net)
              else nth k (Vs (sim n3)) 0).
  { rewrite HV at 1.
    rewrite nth_assign_mask
      by (rewrite ?assign_mask_length, Hsp, ?length_map; lia).
    destruct (nth k (spikes (sim net')) false) eqn:Eb; [reflexivity|].
    rewrite nth_assign_mask
      by first [exact Hk3 | rewrite Hsp, length_map; exact Hk3].
    rewrite Eb. reflexivity. }
  assert (Es : nth k (spikes (sim net')) false =
               Rgtb (nth k (Vs (sim n3)) 0) (Vth (cfg net))).
  { rewrite Hsp. rewrite (nth_map_lt _ _ _ 0) by exact Hk3. reflexivity. }
  rewrite E. destruct (nth k (spikes (sim net')) false) eqn:Eb.
  - left. split; reflexivity.
  - right. split; [reflexivity|].
    symmetry in Es. unfold Rgtb in Es.
    destruct (Rgt_dec (nth k (Vs (sim n3)) 0) (Vth (cfg net))); [discriminate | lra].
Qed.

(** X11: at the end of every completed step, whatever the model, a neuron
    either spiked in this step and sits at the reset potential, or did not
    spike and has a potential of at most the threshold; so no potential is
    above the threshold between steps when the reset potential is not. *)
Theorem potentials_after_step (input_type : bool) (I : list (list R)) (i : nat)
    (t_cur : R) (net net' : Network) (k : nat) :
  run_step input_type I i t_cur net = Done net' ->
  (k < length (Vs (sim net')))%nat ->
  ((nth k (spikes (sim net')) false = true /\
    nth k (Vs (sim net')) 0 = Vreset (cfg net)) \/
   (nth k (spikes (sim net')) false = false /\
    nth k (Vs (sim net')) 0 <= Vth (cfg net))) /\
  (Vreset (cfg net) <= Vth (cfg net) -> nth k (Vs (sim net')) 0 <= Vth (cfg net)).
Proof.
  intros Hstep Hk.
  pose proof (potentials_step_cases _ _ _ _ _ _ _ Hstep Hk) as D.
  split; [exact D|].
  intro Hr. destruct D as [[_ ->]|[_ H]]; [exact Hr | exact H].
Qed.

Lemma run_prefix_shaped (net : Network) (I : list (list R)) (input_type : bool)
    (j : nat) (nj : Network) :
  run_loop input_type I (firstn j (run_times (cfg net) (length I)))
           (run_prepare net I) = Done nj ->
  shaped_run (length I) nj /\ cfg nj = cfg net.
Proof.
  intro H.
  destruct (run_loop_shaped (length I) _ _ _ _ _ (shaped_run_prepare net I) H)
    as (Hs & Hc & _).
  rewrite cfg_run_prepare in Hc. split; assumption.
Qed.


Lemma t_run_prepare (net : Network) (I : list (list R)) : t (run_prepare net I) = t net.
Proof. unfold run_prepare. destruct (keep_data _); reflexivity. Qed.

Lemma run_step_clock (input_type : bool) (I : list (list R)) (i : nat) (t_cur : R)
    (net net' : Network) :
  run_step input_type I i t_cur net = Done net' -> t net' = t_cur.
Proof.
  intro Hstep.
  destruct (run_step_split _ _ _ _ _ _ Hstep) as (n3 & I_cur & Hint & Haft).
  apply integrate_part_frame in Hint. destruct Hint as (_ & _ & _ & C4 & _).
  apply after_integrate_frame in Haft. destruct Haft as (_ & _ & _ & D4 & _).
  congruence.
Qed.

Lemma run_prefix_clock (net : Network) (I : list (list R)) (input_type : bool)
    (j : nat) (nj : Network) :
  (j <= length I)%nat ->
  run_loop input_type I (firstn j (run_times (cfg net) (length I)))
           (run_prepare net I) = Done nj ->
  (j = 0%nat -> t nj = t net) /\ ((1 <= j)%nat -> t nj = INR j * dt (cfg net)).
Proof.
  revert j nj.
  apply (run_prefix_ind
    (fun j nj => (j = 0%nat -> t nj = t net) /\
                 ((1 <= j)%nat -> t nj = INR j * dt (cfg net)))).
  - split; [intros _; apply t_run_prepare | lia].
  - intros j nj net' _ _ _ Hstep. split; [discriminate|].
    intros _. exact (run_step_clock _ _ _ _ _ _ Hstep).
Qed.

(** X13: a run that completes leaves the clock [t] at [T * dt] for an array
    of [T >= 1] rows; for an empty array no step runs, the call only resets
    the state, and [t] keeps the value it had before the call. *)
Theorem run_model_clock (net nT : Network) (I : list (list R)) (input_type : bool) :
  run_model net I input_type = Done nT ->
  (I = [] -> nT = run_prepare net [] /\ t nT = t net) /\
  (I <> [] -> t nT = INR (length I) * dt (cfg net)).
Proof.
  intro Hrun. split.
  - intros ->. cbn in Hrun. injection Hrun as <-.
    split; [reflexivity | apply t_run_prepare].
  - intro Hne. unfold run_model in Hrun.
    rewrite <- (firstn_all (run_times (cfg net) (length I))) in Hrun.
    rewrite run_times_length in Hrun.
    apply (run_prefix_clock net I input_type (length I) nT (Nat.le_refl _) Hrun).
    destruct I; [contradiction | simpl; lia].
Qed.

(** * The open fraction of the SFA model stays a fraction *)

Lemma K_update_bounds (c : Config) (x : R) (g : bool) :
  0 < dt c -> 0 < tauN c -> 0 <= alpha c ->
  dt c * (1 / tauN c + alpha c) <= 1 ->
  0 <= x <= 1 -> 0 <= K_update c x g <= 1.
Proof.
  intros Hdt Htau Ha Hs Hx. unfold K_update.
  set (u := / tauN c).
  assert (Hu : 0 < u) by (apply Rinv_0_lt_compat; exact Htau).
  replace (x / tauN c) with (x * u) by reflexivity.
  replace (1 / tauN c) with u in Hs by (unfold u, Rdiv; ring).
  assert (H1 : 0 <= dt c * u) by nra.
  assert (H2 : 0 <= dt c * alpha c) by nra.
  destruct g; unfold b2R; split; nra.
Qed.

(** X14: in a run of the SFA model with [0 < dt], [0 < tauN], [0 <= alpha]
    and [dt * (1 / tauN + alpha) <= 1], the open fraction [n] of every
    neuron lies between 0 and 1 after every completed step. *)
Theorem sfa_open_fraction_bounds (net : Network) (I : list (list R))
    (input_type : bool) (j : nat) (nj : Network) (k : nat) :
  model (cfg net) = Some fn_SFA ->
  0 < dt (cfg net) -> 0 < tauN (cfg net) -> 0 <= alpha (cfg net) ->
  dt (cfg net) * (1 / tauN (cfg net) + alpha (cfg net)) <= 1 ->
  (j <= length I)%nat ->
  run_loop input_type I (firstn j (run_times (cfg net) (length I)))
           (run_prepare net I) = Done nj ->
  (k < neuron_num (cfg net))%nat ->
  0 <= nth k (n (sim nj)) 0 <= 1.
Proof.
  intros Hm Hdt Htau Ha Hs Hj Hpre Hk. revert k Hk. revert j nj Hj Hpre.
  apply (run_prefix_ind
    (fun j nj => forall k, (k < neuron_num (cfg net))%nat ->
                           0 <= nth k (n (sim nj)) 0 <= 1)).
  - intros k Hk. destruct (sim_run_prepare net I) as (-> & _).
    cbn [reset_history sim n]. unfold zeros. rewrite nth_repeat_lt by exact Hk. lra.
  - intros j nj net' Hj Hpre IH Hstep k Hk.
    destruct (run_prefix_shaped _ _ _ _ _ Hpre) as ([SV St Sn Sh] & Hc).
    rewrite Hc in SV, St, Sn.
    destruct (run_step_split _ _ _ _ _ _ Hstep) as (n3 & I_cur & Hint & Haft).
    pose proof (integrate_part_SFA_n _ _ _ _ _ _ _
                  ltac:(rewrite Hc; exact Hm) Hint) as Hn.
    apply after_integrate_frame in Haft.
    destruct Haft as (_ & _ & _ & _ & _ & D6 & _).
    rewrite D6, Hn, Hc.
    rewrite (nth_map2 _ _ _ k 0 false 0) by (rewrite ?length_map; lia).
    apply K_update_bounds; try assumption. apply IH. exact Hk.
Qed.

(** * A refractory LIF neuron is held at the reset potential *)

Lemma lif_step_refractory (input_type : bool) (I : list (list R)) (i : nat) (t_cur : R)
    (net net' : Network) (k : nat) :
  model_type (cfg net) = "LIF"%string ->
  length (spikes_t (sim net)) = length (Vs (sim net)) ->
  length (type_array net) = length (Vs (sim net)) ->
  (k < length (Vs (sim net)))%nat ->
  run_step input_type I i t_cur net = Done net' ->
  let s := nth k (spikes_t (sim net)) 0 in
  let r := nth (nth k (type_array net) 0%nat) (ref (cfg net)) 0 in
  let b := Rgtb (nth k (Vs (sim net)) 0) (Vth (cfg net)) in
  s <> -1 -> t_cur - s <= r ->
  nth k (spikes (sim net')) false = b /\
  nth k (Vs (sim net')) 0 = (if b then Vreset (cfg net) else nth k (Vs (sim net)) 0) /\
  nth k (spikes_t (sim net')) 0 = (if b then t_cur else s).
Proof.
  intros Hmt Hls Hlt Hk Hstep s r b Hs Hr.
  destruct (run_step_split _ _ _ _ _ _ Hstep) as (n3 & I_cur & Hint & Haft).
  apply integrate_part_frame in Hint.
  destruct Hint as (C1 & _ & _ & _ & _ & C6 & _ & C8 & _ & _ & _ & (an & Han & Hfr)).
  destruct (in_range (ref (cfg (set_t net t_cur))) (type_array (set_t net t_cur)))
    eqn:Hrng;
    [|rewrite (stage_active_LIF_error (set_t net t_cur) Hmt Hrng) in Han; discriminate].
  rewrite (stage_active_LIF (set_t net t_cur) Hmt Hrng) in Han. cbn [snd] in Han.
  injection Han as <-.
  assert (Hout : ~ In k (nonzero (refractory_mask_values (set_t net t_cur)))).
  { rewrite In_nonzero, nth_refractory_mask by (cbn; lia). cbn [t set_t sim cfg type_array].
    fold s r. rewrite Rgtb_false by lra. rewrite Reqb_false by exact Hs.
    intros [_ H]. discriminate. }
  pose proof (Hfr k Hout) as HV3.
  apply after_integrate_frame in Haft.
  destruct Haft as (_ & _ & _ & _ & _ & _ & Hsp & Hst & HV & _).
  rewrite C1 in Hsp, HV.
  assert (Eb : nth k (spikes (sim net')) false = b).
  { rewrite Hsp. rewrite (nth_map_lt _ _ _ 0) by lia. rewrite HV3. reflexivity. }
  assert (Lsp : length (spikes (sim net')) = length (Vs (sim net)))
    by (rewrite Hsp, length_map; exact C8).
  split; [exact Eb|]. split.
  - rewrite HV.
    rewrite nth_assign_mask by (rewrite ?assign_mask_length; lia).
    rewrite Eb. destruct b; [reflexivity|].
    rewrite nth_assign_mask by lia. rewrite Eb. exact HV3.
  - rewrite Hst, C6. rewrite nth_assign_mask by lia. rewrite Eb. reflexivity.
Qed.

Lemma refractory_hold_invariant (net : Network) (I : list (list R)) (input_type : bool)
    (j : nat) (nj : Network) :
  model_type (cfg net) = "LIF"%string ->
  0 < dt (cfg net) ->
  length (type_array net) = neuron_num (cfg net) ->
  (j <= length I)%nat ->
  run_loop input_type I (firstn j (run_times (cfg net) (length I)))
           (run_prepare net I) = Done nj ->
  forall k, (k < neuron_num (cfg net))%nat ->
    nth k (spikes_t (sim nj)) 0 <> -1 ->
    t nj - nth k (spikes_t (sim nj)) 0 <=
      nth (nth k (type_array nj) 0%nat) (ref (cfg net)) 0 ->
    nth k (Vs (sim nj)) 0 = Vreset (cfg net).
Proof.
  intros Hmt Hdt Hty. revert j nj.
  apply (run_prefix_ind
    (fun j nj => forall k, (k < neuron_num (cfg net))%nat ->
       nth k (spikes_t (sim nj)) 0 <> -1 ->
       t nj - nth k (spikes_t (sim nj)) 0 <=
         nth (nth k (type_array nj) 0%nat) (ref (cfg net)) 0 ->
       nth k (Vs (sim nj)) 0 = Vreset (cfg net))).
  - intros k Hk Hs. exfalso. apply Hs.
    destruct (sim_run_prepare net I) as (-> & _).
    cbn [reset_history sim spikes_t]. apply nth_repeat_lt. exact Hk.
  - intros j nj net' Hj Hpre IH Hstep k Hk Hs Hr.
    destruct (run_prefix_shaped _ _ _ _ _ Hpre) as ([SV St Sn Sh] & Hc).
    rewrite Hc in SV, St.
    pose proof (run_loop_type_array _ _ _ _ _ Hpre) as Hta.
    destruct (sim_run_prepare net I) as (_ & _ & _ & Hta0). rewrite Hta0 in Hta.
    assert (Htl : length (type_array nj) = neuron_num (cfg net))
      by (rewrite Hta, assign_idx_scalar_length; exact Hty).
    pose proof (run_step_type_array _ _ _ _ _ _ Hstep) as Hta'.
    pose proof (run_step_clock _ _ _ _ _ _ Hstep) as Hclock.
    rewrite Hta', Hclock in Hr.
    destruct (potentials_step_cases input_type I (S j) _ nj net' k Hstep) as [[Hb HV]|[Hb HV]].
    { destruct (run_step_shaped _ _ _ _ _ _ _
                  (proj1 (run_prefix_shaped _ _ _ _ _ Hpre)) Hstep) as [SV' _ _ _].
      destruct (run_step_frame _ _ _ _ _ _ Hstep) as (Hc' & _).
      rewrite SV', Hc', Hc. exact Hk. }
    + rewrite HV, Hc. reflexivity.
    + (* no spike in this step: the last-spike time is the one before *)
      assert (Hs0 : nth k (spikes_t (sim nj)) 0 <> -1 /\
                    nth k (spikes_t (sim net')) 0 = nth k (spikes_t (sim nj)) 0).
      { destruct (run_step_split _ _ _ _ _ _ Hstep) as (n3 & I_cur & Hint & Haft).
        apply integrate_part_frame in Hint.
        destruct Hint as (_ & _ & _ & _ & _ & C6 & _ & C8 & _).
        apply after_integrate_frame in Haft.
        destruct Haft as (_ & _ & _ & _ & _ & _ & Hsp & Hst & _).
        assert (E : nth k (spikes_t (sim net')) 0 = nth k (spikes_t (sim nj)) 0).
        { rewrite Hst, C6. rewrite nth_assign_mask by (rewrite ?Hsp, ?length_map; lia).
          rewrite Hb. reflexivity. }
        split; [rewrite <- E; exact Hs | exact E]. }
      destruct Hs0 as (Hs0 & Es). rewrite Es in Hr.
      destruct (run_prefix_clock net I input_type j nj (Nat.lt_le_incl _ _ Hj) Hpre)
        as (_ & Hcl).
      destruct (run_spike_times net I input_type j k nj (Nat.lt_le_incl _ _ Hj) Hpre Hk)
        as [E | (j' & Hj' & E)]; [contradiction|].
      assert (Hj1 : (1 <= j)%nat) by lia.
      assert (Hle : t nj <= INR (S j) * dt (cfg net)).
      { rewrite (Hcl Hj1). apply Rmult_le_compat_r; [lra|]. apply le_INR. lia. }
      pose proof (lif_step_refractory input_type I (S j) (INR (S j) * dt (cfg net))
                    nj net' k) as L.
      cbv zeta in L. rewrite Hc in L.
      destruct (L Hmt ltac:(lia) ltac:(lia) ltac:(lia) Hstep Hs0 Hr) as (B1 & B2 & B3).
      rewrite Hb in B1. rewrite <- B1 in B2. rewrite B2.
      apply IH; [exact Hk | exact Hs0 | lra].
Qed.

(** X15: in a LIF run, a neuron that has spiked and whose refractory period
    still covers the current time sits exactly at the reset potential; if
    the period also covers the next step and the reset potential is not
    above the threshold, the neuron does not spike in that step and keeps
    its potential and its last-spike time. *)
Theorem lif_refractory_hold (net : Network) (I : list (list R)) (input_type : bool)
    (j : nat) (nj : Network) (k : nat) :
  model_type (cfg net) = "LIF"%string ->
  0 < dt (cfg net) ->
  length (type_array net) = neuron_num (cfg net) ->
  (j <= length I)%nat ->
  run_loop input_type I (firstn j (run_times (cfg net) (length I)))
           (run_prepare net I) = Done nj ->
  (k < neuron_num (cfg net))%nat ->
  let s := nth k (spikes_t (sim nj)) 0 in
  let r := nth (nth k (type_array nj) 0%nat) (ref (cfg net)) 0 in
  s <> -1 ->
  (t nj - s <= r -> nth k (Vs (sim nj)) 0 = Vreset (cfg net)) /\
  (forall net',
     run_step input_type I (S j) (INR (S j) * dt (cfg net)) nj = Done net' ->
     INR (S j) * dt (cfg net) - s <= r ->
     Vreset (cfg net) <= Vth (cfg net) ->
     nth k (spikes (sim net')) false = false /\
     nth k (Vs (sim net')) 0 = Vreset (cfg net) /\
     nth k (spikes_t (sim net')) 0 = s).
Proof.
  intros Hmt Hdt Hty Hj Hpre Hk s r Hs.
  pose proof (refractory_hold_invariant net I input_type j nj Hmt Hdt Hty Hj Hpre k Hk Hs)
    as Hold.
  split; [exact Hold|].
  intros net' Hstep Hr Hreset.
  destruct (run_prefix_shaped _ _ _ _ _ Hpre) as ([SV St Sn Sh] & Hc).
  rewrite Hc in SV, St.
  pose proof (run_loop_type_array _ _ _ _ _ Hpre) as Hta.
  destruct (sim_run_prepare net I) as (_ & _ & _ & Hta0). rewrite Hta0 in Hta.
  assert (Htl : length (type_array nj) = neuron_num (cfg net))
    by (rewrite Hta, assign_idx_scalar_length; exact Hty).
  destruct (run_prefix_clock net I input_type j nj Hj Hpre) as (_ & Hcl).
  destruct (run_spike_times net I input_type j k nj Hj Hpre Hk)
    as [E | (j' & Hj' & E)]; [contradiction|].
  assert (Hj1 : (1 <= j)%nat) by lia.
  assert (Hle : t nj <= INR (S j) * dt (cfg net)).
  { rewrite (Hcl Hj1). apply Rmult_le_compat_r; [lra|]. apply le_INR. lia. }
  assert (HV : nth k (Vs (sim nj)) 0 = Vreset (cfg net)) by (apply Hold; fold s r; lra).
  pose proof (lif_step_refractory input_type I (S j) (INR (S j) * dt (cfg net))
                nj net' k) as L.
  cbv zeta in L. rewrite Hc in L.
  destruct (L Hmt ltac:(lia) ltac:(lia) ltac:(lia) Hstep Hs Hr) as (B1 & B2 & B3).
  rewrite HV in B1, B2, B3.
  rewrite Rgtb_false in B1, B2, B3 by lra.
  repeat split; assumption.
Qed.

(** * What [generate_connections] asks of its tables and of the draws *)

Lemma list_sum_cons (x : nat) (l : list nat) : list_sum (x :: l) = (x + list_sum l)%nat.
Proof. reflexivity. Qed.

Lemma for_each_count {S : Type} (m : S -> nat) (f : nat -> nat) (l : list nat)
    (body : nat -> S -> exn + S) :
  (forall k s s', In k l -> body k s = inr s' -> m s' = (m s + f k)%nat) ->
  forall s s', for_each l body s = inr s' -> m s' = (m s + list_sum (map f l))%nat.
Proof.
  induction l as [|k l IH]; intros Hb s s' H.
  - cbn in H. injection H as <-. cbn. lia.
  - cbn [for_each] in H. destruct (body k s) as [e|s1] eqn:Ek; [discriminate|].
    rewrite (IH (fun k0 s0 s0' Hin => Hb k0 s0 s0' (or_intror Hin)) s1 s' H).
    rewrite (Hb k s s1 (or_introl eq_refl) Ek).
    cbn [map]. rewrite list_sum_cons. lia.
Qed.

Lemma list_sum_const (c : nat) (l : list nat) :
  list_sum (map (fun _ => c) l) = (c * length l)%nat.
Proof.
  induction l as [|x l IH]; [cbn; lia|].
  cbn [map length]. rewrite list_sum_cons, IH. lia.
Qed.

Lemma list_sum_off_diagonal (i a m : nat) :
  list_sum (map (fun j => if Nat.eqb i j then 0%nat else 1%nat) (seq a m)) =
  (m - (if Nat.leb a i && Nat.ltb i (a + m) then 1 else 0))%nat.
Proof.
  revert a. induction m as [|m IH]; intro a.
  - cbn. reflexivity.
  - cbn [seq map]. rewrite list_sum_cons, IH.
    destruct (Nat.eqb_spec i a) as [->|Hne].
    + rewrite Nat.leb_refl.
      replace (Nat.leb (S a) a) with false by (symmetry; apply Nat.leb_gt; lia).
      replace (Nat.ltb a (a + S m)) with true by (symmetry; apply Nat.ltb_lt; lia).
      cbn. lia.
    + destruct (Nat.leb_spec a i), (Nat.leb_spec (S a) i),
               (Nat.ltb_spec i (a + S m)), (Nat.ltb_spec i (S a + m)); cbn; lia.
Qed.

Lemma input_body_draws (c : Config) (rand : nat -> R) (i j : nat) (g g' : GenState) :
  input_body c rand i j g = inr g' -> g_draws g' = (g_draws g + 1)%nat.
Proof.
  unfold input_body. destruct (get_pos (dim c) j) as [e|p]; [discriminate|].
  destruct (Rltb _ _).
  - destruct (dict_get _ _); [discriminate|]. intro H; injection H as <-. cbn. lia.
  - intro H; injection H as <-. cbn. lia.
Qed.

Lemma pair_body_draws (c : Config) (rand : nat -> R) (i j : nat) (g g' : GenState) :
  pair_body c rand i j g = inr g' ->
  g_draws g' = (g_draws g + (if Nat.eqb i j then 0 else 1))%nat.
Proof.
  unfold pair_body. destruct (Nat.eqb i j).
  - intro H; injection H as <-. lia.
  - destruct (connect_pr_of c i j) as [e|pr]; [discriminate|].
    destruct (Rltb _ _).
    + destruct (dict_get _ _); [discriminate|]. intro H; injection H as <-. cbn. lia.
    + intro H; injection H as <-. cbn. lia.
Qed.

(** X16: a call of [generate_connections] that returns has read exactly
    [input_num * (neuron_num // clusters) + neuron_num * (neuron_num - 1)]
    draws from the random source: one for each candidate input edge and one
    for each ordered pair of distinct neurons, whether or not the edge is
    made and also where the probability is zero. *)
Theorem generate_connections_draws (c : Config) (rand : nat -> R) (g g' : GenState) :
  generate_connections c rand g = inr g' ->
  g_draws g' = (g_draws g + input_num c * (neuron_num c / clusters c) +
                neuron_num c * (neuron_num c - 1))%nat.
Proof.
  unfold generate_connections.
  destruct (for_each (seq 0 (input_num c)) _ g) as [e|g1] eqn:E1; [discriminate|].
  intro E2.
  apply (for_each_count g_draws (fun _ => (neuron_num c / clusters c)%nat)) in E1.
  - apply (for_each_count g_draws (fun _ => (neuron_num c - 1)%nat)) in E2.
    + rewrite E2, E1, !list_sum_const, !length_seq. lia.
    + intros i s s' Hin Hb.
      apply (for_each_count g_draws
               (fun j => if Nat.eqb i j then 0%nat else 1%nat)) in Hb.
      * rewrite Hb, list_sum_off_diagonal. apply in_seq in Hin.
        replace (Nat.leb 0 i) with true by reflexivity.
        replace (Nat.ltb i (0 + neuron_num c)) with true
          by (symmetry; apply Nat.ltb_lt; lia).
        reflexivity.
      * intros j s0 s0' _. apply pair_body_draws.
  - intros i s s' _ Hb.
    apply (for_each_count g_draws (fun _ => 1%nat)) in Hb.
    + rewrite Hb, list_sum_const, length_seq. lia.
    + intros j s0 s0' _. apply input_body_draws.
Qed.

Lemma input_body_connections (c : Config) (rand : nat -> R) (i j : nat) (g g' : GenState) :
  input_body c rand i j g = inr g' -> g_connections g' = g_connections g.
Proof.
  unfold input_body. destruct (get_pos (dim c) j) as [e|p]; [discriminate|].
  destruct (Rltb _ _).
  - destruct (dict_get _ _); [discriminate|]. intro H; injection H as <-. reflexivity.
  - intro H; injection H as <-. reflexivity.
Qed.

Lemma pair_body_cell (c : Config) (rand : nat -> R) (a b : nat) (g g' : GenState)
    (i j : nat) :
  pair_body c rand a b g = inr g' -> i <> a \/ j <> b ->
  nth j (nth i (g_connections g') []) 0 = nth j (nth i (g_connections g) []) 0.
Proof.
  unfold pair_body. intros H Hne. destruct (Nat.eqb a b).
  - injection H as <-. reflexivity.
  - destruct (connect_pr_of c a b) as [e|pr]; [discriminate|].
    destruct (Rltb _ _).
    + destruct (dict_get _ _); [discriminate|]. injection H as <-.
      cbn [g_connections]. apply nth_set_cell_other. exact Hne.
    + injection H as <-. reflexivity.
Qed.

Lemma pair_body_cross (c : Config) (rand : nat -> R) (i j : nat) (g g' : GenState) :
  (1 < clusters c)%nat -> (i < j)%nat -> cluster_of c i <> cluster_of c j ->
  0 <= rand (g_draws g) ->
  pair_body c rand i j g = inr g' -> g_connections g' = g_connections g.
Proof.
  intros Hc Hij Hcl Hd. unfold pair_body.
  replace (Nat.eqb i j) with false by (symmetry; apply Nat.eqb_neq; lia).
  unfold connect_pr_of.
  replace (Z.eqb (cluster_of c i) (cluster_of c j)) with false
    by (symmetry; apply Z.eqb_neq; exact Hcl).
  replace (Nat.ltb 1 (clusters c)) with true by (symmetry; apply Nat.ltb_lt; exact Hc).
  replace (Nat.ltb j i) with false by (symmetry; apply Nat.ltb_ge; lia).
  cbn [negb andb].
  unfold Rltb. destruct (Rlt_dec (rand (g_draws g)) 0) as [H|H]; [lra|].
  intro E; injection E as <-. reflexivity.
Qed.

Lemma generate_connections_cross (c : Config) (rand : nat -> R) (g g' : GenState)
    (i j : nat) :
  (forall m, 0 <= rand m) ->
  (1 < clusters c)%nat -> (i < j)%nat -> cluster_of c i <> cluster_of c j ->
  generate_connections c rand g = inr g' ->
  nth j (nth i (g_connections g) []) 0 = 0 ->
  nth j (nth i (g_connections g') []) 0 = 0.
Proof.
  intros Hd Hc Hij Hcl. unfold generate_connections.
  destruct (for_each (seq 0 (input_num c)) _ g) as [e|g1] eqn:E1; [discriminate|].
  intros E2 H0.
  set (P := fun s : GenState => nth j (nth i (g_connections s) []) 0 = 0).
  assert (P1 : P g1).
  { apply (for_each_invariant P _ _) with (s := g) (s' := g1) in E1; [exact E1 | | exact H0].
    intros a s s' _ Hs Hb.
    apply (for_each_invariant P _ _) with (s := s) (s' := s') in Hb; [exact Hb | | exact Hs].
    intros b s0 s0' _ Hs0 Hb0. unfold P.
    rewrite (input_body_connections _ _ _ _ _ _ Hb0). exact Hs0. }
  apply (for_each_invariant P _ _) with (s := g1) (s' := g') in E2; [exact E2 | | exact P1].
  intros a s s' _ Hs Hb.
  apply (for_each_invariant P _ _) with (s := s) (s' := s') in Hb; [exact Hb | | exact Hs].
  intros b s0 s0' _ Hs0 Hb0. unfold P.
  destruct (Nat.eq_dec i a) as [->|Ha].
  - destruct (Nat.eq_dec j b) as [->|Hb'].
    + rewrite (pair_body_cross c rand a b s0 s0' Hc Hij Hcl (Hd _) Hb0). exact Hs0.
    + rewrite (pair_body_cell _ _ _ _ _ _ a j Hb0) by (right; exact Hb'). exact Hs0.
  - rewrite (pair_body_cell _ _ _ _ _ _ i j Hb0) by (left; exact Ha). exact Hs0.
Qed.

Lemma init_config_clusters (a : Args.t) : clusters (init_config a) = Args.clusters a.
Proof. unfold init_config. destruct (Args.dim a) as [[d0 d1] d2]. reflexivity. Qed.

(** X17: with more than one cluster and draws that are never negative (as
    those of [np.random.rand]), the constructor leaves [connections[i][j]]
    at zero for every [i < j] lying in different clusters: an edge between
    clusters is only ever stored in a row below the diagonal. *)
Theorem cross_cluster_edges (a : Args.t) (rand : nat -> R) (net : Network) (i j : nat) :
  init a rand = inr net ->
  (forall m, 0 <= rand m) ->
  (1 < Args.clusters a)%nat ->
  (i < j)%nat ->
  cluster_of (cfg net) i <> cluster_of (cfg net) j ->
  nth j (nth i (connections (topo net)) []) 0 = 0.
Proof.
  intros Hinit Hd Hc Hij Hcl.
  rewrite (init_cfg _ _ _ Hinit) in Hcl.
  destruct (init_gen_inv a rand net Hinit) as (g & Hg & _ & -> & _).
  apply (generate_connections_cross _ _ _ _ i j Hd) in Hg; try assumption.
  - rewrite init_config_clusters. exact Hc.
  - cbn [g_connections]. apply nth_zeros2.
Qed.

Lemma dict_get_error (d : table) (k : bool * bool) (e : exn) :
  dict_get d k = inl e -> e = KeyError.
Proof.
  induction d as [|[k' v] d IH]; cbn [dict_get].
  - intro H; injection H as <-. reflexivity.
  - destruct (key_eqb k' k); [discriminate | exact IH].
Qed.

Lemma for_each_error {S : Type} (l : list nat) (body : nat -> S -> exn + S) (s : S)
    (e : exn) :
  for_each l body s = inl e -> exists k s1, In k l /\ body k s1 = inl e.
Proof.
  revert s. induction l as [|k l IH]; intros s H; [discriminate|].
  cbn [for_each] in H. destruct (body k s) as [e0|s1] eqn:Ek.
  - injection H as <-. exists k, s. split; [left; reflexivity | exact Ek].
  - destruct (IH s1 H) as (k' & s' & Hin & Hb). exists k', s'.
    split; [right; exact Hin | exact Hb].
Qed.

Lemma for_each_visits {S : Type} (l : list nat) (body : nat -> S -> exn + S) (s s' : S)
    (k : nat) :
  for_each l body s = inr s' -> In k l -> exists s1 s2, body k s1 = inr s2.
Proof.
  revert s. induction l as [|a l IH]; intros s H Hin; [destruct Hin|].
  cbn [for_each] in H. destruct (body a s) as [e0|s1] eqn:Ea; [discriminate|].
  destruct Hin as [->|Hin]; [exists s, s1; exact Ea | exact (IH s1 H Hin)].
Qed.

Lemma input_body_error (c : Config) (rand : nat -> R) (i j : nat) (g : GenState) (e : exn) :
  (j < fst (fst (dim c)) * snd (fst (dim c)) * snd (dim c))%nat ->
  input_body c rand i j g = inl e -> e = KeyError.
Proof.
  intros Hj. unfold input_body.
  destruct (get_pos_in_range _ _ Hj) as (p & ->).
  destruct (Rltb _ _); [|discriminate].
  destruct (dict_get _ _) as [e0|x] eqn:E; [|discriminate].
  intro H; injection H as <-. exact (dict_get_error _ _ _ E).
Qed.

Lemma connect_pr_of_error (c : Config) (i j : nat) (e : exn) :
  (i < fst (fst (dim c)) * snd (fst (dim c)) * snd (dim c))%nat ->
  (j < fst (fst (dim c)) * snd (fst (dim c)) * snd (dim c))%nat ->
  connect_pr_of c i j = inl e -> e = KeyError.
Proof.
  intros Hi Hj. unfold connect_pr_of.
  destruct (get_pos_in_range _ _ Hi) as (p & ->).
  destruct (get_pos_in_range _ _ Hj) as (q & ->).
  destruct (_ && _).
  - destruct (Nat.ltb j i); discriminate.
  - destruct (dict_get _ _) as [e0|x] eqn:E; [|discriminate].
    intro H; injection H as <-. exact (dict_get_error _ _ _ E).
Qed.

Lemma pair_body_error (c : Config) (rand : nat -> R) (i j : nat) (g : GenState) (e : exn) :
  (i < fst (fst (dim c)) * snd (fst (dim c)) * snd (dim c))%nat ->
  (j < fst (fst (dim c)) * snd (fst (dim c)) * snd (dim c))%nat ->
  pair_body c rand i j g = inl e -> e = KeyError.
Proof.
  intros Hi Hj. unfold pair_body.
  destruct (Nat.eqb i j); [discriminate|].
  destruct (connect_pr_of c i j) as [e0|pr] eqn:E.
  - intro H; injection H as <-. exact (connect_pr_of_error _ _ _ _ Hi Hj E).
  - destruct (Rltb _ _); [|discriminate].
    destruct (dict_get _ _) as [e0|x] eqn:E'; [|discriminate].
    intro H; injection H as <-. exact (dict_get_error _ _ _ E').
Qed.

Lemma generate_connections_error (c : Config) (rand : nat -> R) (g : GenState) (e : exn) :
  neuron_num c = (fst (fst (dim c)) * snd (fst (dim c)) * snd (dim c))%nat ->
  generate_connections c rand g = inl e -> e = KeyError.
Proof.
  intros HN. unfold generate_connections.
  destruct (for_each (seq 0 (input_num c)) _ g) as [e0|g1] eqn:E1.
  - intro H; injection H as <-.
    destruct (for_each_error _ _ _ _ E1) as (i & s1 & _ & Hb).
    destruct (for_each_error _ _ _ _ Hb) as (j & s2 & Hj & Hb').
    apply in_seq in Hj. apply (input_body_error _ _ _ _ _ _) in Hb'; [exact Hb'|].
    rewrite <- HN.
    assert (neuron_num c / clusters c <= neuron_num c)%nat.
    { destruct (clusters c); [simpl; lia | apply Nat.Div0.div_le_upper_bound; nia]. }
    lia.
  - intro E2.
    destruct (for_each_error _ _ _ _ E2) as (i & s1 & Hi & Hb).
    destruct (for_each_error _ _ _ _ Hb) as (j & s2 & Hj & Hb').
    apply in_seq in Hi, Hj.
    apply (pair_body_error _ _ _ _ _ _) in Hb'; [exact Hb' | lia | lia].
Qed.

Lemma init_generation (a : Args.t) (rand : nat -> R) :
  match init a rand with
  | inl e =>
      generate_connections (init_config a) rand
        (mkGenState (zeros2 (neuron_num (init_config a)) (neuron_num (init_config a)))
                    (zeros2 (neuron_num (init_config a)) (input_num (init_config a))) 0)
      = inl e
  | inr _ =>
      exists g,
        generate_connections (init_config a) rand
          (mkGenState (zeros2 (neuron_num (init_config a)) (neuron_num (init_config a)))
                      (zeros2 (neuron_num (init_config a)) (input_num (init_config a))) 0)
        = inr g
  end.
Proof.
  unfold init. destruct (generate_connections _ _ _) as [e|g]; [reflexivity | eauto].
Qed.

Lemma generate_connections_needs_const (c : Config) (rand : nat -> R) (g g' : GenState)
    (i j : nat) :
  generate_connections c rand g = inr g' ->
  (i < neuron_num c)%nat -> (j < neuron_num c)%nat -> i <> j ->
  (clusters c <= 1)%nat \/ cluster_of c i = cluster_of c j ->
  exists v, dict_get (connect_const c)
                     (negb (isin i (inh_idx c)), negb (isin j (inh_idx c))) = inr v.
Proof.
  intros Hg Hi Hj Hne Hsame. unfold generate_connections in Hg.
  destruct (for_each (seq 0 (input_num c)) _ g) as [e0|g1]; [discriminate|].
  destruct (for_each_visits _ _ _ _ i Hg) as (s1 & s2 & Hb); [apply in_seq; lia|].
  destruct (for_each_visits _ _ _ _ j Hb) as (s3 & s4 & Hb'); [apply in_seq; lia|].
  unfold pair_body in Hb'.
  replace (Nat.eqb i j) with false in Hb' by (symmetry; apply Nat.eqb_neq; exact Hne).
  destruct (connect_pr_of c i j) as [e|pr] eqn:E; [discriminate|].
  unfold connect_pr_of in E.
  assert (Hcond : negb (Z.eqb (cluster_of c i) (cluster_of c j)) &&
                  Nat.ltb 1 (clusters c) = false).
  { destruct Hsame as [H|H].
    - replace (Nat.ltb 1 (clusters c)) with false
        by (symmetry; apply Nat.ltb_ge; exact H).
      apply andb_false_r.
    - rewrite H, Z.eqb_refl. reflexivity. }
  rewrite Hcond in E.
  destruct (get_pos (dim c) i); [discriminate|].
  destruct (get_pos (dim c) j); [discriminate|].
  destruct (dict_get _ _) as [e|v]; [discriminate|]. eauto.
Qed.

Lemma init_config_inh_idx (a : Args.t) : inh_idx (init_config a) = Args.inh_idx a.
Proof. unfold init_config. destruct (Args.dim a) as [[d0 d1] d2]. reflexivity. Qed.

(** X18: given a choice of inhibitory neurons inside the lattice, the
    constructor raises nothing but [KeyError] (a key missing from [V_syn] or
    [connect_const]); when it returns, the table [connect_const] has an
    entry for the pair of types of every two distinct neurons of the same
    cluster, whatever the draws were; so with at least two neurons, at most
    one cluster and an empty [connect_const] the constructor raises
    [KeyError]. *)
Theorem init_errors (a : Args.t) (rand : nat -> R) :
  Forall (fun k => (k < neuron_num (init_config a))%nat) (Args.inh_idx a) ->
  (forall e, init a rand = inl e -> e = KeyError) /\
  (forall net, init a rand = inr net ->
     forall i j,
       (i < neuron_num (init_config a))%nat -> (j < neuron_num (init_config a))%nat ->
       i <> j ->
       (Args.clusters a <= 1)%nat \/
         cluster_of (init_config a) i = cluster_of (init_config a) j ->
       exists v, dict_get (Args.connect_const a)
                   (negb (isin i (Args.inh_idx a)), negb (isin j (Args.inh_idx a)))
                 = inr v) /\
  ((2 <= neuron_num (init_config a))%nat -> (Args.clusters a <= 1)%nat ->
   Args.connect_const a = [] -> init a rand = inl KeyError).
Proof.
  intros _.
  pose proof (init_generation a rand) as Hgen.
  assert (H1 : forall e, init a rand = inl e -> e = KeyError).
  { intros e He. rewrite He in Hgen.
    exact (generate_connections_error _ _ _ _ (init_config_neuron_num a) Hgen). }
  assert (H2 : forall net, init a rand = inr net ->
     forall i j,
       (i < neuron_num (init_config a))%nat -> (j < neuron_num (init_config a))%nat ->
       i <> j ->
       (Args.clusters a <= 1)%nat \/
         cluster_of (init_config a) i = cluster_of (init_config a) j ->
       exists v, dict_get (Args.connect_const a)
                   (negb (isin i (Args.inh_idx a)), negb (isin j (Args.inh_idx a)))
                 = inr v).
  { intros net Hn i j Hi Hj Hne Hsame. rewrite Hn in Hgen. destruct Hgen as (g & Hg).
    destruct (generate_connections_needs_const _ _ _ _ i j Hg Hi Hj Hne) as (v & Hv).
    - rewrite init_config_clusters. exact Hsame.
    - rewrite init_config_inh_idx in Hv.
      rewrite (proj2 (init_config_tables a)) in Hv. eauto. }
  split; [exact H1|]. split; [exact H2|].
  intros HN Hc Hempty.
  destruct (init a rand) as [e|net] eqn:E.
  - rewrite (H1 e eq_refl). reflexivity.
  - destruct (H2 net eq_refl 0%nat 1%nat) as (v & Hv); try lia.
    rewrite Hempty in Hv. discriminate.
Qed.

(** * One run after another *)

Lemma stage_active_untouched (net n1 : Network) (oa : exn + option (list nat)) :
  stage_active net = (n1, oa) ->
  input_t_syn n1 = input_t_syn net /\ active_syn n1 = active_syn net.
Proof.
  unfold stage_active.
  destruct (String.eqb (model_type (cfg net)) "LIF");
    [destruct (refractory_mask net) as [e|mask]|];
    destruct (String.eqb _ "SFA"); cbn [fst snd];
    intro H; injection H as <- _; split; reflexivity.
Qed.

Lemma stage_input_untouched (input_type : bool) (row : list R) (t_cur : R)
    (net n1 : Network) (r : exn + list R) :
  stage_input input_type row t_cur net = (n1, r) ->
  input_t_syn n1 = input_t_syn net /\ active_syn n1 = active_syn net.
Proof.
  unfold stage_input. destruct input_type.
  - destruct (forallb _ _).
    + destruct (call_input_current _); intro H; injection H as <- _; split; reflexivity.
    + intro H; injection H as <- _; split; reflexivity.
  - intro H; injection H as <- _; split; reflexivity.
Qed.

Lemma call_model_untouched (net n1 : Network) (r : exn + list R) :
  call_model net = (n1, r) ->
  input_t_syn n1 = input_t_syn net /\ active_syn n1 = active_syn net.
Proof.
  unfold call_model. destruct (model (cfg net)) as [[|]|].
  - intro H; injection H as <- _; split; reflexivity.
  - unfold SFA, K_frac. intro H; injection H as <- _; split; reflexivity.
  - intro H; injection H as <- _; split; reflexivity.
Qed.

Lemma stage_integrate_untouched (an : list nat) (net n1 : Network) :
  stage_integrate an net = Done n1 ->
  input_t_syn n1 = input_t_syn net /\ active_syn n1 = active_syn net.
Proof.
  unfold stage_integrate. destruct (in_range _ _); [|discriminate].
  destruct (call_model net) as [n0 d] eqn:Hc. apply call_model_untouched in Hc.
  destruct Hc as (<- & <-).
  destruct d as [e|deriv]; [discriminate|].
  destruct (np_bin _ _ _) as [e|rhs]; [discriminate|].
  destruct (Nat.eqb _ _).
  - intro H; injection H as <-; split; reflexivity.
  - destruct rhs as [|x [|y rhs]]; try discriminate.
    intro H; injection H as <-; split; reflexivity.
Qed.

Lemma after_integrate_untouched (i : nat) (t_cur : R) (I_cur : list R)
    (net net' : Network) :
  after_integrate i t_cur I_cur net = Done net' ->
  input_t_syn net' = input_t_syn net /\ active_syn net' = active_syn net.
Proof.
  unfold after_integrate, stage_EPSC.
  destruct (call_synaptic_current (stage_spike t_cur net)) as [e|syn]; [discriminate|].
  unfold stage_record. cbn [cfg set_sim stage_spike hist].
  destruct (keep_data (cfg net)).
  - destruct (hist net) as [h|]; [|discriminate].
    unfold stage_currents. destruct (np_bin _ _ _); [discriminate|].
    intro H; injection H as <-; split; reflexivity.
  - unfold stage_currents. destruct (np_bin _ _ _); [discriminate|].
    intro H; injection H as <-; split; reflexivity.
Qed.

Lemma run_step_untouched (input_type : bool) (I : list (list R)) (i : nat) (t_cur : R)
    (net net' : Network) :
  run_step input_type I i t_cur net = Done net' ->
  input_t_syn net' = input_t_syn net /\ active_syn net' = active_syn net /\
  (keep_data (cfg net) = false -> hist net' = hist net).
Proof.
  intro Hstep.
  destruct (run_step_split _ _ _ _ _ _ Hstep) as (n3 & I_cur & Hint & Haft).
  pose proof (integrate_part_frame _ _ _ _ _ _ _ Hint) as (C1 & _ & C3 & _).
  pose proof (after_integrate_frame _ _ _ _ _ Haft)
    as (_ & _ & _ & _ & _ & _ & _ & _ & _ & _ & D11 & _).
  apply after_integrate_untouched in Haft. destruct Haft as (E1 & E2).
  unfold integrate_part in Hint.
  destruct (stage_active (set_t net t_cur)) as [n1 oa] eqn:Ha.
  destruct oa as [e|oa]; [discriminate|].
  destruct (stage_input input_type (nth (i - 1) I []) t_cur n1) as [n2 ic] eqn:Hi.
  destruct ic as [e|ic]; [discriminate|].
  destruct oa as [an|]; [|discriminate].
  destruct (stage_integrate an n2) as [n3'|e n3'] eqn:Hg; [|discriminate].
  injection Hint as <- _.
  apply stage_active_untouched in Ha. apply stage_input_untouched in Hi.
  apply stage_integrate_untouched in Hg.
  destruct Ha as (A1 & A2), Hi as (B1 & B2), Hg as (G1 & G2).
  cbn [set_t input_t_syn active_syn] in A1, A2.
  split; [congruence|]. split; [congruence|].
  intro Hk. rewrite D11 by (rewrite C1; exact Hk). exact C3.
Qed.

Lemma run_loop_untouched (I : list (list R)) (its : list (nat * R)) (net net' : Network) :
  run_loop false I its net = Done net' ->
  input_t net' = input_t net /\
  input_t_syn net' = input_t_syn net /\ active_syn net' = active_syn net /\
  (keep_data (cfg net) = false -> hist net' = hist net).
Proof.
  revert net. induction its as [|[i t_cur] its IH]; intros net; cbn [run_loop].
  - intro H; injection H as <-. repeat split; reflexivity.
  - destruct (run_step false I i t_cur net) as [n1|e n1] eqn:H1; [|discriminate].
    intro H. apply IH in H. destruct H as (A1 & A2 & A3 & A4).
    destruct (run_step_untouched _ _ _ _ _ _ H1) as (B2 & B3 & B4).
    destruct (run_step_frame _ _ _ _ _ _ H1) as (Hc & _ & _ & B1).
    rewrite Hc in A4.
    split; [rewrite A1; apply B1; reflexivity|].
    split; [congruence|]. split; [congruence|].
    intro Hk. rewrite (A4 Hk). exact (B4 Hk).
Qed.

Lemma run_step_set_t (input_type : bool) (I : list (list R)) (i : nat) (t_cur x : R)
    (net : Network) :
  run_step input_type I i t_cur (set_t net x) = run_step input_type I i t_cur net.
Proof.
  unfold run_step, integrate_part.
  replace (set_t (set_t net x) t_cur) with (set_t net t_cur) by (destruct net; reflexivity).
  reflexivity.
Qed.

Lemma run_prepare_same (net net' : Network) (I : list (list R)) :
  cfg net' = cfg net -> topo net' = topo net ->
  assign_idx_scalar (type_array net') (inh_idx (cfg net)) 0%nat =
    assign_idx_scalar (type_array net) (inh_idx (cfg net)) 0%nat ->
  input_t net' = input_t net -> input_t_syn net' = input_t_syn net ->
  (String.eqb (model_type (cfg net)) "SOC_syn" = false -> active_syn net' = active_syn net) ->
  (keep_data (cfg net) = false -> hist net' = hist net) ->
  run_prepare net' I = set_t (run_prepare net I) (t net').
Proof.
  intros Hc Ht Hta Hi His Has Hh.
  unfold run_prepare, reset_history. rewrite Hc, Ht, Hta, Hi, His.
  cbn [cfg sim Vs activity_size].
  destruct (String.eqb (model_type (cfg net)) "SOC_syn") eqn:Es;
    destruct (keep_data (cfg net)) eqn:Ek;
    unfold set_hist, set_t; cbn;
    rewrite ?(Has eq_refl), ?(Hh eq_refl); reflexivity.
Qed.

(** X19: a completed run on injected currents leaves no trace on the object:
    any following run, on currents or on spike events, over a non-empty
    array gives exactly the outcome it would have given on the object
    before (the inhibitory entries of [type_array] being 0, as the
    constructor leaves them). *)
Theorem current_run_leaves_no_trace (net n1 : Network) (I1 I2 : list (list R))
    (input_type : bool) :
  run_model net I1 false = Done n1 ->
  assign_idx_scalar (type_array net) (inh_idx (cfg net)) 0%nat = type_array net ->
  I2 <> [] ->
  run_model n1 I2 input_type = run_model net I2 input_type.
Proof.
  intros Hrun Hnorm Hne.
  unfold run_model in Hrun.
  destruct (run_loop_shaped (length I1) _ _ _ _ _ (shaped_run_prepare net I1) Hrun)
    as (_ & Hc & Ht & _).
  rewrite cfg_run_prepare in Hc.
  pose proof (run_loop_type_array _ _ _ _ _ Hrun) as Hta.
  destruct (sim_run_prepare net I1) as (_ & Hi0 & Ht0 & Hta0).
  rewrite Hta0, Hnorm in Hta. rewrite Ht0 in Ht.
  destruct (run_loop_untouched _ _ _ _ Hrun) as (Hi & His & Has & Hh).
  rewrite Hi0 in Hi. rewrite cfg_run_prepare in Hh.
  assert (Hprep : run_prepare n1 I2 = set_t (run_prepare net I2) (t n1)).
  { apply run_prepare_same; try assumption.
    - rewrite Hta. reflexivity.
    - rewrite His. unfold run_prepare, reset_history.
      destruct (keep_data _); reflexivity.
    - intro Es. rewrite Has. unfold run_prepare, reset_history.
      cbn [cfg]. rewrite Es. destruct (keep_data _); reflexivity.
    - intro Ek. rewrite (Hh Ek). unfold run_prepare. cbn [cfg reset_history].
      rewrite Ek. reflexivity. }
  unfold run_model. rewrite Hprep, Hc.
  destruct (run_times_head (cfg net) (length I2)) as (rest & ->).
  { destruct I2; [contradiction | simpl; lia]. }
  cbn [run_loop]. rewrite run_step_set_t. reflexivity.
Qed.

(** * The type of every neuron *)

Lemma nth_assign_idx_scalar_in {X : Type} (v : list X) (idx : list nat) (x d : X)
    (k : nat) :
  In k idx -> (k < length v)%nat -> nth k (assign_idx_scalar v idx x) d = x.
Proof.
  unfold assign_idx_scalar. revert v.
  induction idx as [|a idx IH]; intros v Hin Hk; [destruct Hin|].
  cbn [fold_left].
  destruct (in_dec Nat.eq_dec k idx) as [Hk'|Hk'].
  - apply IH; [exact Hk' | rewrite set_nth_length; exact Hk].
  - destruct Hin as [->|Hin]; [|contradiction].
    fold (assign_idx_scalar (set_nth k x v) idx x).
    rewrite nth_assign_idx_scalar_other by exact Hk'.
    apply nth_set_nth_eq. exact Hk.
Qed.

Lemma isin_In (k : nat) (l : list nat) : isin k l = true <-> In k l.
Proof.
  unfold isin. rewrite existsb_exists. split.
  - intros (x & Hin & E). apply Nat.eqb_eq in E. subst. exact Hin.
  - intro H. exists k. split; [exact H | apply Nat.eqb_refl].
Qed.

Lemma nth_assign_idx_scalar_cases {X : Type} (v : list X) (idx : list nat) (x d : X)
    (k : nat) :
  (k < length v)%nat ->
  nth k (assign_idx_scalar v idx x) d = if isin k idx then x else nth k v d.
Proof.
  intro Hk. destruct (isin k idx) eqn:E.
  - apply nth_assign_idx_scalar_in; [apply isin_In; exact E | exact Hk].
  - apply nth_assign_idx_scalar_other. intro H. apply isin_In in H. congruence.
Qed.

Lemma assign_idx_scalar_idempotent {X : Type} (v : list X) (idx : list nat) (x : X) :
  assign_idx_scalar (assign_idx_scalar v idx x) idx x = assign_idx_scalar v idx x.
Proof.
  destruct v as [|d v'].
  { transitivity (@nil X); [|symmetry]; apply length_zero_iff_nil;
      rewrite !assign_idx_scalar_length; reflexivity. }
  set (v := d :: v').
  apply nth_ext with (d := d) (d' := d).
  - rewrite !assign_idx_scalar_length. reflexivity.
  - intros k Hk. rewrite !assign_idx_scalar_length in Hk.
    rewrite nth_assign_idx_scalar_cases by (rewrite assign_idx_scalar_length; exact Hk).
    rewrite (nth_assign_idx_scalar_cases v) by exact Hk.
    destruct (isin k idx); reflexivity.
Qed.

Lemma init_type_array (a : Args.t) (rand : nat -> R) (net : Network) :
  init a rand = inr net ->
  type_array net =
  assign_idx_scalar (repeat 1%nat (neuron_num (init_config a))) (Args.inh_idx a) 0%nat.
Proof.
  unfold init. destruct (generate_connections _ _ _) as [e|g]; [discriminate|].
  intro H; injection H as <-. cbn [reset_history type_array cfg].
  rewrite init_config_inh_idx. apply assign_idx_scalar_idempotent.
Qed.

(** X20: after the constructor, with the indices of [inh_idx] inside the
    lattice (as [np.random.choice] draws them), [type_array] has one entry
    per neuron, 0 for the neurons listed in [inh_idx] and 1 for all others;
    [reset_history] and every completed run leave it as it is. *)
Theorem type_array_marks_inhibitory (a : Args.t) (rand : nat -> R) (net : Network) :
  init a rand = inr net ->
  Forall (fun k => (k < neuron_num (init_config a))%nat) (Args.inh_idx a) ->
  length (type_array net) = neuron_num (cfg net) /\
  (forall k, (k < neuron_num (cfg net))%nat ->
     nth k (type_array net) 0%nat = if isin k (Args.inh_idx a) then 0%nat else 1%nat) /\
  type_array (reset_history net) = type_array net /\
  (forall I input_type nT,
     run_model net I input_type = Done nT -> type_array nT = type_array net).
Proof.
  intros Hinit _.
  pose proof (init_type_array a rand net Hinit) as Hta.
  pose proof (init_cfg a rand net Hinit) as Hc.
  assert (Hnorm : assign_idx_scalar (type_array net) (inh_idx (cfg net)) 0%nat =
                  type_array net).
  { rewrite Hc, init_config_inh_idx, Hta. apply assign_idx_scalar_idempotent. }
  split; [|split; [|split]].
  - rewrite Hta, assign_idx_scalar_length, repeat_length, Hc. reflexivity.
  - intros k Hk. rewrite Hc in Hk. rewrite Hta.
    rewrite nth_assign_idx_scalar_cases by (rewrite repeat_length; exact Hk).
    rewrite nth_repeat_lt by exact Hk. reflexivity.
  - cbn [reset_history type_array]. exact Hnorm.
  - intros I input_type nT Hrun. unfold run_model in Hrun.
    rewrite (run_loop_type_array _ _ _ _ _ Hrun).
    destruct (sim_run_prepare net I) as (_ & _ & _ & ->). exact Hnorm.
Qed.

(** * Weights as reversal potentials *)

Lemma vsum_conductance (row x : list R) (V : R) :
  vsum (map2 Rmult row x) -
  vsum (map2 (fun (b : bool) y => b2R b * y) (map (fun w => negb (Reqb w 0)) row) x) * V =
  vsum (map2 (fun w y => if Reqb w 0 then 0 else (w - V) * y) row x).
Proof.
  revert x. induction row as [|w row IH]; intros [|y x]; cbn [map map2 vsum fold_right];
    try ring.
  fold (vsum (map2 Rmult row x)).
  fold (vsum (map2 (fun (b : bool) y0 => b2R b * y0)
                   (map (fun w0 => negb (Reqb w0 0)) row) x)).
  fold (vsum (map2 (fun w0 y0 => if Reqb w0 0 then 0 else (w0 - V) * y0) row x)).
  rewrite <- IH. unfold Reqb. destruct (Req_dec_T w 0) as [->|Hw]; cbn [negb b2R]; ring.
Qed.

Lemma nth_conductance (M : list (list R)) (x Vs0 : list R) (k : nat) :
  (k < length M)%nat -> (k < length Vs0)%nat ->
  nth k (map2 Rminus (dot M x) (map2 Rmult (dot_bool (nonzero_mask M) x) Vs0)) 0 =
  vsum (map2 (fun w y => if Reqb w 0 then 0 else (w - nth k Vs0 0) * y) (nth k M []) x).
Proof.
  intros HM HV.
  rewrite (nth_map2 _ _ _ k 0 0 0)
    by (rewrite ?map2_length, ?dot_length, ?dot_bool_length; unfold nonzero_mask;
        rewrite ?length_map; lia).
  rewrite (nth_map2 _ _ _ k 0 0 0)
    by (rewrite ?dot_bool_length; unfold nonzero_mask; rewrite ?length_map; lia).
  unfold dot, dot_bool, nonzero_mask.
  rewrite (nth_map_lt _ _ _ []) by exact HM.
  rewrite (nth_map_lt _ _ _ []) by (rewrite length_map; exact HM).
  rewrite (nth_map_lt _ _ _ []) by exact HM.
  apply vsum_conductance.
Qed.

(** X21: where the code subtracts the masked kernel sum times the potential
    (the external current of a spike-input step, and the synaptic current
    of the SFA model), neuron [k] receives the sum over its non-zero
    weights [w] of [(w - V_k)] times the kernel of the source: the stored
    weights act as reversal potentials. *)
Theorem conductance_form (net : Network) (k : nat) :
  in_connections_bool (topo net) = nonzero_mask (input_connections (topo net)) ->
  connections_bool (topo net) = nonzero_mask (connections (topo net)) ->
  length (input_connections (topo net)) = length (Vs (sim net)) ->
  length (connections (topo net)) = length (Vs (sim net)) ->
  (k < length (Vs (sim net)))%nat ->
  let drive := fun (row x : list R) =>
    vsum (map2 (fun w y => if Reqb w 0 then 0 else (w - nth k (Vs (sim net)) 0) * y)
               row x) in
  (forall row t_cur n1 I_cur,
     stage_input true row t_cur net = (n1, inr I_cur) ->
     exists ic, call_input_current n1 = inr ic /\
                nth k I_cur 0 = drive (nth k (input_connections (topo net)) []) ic) /\
  (forall n1,
     model_type (cfg net) = "SFA"%string ->
     stage_EPSC net = Done n1 ->
     exists syn, call_synaptic_current net = inr syn /\
                 nth k (EPSC (sim n1)) 0 = drive (nth k (connections (topo net)) []) syn).
Proof.
  intros Hib Hcb Hli Hlc Hk drive. split.
  - intros row t_cur n1 I_cur. unfold stage_input.
    destruct (forallb _ _); [|discriminate].
    destruct (call_input_current _) as [e|ic] eqn:Hic; [discriminate|].
    intro H. injection H as <- <-. exists ic. split; [exact Hic|].
    cbn [topo set_input_t sim]. rewrite Hib. unfold drive.
    apply nth_conductance; lia.
  - intros n1 Hmt. unfold stage_EPSC.
    destruct (call_synaptic_current net) as [e|syn]; [discriminate|].
    rewrite Hmt. cbn [String.eqb Ascii.eqb Bool.eqb].
    intro H. injection H as <-. exists syn. split; [reflexivity|].
    cbn [sim set_sim set_EPSC EPSC]. rewrite Hcb. unfold drive.
    apply nth_conductance; lia.
Qed.

(** * Spike events on the input channels *)

Lemma In_where_nonzero (row : list R) (c : nat) :
  In c (where_nonzero row) <-> nth c row 0 <> 0.
Proof.
  unfold where_nonzero. rewrite In_nonzero, length_map. split.
  - intros (Hc & H). rewrite (nth_map_lt _ _ _ 0) in H by exact Hc.
    unfold Reqb in H. destruct (Req_dec_T (nth c row 0) 0); [discriminate | assumption].
  - intro H.
    assert (Hc : (c < length row)%nat).
    { destruct (Nat.lt_ge_cases c (length row)) as [Hc|Hc]; [exact Hc|].
      rewrite nth_overflow in H by exact Hc. contradiction. }
    split; [exact Hc|]. rewrite (nth_map_lt _ _ _ 0) by exact Hc.
    rewrite Reqb_false by exact H. reflexivity.
Qed.

Lemma isin_where_nonzero (row : list R) (c : nat) :
  isin c (where_nonzero row) = negb (Reqb (nth c row 0) 0).
Proof.
  destruct (isin c (where_nonzero row)) eqn:E.
  - apply isin_In, In_where_nonzero in E. rewrite Reqb_false by exact E. reflexivity.
  - unfold Reqb. destruct (Req_dec_T (nth c row 0) 0) as [H|H]; [reflexivity|].
    apply In_where_nonzero, isin_In in H. congruence.
Qed.

(** X22: in a run on spike events each input channel latches the time of its
    latest event: after [j] completed steps [input_t[c]] is [i * dt] for the
    last row [i <= j] with a non-zero entry in column [c], and is what it
    was before the run (not -1) if no row up to [j] has one. *)
Theorem input_events_latched (net : Network) (I : list (list R)) (j : nat)
    (nj : Network) (c : nat) :
  (j <= length I)%nat ->
  run_loop true I (firstn j (run_times (cfg net) (length I)))
           (run_prepare net I) = Done nj ->
  (c < length (input_t net))%nat ->
  ((forall i, (1 <= i <= j)%nat -> nth c (nth (i - 1) I []) 0 = 0) ->
   nth c (input_t nj) 0 = nth c (input_t net) 0) /\
  (forall i, (1 <= i <= j)%nat ->
     nth c (nth (i - 1) I []) 0 <> 0 ->
     (forall i', (i < i' <= j)%nat -> nth c (nth (i' - 1) I []) 0 = 0) ->
     nth c (input_t nj) 0 = INR i * dt (cfg net)).
Proof.
  intros Hj Hpre Hc. revert j nj Hj Hpre.
  apply (run_prefix_ind
    (fun j nj =>
       length (input_t nj) = length (input_t net) /\
       ((forall i, (1 <= i <= j)%nat -> nth c (nth (i - 1) I []) 0 = 0) ->
        nth c (input_t nj) 0 = nth c (input_t net) 0) /\
       (forall i, (1 <= i <= j)%nat ->
          nth c (nth (i - 1) I []) 0 <> 0 ->
          (forall i', (i < i' <= j)%nat -> nth c (nth (i' - 1) I []) 0 = 0) ->
          nth c (input_t nj) 0 = INR i * dt (cfg net)))).
  - destruct (sim_run_prepare net I) as (_ & -> & _).
    split; [reflexivity|]. split; [reflexivity|]. intros i Hi. lia.
  - intros j nj net' Hj Hpre (IL & IH0 & IH1) Hstep.
    pose proof (run_step_input_t _ _ _ _ _ Hstep) as Hin.
    replace (S j - 1)%nat with j in Hin by lia.
    assert (E : nth c (input_t net') 0 =
                if negb (Reqb (nth c (nth j I []) 0) 0)
                then INR (S j) * dt (cfg net) else nth c (input_t nj) 0).
    { rewrite Hin, nth_assign_idx_scalar_cases by lia.
      rewrite isin_where_nonzero. reflexivity. }
    split; [rewrite Hin, assign_idx_scalar_length; exact IL|]. split.
    + intro Hz. rewrite E.
      pose proof (Hz (S j) ltac:(lia)) as Hzj. replace (S j - 1)%nat with j in Hzj by lia.
      rewrite Hzj, Reqb_true. cbn [negb]. apply IH0. intros i Hi. apply Hz. lia.
    + intros i Hi Hnz Hlast. rewrite E.
      destruct (Nat.eq_dec i (S j)) as [->|Hne].
      * replace (S j - 1)%nat with j in Hnz by lia.
        rewrite Reqb_false by exact Hnz. reflexivity.
      * pose proof (Hlast (S j) ltac:(lia)) as Hzj.
        replace (S j - 1)%nat with j in Hzj by lia.
        rewrite Hzj, Reqb_true. cbn [negb].
        apply (IH1 i); [lia | exact Hnz |]. intros i' Hi'. apply Hlast. lia.
Qed.

Lemma steps_completed_app (input_type : bool) (I : list (list R)) (a b : list (nat * R))
    (net n1 : Network) :
  run_loop input_type I a net = Done n1 ->
  steps_completed input_type I (a ++ b) net =
  (length a + steps_completed input_type I b n1)%nat.
Proof.
  revert net. induction a as [|[i tc] a IH]; intros net H.
  - cbn in H. injection H as <-. reflexivity.
  - cbn [run_loop] in H. cbn [app steps_completed length].
    destruct (run_step input_type I i tc net) as [n0|e n0]; [|discriminate].
    rewrite (IH n0 H). reflexivity.
Qed.

Lemma run_times_prefix_rows (c : Config) (I : list (list R)) (j : nat)
    (P : list R -> Prop) :
  (j <= length I)%nat -> Forall P (firstn j I) ->
  Forall (fun it => P (nth (fst it - 1) I [])) (firstn j (run_times c (length I))).
Proof.
  intros Hj HP. apply Forall_forall. intros [i tc] Hin.
  destruct (In_nth _ _ (0%nat, 0) Hin) as (m & Hm & E).
  rewrite firstn_length_le in Hm by (rewrite run_times_length; exact Hj).
  rewrite nth_firstn in E.
  replace (Nat.ltb m j) with true in E by (symmetry; apply Nat.ltb_lt; exact Hm).
  rewrite nth_run_times in E by lia. injection E as <- _.
  cbn [fst]. replace (S m - 1)%nat with m by lia.
  rewrite Forall_forall in HP. apply HP.
  replace (nth m I []) with (nth m (firstn j I) []).
  - apply nth_In. rewrite firstn_length_le by exact Hj. exact Hm.
  - rewrite nth_firstn.
    replace (Nat.ltb m j) with true by (symmetry; apply Nat.ltb_lt; exact Hm).
    reflexivity.
Qed.

Lemma run_step_event_out_of_range (I : list (list R)) (i : nat) (t_cur : R)
    (net : Network) (c : nat) :
  model_type (cfg net) = "LIF"%string \/ model_type (cfg net) = "SFA"%string ->
  (model_type (cfg net) = "LIF"%string ->
   in_range (ref (cfg net)) (type_array net) = true) ->
  (length (input_t net) <= c)%nat -> nth c (nth (i - 1) I []) 0 <> 0 ->
  exists n',
    run_step true I i t_cur net = Raised IndexError n' /\
    t n' = t_cur /\ input_t n' = input_t net.
Proof.
  intros Hmt Hrng Hc Hnz. unfold run_step, integrate_part.
  destruct (stage_active_bound (set_t net t_cur) Hmt Hrng) as (n1 & an & Ha & _).
  rewrite Ha. apply stage_active_frame in Ha.
  destruct Ha as (_ & _ & A3 & _ & A5 & _). cbn [set_t input_t t] in A3, A5.
  unfold stage_input.
  destruct (forallb _ _) eqn:Ef.
  - exfalso. rewrite forallb_forall in Ef.
    pose proof (Ef c (proj2 (In_where_nonzero _ c) Hnz)) as H.
    apply Nat.ltb_lt in H. rewrite A3 in H. lia.
  - exists n1. split; [reflexivity|]. split; assumption.
Qed.

(** X23: on a network built for the LIF or the SFA model, with an entry of
    [ref] and [tau_psc] for every neuron type in the LIF case, a run on spike
    events raises [IndexError] at the first row that has a non-zero entry in
    a column beyond the last input channel: the rows before it are stepped
    to their end, the clock shows the time of the failing step, and that
    step has changed no activation time. *)
Theorem spike_event_out_of_range (net : Network) (I : list (list R)) (j c : nat) :
  wired (cfg net) -> types_indexed net -> shaped_topo net ->
  (j < length I)%nat ->
  Forall (row_accepted (cfg net) true) (firstn j I) ->
  (input_num (cfg net) <= c)%nat ->
  nth c (nth j I []) 0 <> 0 ->
  exists nj n',
    run_loop true I (firstn j (run_times (cfg net) (length I)))
             (run_prepare net I) = Done nj /\
    run_model net I true = Raised IndexError n' /\
    steps_completed true I (run_times (cfg net) (length I)) (run_prepare net I) = j /\
    t n' = INR (S j) * dt (cfg net) /\
    input_t n' = input_t nj.
Proof.
  intros Hw Hidx Hs Hj Hrows Hc Hnz.
  destruct (run_prepare_ready net I Hw Hs) as (Hw' & Hs' & Hr' & HI').
  destruct (run_loop_completes (length I) true I
              (firstn j (run_times (cfg net) (length I))) (run_prepare net I)
              Hw' (types_indexed_run_prepare net I Hidx) Hs' Hr' HI')
    as (nj & Hloop & Hcount & Hcfg & Hst & _).
  { rewrite cfg_run_prepare. apply run_times_prefix_rows; [lia | exact Hrows]. }
  rewrite cfg_run_prepare in Hcfg.
  pose proof (types_indexed_prefix net I true _ nj Hidx Hloop) as Hidxj.
  destruct (run_step_event_out_of_range I (S j) (INR (S j) * dt (cfg net)) nj c)
    as (n' & Hstep & Ht & Hin).
  { rewrite Hcfg. destruct (wired_methods _ Hw) as (_ & _ & _ & H). exact H. }
  { intro Hm. exact (proj1 (types_indexed_ranges nj Hidxj Hm)). }
  { rewrite (sh_input_t _ Hst), Hcfg. exact Hc. }
  { replace (S j - 1)%nat with j by lia. exact Hnz. }
  assert (Hsplit : run_times (cfg net) (length I) =
                   firstn j (run_times (cfg net) (length I)) ++
                   (S j, INR (S j) * dt (cfg net)) ::
                   skipn (S j) (run_times (cfg net) (length I))).
  { rewrite <- (firstn_skipn (S j) (run_times (cfg net) (length I))) at 1.
    rewrite (firstn_snoc _ j (0%nat, 0)) by (rewrite run_times_length; exact Hj).
    rewrite nth_run_times by exact Hj. rewrite <- app_assoc. reflexivity. }
  exists nj, n'. split; [exact Hloop|]. split; [|split; [|split]].
  - unfold run_model. rewrite Hsplit, run_loop_app, Hloop.
    cbn [run_loop]. rewrite Hstep. reflexivity.
  - rewrite Hsplit, (steps_completed_app _ _ _ _ _ _ Hloop).
    cbn [steps_completed]. rewrite Hstep.
    rewrite firstn_length_le by (rewrite run_times_length; lia). lia.
  - exact Ht.
  - exact Hin.
Qed.

(** X24: [reset_history] is idempotent, and what it builds of the state
    depends on the configuration alone: after a completed run it gives the
    same per-neuron arrays as on the object before the run. *)
Theorem reset_history_idempotent (net : Network) :
  reset_history (reset_history net) = reset_history net /\
  (forall I input_type nT,
     run_model net I input_type = Done nT ->
     sim (reset_history nT) = sim (reset_history net) /\
     topo (reset_history nT) = topo net).
Proof.
  split.
  - unfold reset_history. cbn [cfg topo type_array t input_t input_t_syn active_syn hist].
    rewrite assign_idx_scalar_idempotent.
    destruct (String.eqb (model_type (cfg net)) "SOC_syn"); reflexivity.
  - intros I input_type nT Hrun. unfold run_model in Hrun.
    destruct (run_loop_shaped (length I) _ _ _ _ _ (shaped_run_prepare net I) Hrun)
      as (_ & Hc & Ht & _).
    rewrite cfg_run_prepare in Hc.
    destruct (sim_run_prepare net I) as (_ & _ & Ht0 & _). rewrite Ht0 in Ht.
    split; [|exact Ht].
    unfold reset_history. cbn [sim]. rewrite Hc. reflexivity.
Qed.

(** * Further theorems at concrete inputs *)

Lemma run_model_as_prefix (net : Network) (I : list (list R)) (input_type : bool) :
  run_loop input_type I (firstn (length I) (run_times (cfg net) (length I)))
           (run_prepare net I) = run_model net I input_type.
Proof.
  unfold run_model. f_equal.
  rewrite <- (run_times_length (cfg net) (length I)) at 1. apply firstn_all.
Qed.

Lemma example_run (a : Args.t) (conn inp : list (list R)) (I : list (list R))
    (input_type : bool) :
  Args.model a = "LIF"%string \/ Args.model a = "SFA"%string ->
  (2 <= length (Args.ref a))%nat -> (2 <= length (Args.tau_psc a))%nat ->
  length conn = neuron_num (init_config a) ->
  length inp = neuron_num (init_config a) ->
  Forall (row_accepted (cfg (network_of a conn inp)) input_type) I ->
  exists nT, run_model (network_of a conn inp) I input_type = Done nT.
Proof.
  intros Hm Hr Ht Hc Hi HI.
  destruct (run_model_completes (network_of a conn inp) I input_type
              (network_of_wired a conn inp Hm)
              (network_of_types_indexed a conn inp Hr Ht)
              (network_of_shaped a conn inp Hc Hi) HI)
    as (nT & H & _).
  exists nT. exact H.
Qed.

(** A row of three lattice points read from the point (2, 0). *)
Lemma get_phi_distances_positive_witness :
  exists terms,
    phi_terms (1, 3, 1)%nat [[0]; [1]] 0 (get_r 2 0) 0 = inr terms /\
    Forall (fun cd => 0 < snd cd) terms.
Proof.
  destruct (phi_terms_total (1, 3, 1)%nat [[0]; [1]] 0 (get_r 2 0) 0) as (terms & H & _).
  - simpl. lia.
  - repeat constructor.
  - exists terms. split; [exact H|].
    exact (get_phi_distances_positive (1, 3, 1)%nat [[0]; [1]] 0 2 0 0 terms H).
Defined.

(** Two channels on the row of three lattice points. *)
Lemma get_phi_result_witness :
  exists net v,
    init row_of_three_args zero_draws = inr net /\
    get_phi net [[0]; [1]] (get_r 2 0) 0 1 = inr v.
Proof.
  destruct (init_total row_of_three_args zero_draws
              default_V_syn_complete default_connect_const_complete) as (net & Hinit).
  destruct (proj1 (get_phi_result net [[0]; [1]] (get_r 2 0) 0 1)) as (v & Hv).
  - rewrite (init_cfg _ _ _ Hinit). simpl. lia.
  - simpl. lia.
  - repeat constructor.
  - exists net, v. split; [exact Hinit | exact Hv].
Defined.

(** A neuron that has not spiked yet and an input channel that has had no
    event: both LIF kernels return, with the entry 0. *)
Lemma kernels_zero_before_first_event_witness :
  exists Isyn Iin,
    synaptic_current_LIF one_inhibitory_net = inr Isyn /\ nth 0 Isyn 0 = 0 /\
    nth 0 (synaptic_current_SFA one_inhibitory_net) 0 = 0 /\
    input_current_LIF one_inhibitory_net = inr Iin /\ nth 0 Iin 0 = 0.
Proof.
  destruct (kernels_zero_before_first_event one_inhibitory_net 0)
    as (Hsyn & Hin & Hret & Hret').
  destruct (Hret eq_refl) as (Isyn & E).
  assert (Htp : tau_psc (cfg one_inhibitory_net) <> []) by discriminate.
  destruct (Hret' Htp) as (Iin & E').
  assert (Hs : nth 0 (spikes_t (sim one_inhibitory_net)) 0 < 0) by (simpl; lra).
  assert (Hi : nth 0 (input_t one_inhibitory_net) 0 < 0) by (simpl; lra).
  destruct (Hsyn Hs) as (A1 & A2). destruct (Hin Hi) as (B1 & _).
  exists Isyn, Iin.
  split; [exact E|]. split; [exact (A1 Isyn E)|]. split; [exact A2|].
  split; [exact E' | exact (B1 Iin E')].
Defined.

(** The inhibitory neuron of the one-neuron network (decay constant 6),
    one time unit after its spike. *)
Lemma synaptic_current_LIF_bounds_witness :
  exists Isyn,
    synaptic_current_LIF (spiked_once one_inhibitory_net) = inr Isyn /\
    0 <= nth 0 Isyn 0 <= 1 /\
    nth 0 Isyn 0 = exp (- (2 - 1) / 6).
Proof.
  exists (synaptic_current_LIF_values (spiked_once one_inhibitory_net)).
  assert (E : synaptic_current_LIF (spiked_once one_inhibitory_net) =
              inr (synaptic_current_LIF_values (spiked_once one_inhibitory_net)))
    by reflexivity.
  split; [exact E|].
  assert (H1 : (0 < length (spikes_t (sim (spiked_once one_inhibitory_net))))%nat)
    by (simpl; lia).
  assert (H2 : (0 < length (type_array (spiked_once one_inhibitory_net)))%nat)
    by (simpl; lia).
  assert (H3 : 0 < nth (nth 0 (type_array (spiked_once one_inhibitory_net)) 0%nat)
                       (tau_psc (cfg (spiked_once one_inhibitory_net))) 0)
    by (simpl; lra).
  destruct (synaptic_current_LIF_bounds (spiked_once one_inhibitory_net) 0 _ E H1 H2 H3)
    as (B1 & B2 & _).
  split; [exact B1|]. apply B2. simpl. lra.
Defined.

(** The SFA neuron with the default rise and decay constants, 1 and 6.5,
    one time unit after its spike. *)
Lemma synaptic_current_SFA_bounds_witness :
  0 <= nth 0 (synaptic_current_SFA (spiked_once sfa_net)) 0 <= J (cfg sfa_net).
Proof.
  assert (H1 : (0 < length (spikes_t (sim (spiked_once sfa_net))))%nat) by (simpl; lia).
  assert (H2 : 0 < tauRise (cfg (spiked_once sfa_net)) <= tauDec (cfg (spiked_once sfa_net)))
    by (simpl; lra).
  assert (H3 : 0 <= J (cfg (spiked_once sfa_net))) by (simpl; lra).
  apply (proj2 (synaptic_current_SFA_bounds (spiked_once sfa_net) 0 H1 H2 H3)).
  simpl. lra.
Defined.

(** * A neuron type without an entry in [ref] *)

(** With an excitatory neuron and one entry in [ref], line 256 of the first
    step raises [IndexError]: the run completes no step. *)
Lemma missing_ref_entry_raises :
  ~ types_indexed short_ref_net /\
  exists n',
    run_model short_ref_net [[0]] false = Raised IndexError n' /\
    steps_completed false [[0]] (run_times (cfg short_ref_net) 1)
                    (run_prepare short_ref_net [[0]]) = 0%nat.
Proof.
  split.
  - intro H. destruct (H eq_refl) as (_ & _ & F).
    inversion F as [|ty l [Hty _] _]. simpl in Hty. lia.
  - unfold run_model. cbn [length].
    destruct (run_times_head (cfg short_ref_net) 1 (Nat.lt_0_succ 0)) as (rest & ->).
    cbn [run_loop steps_completed]. unfold run_step, integrate_part.
    rewrite (stage_active_LIF_error
               (set_t (run_prepare short_ref_net [[0]]) (INR 1 * dt (cfg short_ref_net)))
               eq_refl eq_refl).
    eexists. split; reflexivity.
Qed.

(** * Example runs that leave the reset state *)

(** What one completed step does to neuron [k], given the potentials
    [Vs (sim n3)] that the integration left. *)
Lemma run_step_neuron (input_type : bool) (I : list (list R)) (i : nat) (t_cur : R)
    (net n3 net' : Network) (I_cur : list R) (k : nat) :
  integrate_part input_type I i t_cur net = (n3, inr I_cur) ->
  run_step input_type I i t_cur net = Done net' ->
  (k < length (Vs (sim net)))%nat ->
  length (spikes_t (sim net)) = length (Vs (sim net)) ->
  let b := Rgtb (nth k (Vs (sim n3)) 0) (Vth (cfg net)) in
  nth k (spikes (sim net')) false = b /\
  nth k (spikes_t (sim net')) 0 = (if b then t_cur else nth k (spikes_t (sim net)) 0) /\
  nth k (Vs (sim net')) 0 = (if b then Vreset (cfg net) else nth k (Vs (sim n3)) 0) /\
  n (sim net') = n (sim n3).
Proof.
  intros Hint Hstep Hk Hl b.
  unfold run_step in Hstep. rewrite Hint in Hstep.
  apply integrate_part_frame in Hint.
  destruct Hint as (C1 & _ & _ & _ & _ & C6 & _ & C8 & _).
  apply after_integrate_frame in Hstep.
  destruct Hstep as (_ & _ & _ & _ & _ & A6 & A7 & A8 & A9 & _).
  rewrite C1 in A7, A9.
  assert (Hk3 : (k < length (Vs (sim n3)))%nat) by lia.
  assert (Es : nth k (spikes (sim net')) false = b).
  { rewrite A7, (nth_map_lt _ _ _ 0) by exact Hk3. reflexivity. }
  assert (Ls : length (spikes (sim net')) = length (Vs (sim n3)))
    by (rewrite A7; apply length_map).
  split; [exact Es|]. split; [|split; [|exact A6]].
  - rewrite A8, C6, nth_assign_mask by lia. rewrite Es. reflexivity.
  - rewrite A9, nth_assign_mask by (rewrite ?assign_mask_length; lia).
    rewrite Es. destruct b eqn:Eb; [reflexivity|].
    rewrite nth_assign_mask by lia. rewrite Es. reflexivity.
Qed.

Lemma vsum_zero_row {X : Type} (f : R -> X -> R) (row : list R) (x : list X) :
  (forall w y, w = 0 -> f w y = 0) ->
  (forall j, nth j row 0 = 0) ->
  vsum (map2 f row x) = 0.
Proof.
  intros Hf. revert x. induction row as [|w row IH]; intros [|y x] Hrow;
    cbn [map2 vsum fold_right]; try reflexivity.
  fold (vsum (map2 f row x)).
  rewrite (Hf w y (Hrow 0%nat)), IH; [ring|].
  intro j. exact (Hrow (S j)).
Qed.

(** The synaptic current that lines 281-285 store, in a completed step. *)
Lemma after_integrate_EPSC (i : nat) (t_cur : R) (I_cur : list R) (net net' : Network) :
  after_integrate i t_cur I_cur net = Done net' ->
  exists syn,
    EPSC (sim net') =
    if String.eqb (model_type (cfg net)) "SFA" then
      map2 Rminus (dot (connections (topo net)) syn)
           (map2 Rmult (dot_bool (connections_bool (topo net)) syn)
                 (assign_mask (Vs (sim net))
                              (map (fun v => Rgtb v (Vth (cfg net))) (Vs (sim net))) 0))
    else dot (connections (topo net)) syn.
Proof.
  unfold after_integrate, stage_EPSC.
  destruct (call_synaptic_current (stage_spike t_cur net)) as [e|syn]; [discriminate|].
  unfold stage_record. simpl.
  destruct (keep_data (cfg net)) eqn:K.
  - destruct (hist net) as [h|] eqn:Hh; [|discriminate].
    unfold stage_currents. simpl.
    destruct (np_bin Rplus I_cur _) as [e|x] eqn:Hb; [discriminate|].
    intro H; injection H as <-. simpl. exists syn. reflexivity.
  - unfold stage_currents. simpl.
    destruct (np_bin Rplus I_cur _) as [e|x] eqn:Hb; [discriminate|].
    intro H; injection H as <-. simpl. exists syn. reflexivity.
Qed.

(** A neuron without incoming edges receives the injected current alone. *)
Lemma run_step_unconnected (I : list (list R)) (i : nat) (t_cur : R)
    (net net' : Network) (k : nat) :
  run_step false I i t_cur net = Done net' ->
  length (connections (topo net)) = length (Vs (sim net)) ->
  connections_bool (topo net) = nonzero_mask (connections (topo net)) ->
  length (nth (i - 1) I []) = length (Vs (sim net)) ->
  (k < length (Vs (sim net)))%nat ->
  (forall j, nth j (nth k (connections (topo net)) []) 0 = 0) ->
  nth k (Is (sim net')) 0 = nth k (nth (i - 1) I []) 0.
Proof.
  intros Hstep Hlc Hcb Hrow Hk Hzero.
  destruct (run_step_split _ _ _ _ _ _ Hstep) as (n3 & I_cur & Hint & Haft).
  apply integrate_part_frame in Hint.
  destruct Hint as (C1 & C2 & _ & _ & _ & _ & _ & C8 & _ & _ & C11 & _).
  destruct (C11 eq_refl) as (-> & _).
  pose proof (after_integrate_frame _ _ _ _ _ Haft)
    as (_ & _ & _ & _ & _ & _ & _ & _ & _ & A10 & _).
  destruct (after_integrate_EPSC _ _ _ _ _ Haft) as (syn & HE).
  rewrite C2, Hcb in HE.
  assert (HEl : length (EPSC (sim net')) = length (Vs (sim net))).
  { rewrite HE. destruct (String.eqb _ _).
    - rewrite !map2_length, dot_length, dot_bool_length.
      unfold nonzero_mask. rewrite assign_mask_length, !length_map. lia.
    - rewrite dot_length. exact Hlc. }
  assert (HEk : nth k (EPSC (sim net')) 0 = 0).
  { rewrite HE. destruct (String.eqb _ _).
    - rewrite nth_conductance by (rewrite ?assign_mask_length, ?length_map; lia).
      apply vsum_zero_row; [|exact Hzero].
      intros w y ->. rewrite Reqb_true. reflexivity.
    - unfold dot. rewrite (nth_map_lt _ _ _ []) by lia.
      apply vsum_zero_row; [|exact Hzero]. intros w y ->. ring. }
  rewrite np_bin_same_length in A10 by lia.
  injection A10 as <-.
  rewrite (nth_map2 _ _ _ k 0 0 0) by lia.
  rewrite HEk. ring.
Qed.

(** Every prefix of a run on accepted rows completes, with the arrays in
    shape. *)
Lemma run_prefix_total (net : Network) (I : list (list R)) (input_type : bool) (j : nat) :
  wired (cfg net) -> types_indexed net -> shaped_topo net ->
  Forall (row_accepted (cfg net) input_type) I ->
  exists nj,
    run_loop input_type I (firstn j (run_times (cfg net) (length I)))
             (run_prepare net I) = Done nj /\
    shaped_run (length I) nj /\ cfg nj = cfg net /\ topo nj = topo net /\
    length (Is (sim nj)) = neuron_num (cfg net).
Proof.
  intros Hw Hidx Ht Hrows.
  destruct (run_prepare_ready net I Hw Ht) as (Hw0 & Ht0 & Hs0 & HI0).
  destruct (run_loop_completes (length I) input_type I
              (firstn j (run_times (cfg net) (length I))) (run_prepare net I)
              Hw0 (types_indexed_run_prepare net I Hidx) Ht0 Hs0 HI0)
    as (nj & Hrun & _ & Hc & _ & Hsj & HIj).
  { rewrite cfg_run_prepare.
    apply (run_times_rows (cfg net) I j (row_accepted (cfg net) input_type) Hrows). }
  rewrite cfg_run_prepare in Hc, HIj.
  exists nj. split; [exact Hrun|]. split; [exact Hsj|]. split; [exact Hc|].
  split; [|exact HIj].
  destruct (run_loop_shaped (length I) _ _ _ _ _ Hs0 Hrun) as (_ & _ & Hto & _).
  rewrite Hto. destruct (sim_run_prepare net I) as (_ & _ & -> & _). reflexivity.
Qed.

(** One completed step of the SFA model, for a neuron [k] that starts the
    step with potential [v], last-spike time [s], open fraction [x] and
    current [cur]. *)
Lemma sfa_step_neuron (input_type : bool) (I : list (list R)) (i : nat) (t_cur : R)
    (net net' : Network) (k : nat) (c : Config) (v s x cur : R) :
  model_type (cfg net) = "SFA"%string ->
  model (cfg net) = Some fn_SFA ->
  length (Vs (sim net)) = neuron_num (cfg net) ->
  length (spikes_t (sim net)) = neuron_num (cfg net) ->
  length (n (sim net)) = neuron_num (cfg net) ->
  length (Is (sim net)) = neuron_num (cfg net) ->
  (k < neuron_num (cfg net))%nat ->
  run_step input_type I i t_cur net = Done net' ->
  cfg net = c ->
  nth k (Vs (sim net)) 0 = v -> nth k (spikes_t (sim net)) 0 = s ->
  nth k (n (sim net)) 0 = x -> nth k (Is (sim net)) 0 = cur ->
  let n' := K_update c x (K_gate t_cur s) in
  let ia := gk c * n' * (v - Vk c) in
  let v3 := v + dt c * ((Vr c - v + (cur - ia) * Res c) / tau c) in
  nth k (n (sim net')) 0 = n' /\
  nth k (spikes_t (sim net')) 0 = (if Rgtb v3 (Vth c) then t_cur else s) /\
  nth k (Vs (sim net')) 0 = (if Rgtb v3 (Vth c) then Vreset c else v3).
Proof.
  intros Hmt Hm HV Ht Hn HI Hk Hstep <- <- <- <- <- n' ia v3.
  destruct (run_step_split _ _ _ _ _ _ Hstep) as (n3 & I_cur & Hint & _).
  destruct (sfa_integrate_values net n3 I input_type i k t_cur I_cur
              Hmt Hm HV Ht Hn HI Hk Hint) as (E1 & _ & E3).
  destruct (run_step_neuron input_type I i t_cur net n3 net' I_cur k Hint Hstep)
    as (_ & F2 & F3 & F4); [lia | lia |].
  rewrite E3 in F2, F3. rewrite F4.
  split; [exact E1|]. split; [exact F2 | exact F3].
Qed.

(** One completed step of the LIF model, for a neuron [k] that has not
    spiked yet and starts the step with potential [v] and current [cur]. *)
Lemma lif_step_neuron (input_type : bool) (I : list (list R)) (i : nat) (t_cur : R)
    (net net' : Network) (k : nat) (c : Config) (v cur : R) :
  model_type (cfg net) = "LIF"%string ->
  model (cfg net) = Some fn_LIF ->
  length (spikes_t (sim net)) = length (Vs (sim net)) ->
  length (type_array net) = length (Vs (sim net)) ->
  length (Is (sim net)) = length (Vs (sim net)) ->
  (k < length (Vs (sim net)))%nat ->
  run_step input_type I i t_cur net = Done net' ->
  cfg net = c ->
  nth k (Vs (sim net)) 0 = v -> nth k (spikes_t (sim net)) 0 = -1 ->
  nth k (Is (sim net)) 0 = cur ->
  let v3 := v + dt c * ((Vr c - v + cur * Res c) / tau c) in
  nth k (spikes_t (sim net')) 0 = (if Rgtb v3 (Vth c) then t_cur else -1) /\
  nth k (Vs (sim net')) 0 = (if Rgtb v3 (Vth c) then Vreset c else v3).
Proof.
  intros Hmt Hm Hls Hlt Hli Hk Hstep <- <- Hs <- v3.
  destruct (run_step_split _ _ _ _ _ _ Hstep) as (n3 & I_cur & Hint & _).
  pose proof (proj1 (lif_integrate_values net n3 I input_type i k t_cur I_cur
                       Hmt Hm Hls Hlt Hli Hk Hint) (or_introl Hs)) as E3.
  destruct (run_step_neuron input_type I i t_cur net n3 net' I_cur k Hint Hstep)
    as (_ & F2 & F3 & _); [lia | lia |].
  rewrite E3 in F2, F3. rewrite Hs in F2. split; [exact F2 | exact F3].
Qed.

Lemma high_rest_sfa_wired : wired (cfg high_rest_sfa_net).
Proof. exact (network_of_wired high_rest_sfa_args [[0]] [[5]] (or_intror eq_refl)). Qed.

Lemma high_rest_sfa_shaped : shaped_topo high_rest_sfa_net.
Proof. exact (network_of_shaped high_rest_sfa_args [[0]] [[5]] eq_refl eq_refl). Qed.

Lemma high_rest_sfa_indexed : types_indexed high_rest_sfa_net.
Proof. exact (types_indexed_SFA high_rest_sfa_net eq_refl). Qed.

Lemma K_gate_closed (now : R) : K_gate now (-1) = false.
Proof.
  destruct (K_gate now (-1)) eqn:E; [|reflexivity]. apply K_gate_spec in E. lra.
Qed.

Lemma K_gate_open (now s : R) : now - s <= 1 -> s > 0 -> K_gate now s = true.
Proof. intros H1 H2. apply K_gate_spec. split; assumption. Qed.

Lemma high_rest_sfa_rows :
  Forall (row_accepted (cfg high_rest_sfa_net) false) [[3]; [0]; [0]].
Proof. repeat constructor. Qed.

(** The run of [high_rest_sfa_net] on the currents 3, 0, 0: the neuron spikes
    in the first step and starts the second at the reset potential, with the
    current 3 of the first row. *)
Lemma high_rest_sfa_step1 :
  exists n1,
    run_loop false [[3]; [0]; [0]] (firstn 1 (run_times (cfg high_rest_sfa_net) 3))
             (run_prepare high_rest_sfa_net [[3]; [0]; [0]]) = Done n1 /\
    nth 0 (spikes_t (sim n1)) 0 = INR 1 * 0.01 /\
    nth 0 (Vs (sim n1)) 0 = 10 /\
    nth 0 (n (sim n1)) 0 = 0 /\
    nth 0 (Is (sim n1)) 0 = 3.
Proof.
  destruct (run_prefix_total high_rest_sfa_net [[3]; [0]; [0]] false 1
              high_rest_sfa_wired high_rest_sfa_indexed high_rest_sfa_shaped
              high_rest_sfa_rows) as (n1 & Hpre & Hsh & Hc & Hto & HIs).
  exists n1. split; [exact Hpre|].
  destruct (run_prefix_snoc high_rest_sfa_net [[3]; [0]; [0]] false 0 n1
              (Nat.lt_0_succ 2) Hpre) as (n0 & H0 & Hstep).
  cbn [firstn run_loop] in H0. injection H0 as <-.
  pose proof (sfa_step_neuron false [[3]; [0]; [0]] 1 _
                (run_prepare high_rest_sfa_net [[3]; [0]; [0]]) n1 0
                (init_config high_rest_sfa_args) 20 (-1) 0 0
                eq_refl eq_refl eq_refl eq_refl eq_refl eq_refl (Nat.lt_0_succ 0) Hstep
                eq_refl eq_refl eq_refl eq_refl eq_refl)
    as L.
  cbv zeta in L. rewrite K_gate_closed in L.
  unfold K_update, b2R in L. simpl in L. destruct L as (L1 & L2 & L3).
  rewrite Rgtb_true in L2, L3 by lra.
  split; [rewrite L2; simpl; reflexivity|].
  split; [rewrite L3; lra|]. split; [rewrite L1; lra|].
  rewrite (run_step_unconnected [[3]; [0]; [0]] 1 _ _ n1 0 Hstep);
    [reflexivity | reflexivity | reflexivity | reflexivity | simpl; lia |].
  intros [|[|j]]; reflexivity.
Qed.

(** The second step of that run: the gate of [K_frac] is open, the open
    fraction leaves 0, and the neuron does not spike. *)
Lemma high_rest_sfa_step2 :
  exists n2,
    run_loop false [[3]; [0]; [0]] (firstn 2 (run_times (cfg high_rest_sfa_net) 3))
             (run_prepare high_rest_sfa_net [[3]; [0]; [0]]) = Done n2 /\
    nth 0 (spikes_t (sim n2)) 0 = INR 1 * 0.01 /\
    nth 0 (n (sim n2)) 0 = 0.0002.
Proof.
  destruct high_rest_sfa_step1 as (n1 & Hpre1 & S1 & V1 & N1 & I1).
  destruct (run_prefix_total high_rest_sfa_net [[3]; [0]; [0]] false 1
              high_rest_sfa_wired high_rest_sfa_indexed high_rest_sfa_shaped
              high_rest_sfa_rows) as (n1' & Hpre1' & [SV St Sn _] & Hc & Hto & HIs).
  cbn [length] in Hpre1'.
  assert (E : n1' = n1) by congruence. subst n1'.
  destruct (run_prefix_total high_rest_sfa_net [[3]; [0]; [0]] false 2
              high_rest_sfa_wired high_rest_sfa_indexed high_rest_sfa_shaped
              high_rest_sfa_rows) as (n2 & Hpre & _).
  exists n2. split; [exact Hpre|].
  destruct (run_prefix_snoc high_rest_sfa_net [[3]; [0]; [0]] false 1 n2
              ltac:(simpl; lia) Hpre) as (n1' & H1 & Hstep).
  cbn [length] in H1.
  assert (E : n1' = n1) by congruence. subst n1'.
  rewrite Hc in SV, St, Sn.
  pose proof (sfa_step_neuron false [[3]; [0]; [0]] 2 _ n1 n2 0
                (init_config high_rest_sfa_args) 10 (INR 1 * 0.01) 0 3
                ltac:(rewrite Hc; reflexivity) ltac:(rewrite Hc; reflexivity)
                ltac:(rewrite Hc; exact SV) ltac:(rewrite Hc; exact St)
                ltac:(rewrite Hc; exact Sn) ltac:(rewrite Hc; exact HIs)
                ltac:(rewrite Hc; apply Nat.lt_0_succ) Hstep
                Hc V1 S1 N1 I1)
    as L.
  cbv zeta in L.
  rewrite (K_gate_open _ (INR 1 * 0.01)) in L by (simpl; lra).
  unfold K_update, b2R in L. simpl in L. destruct L as (L1 & L2 & L3).
  rewrite Rgtb_false in L2 by lra.
  split; [rewrite L2; simpl; reflexivity|].
  rewrite L1. lra.
Qed.

(** The second and the third step of the run of [high_rest_sfa_net] on the
    currents 3, 0, 0.  The neuron spiked in the first step, at time 0.01: in
    the second step the gate is open and the open fraction goes from 0 to
    0.0002; in the third step the gate is still open and the fraction goes
    on from 0.0002. *)
Lemma sfa_adaptation_update_witness :
  exists n1 n2 n3,
    run_loop false [[3]; [0]; [0]] (firstn 1 (run_times (cfg high_rest_sfa_net) 3))
             (run_prepare high_rest_sfa_net [[3]; [0]; [0]]) = Done n1 /\
    run_step false [[3]; [0]; [0]] 2 (INR 2 * 0.01) n1 = Done n2 /\
    nth 0 (spikes_t (sim n1)) 0 = INR 1 * 0.01 /\
    K_gate (INR 2 * 0.01) (nth 0 (spikes_t (sim n1)) 0) = true /\
    nth 0 (n (sim n1)) 0 = 0 /\
    nth 0 (n (sim n2)) 0 = 0 - 0.01 * (0 / 230 - 0.02 * (1 - 0) * 1) /\
    nth 0 (n (sim n2)) 0 = 0.0002 /\
    run_loop false [[3]; [0]; [0]] (firstn 2 (run_times (cfg high_rest_sfa_net) 3))
             (run_prepare high_rest_sfa_net [[3]; [0]; [0]]) = Done n2 /\
    run_step false [[3]; [0]; [0]] 3 (INR 3 * 0.01) n2 = Done n3 /\
    K_gate (INR 3 * 0.01) (nth 0 (spikes_t (sim n2)) 0) = true /\
    nth 0 (n (sim n3)) 0 = 0.0002 - 0.01 * (0.0002 / 230 - 0.02 * (1 - 0.0002) * 1).
Proof.
  destruct high_rest_sfa_step1 as (n1 & Hpre1 & S1 & V1 & N1 & I1).
  destruct high_rest_sfa_step2 as (n2 & Hpre2 & S2 & N2).
  assert (Hdt : 0 < dt (cfg high_rest_sfa_net)) by (simpl; lra).
  assert (H13 : (1 < 3)%nat) by lia.
  assert (H23 : (2 < 3)%nat) by lia.
  destruct (sfa_adaptation_update high_rest_sfa_net [[3]; [0]; [0]] false 1 2
              (INR 2 * 0.01) n1 eq_refl eq_refl Hdt H13 Hpre1
              (nth_run_times (cfg high_rest_sfa_net) 3 1 H13)) as (Hrun1 & Hspec1).
  destruct (Hrun1 high_rest_sfa_wired high_rest_sfa_shaped high_rest_sfa_rows)
    as (n2' & Hstep1).
  destruct (run_prefix_snoc high_rest_sfa_net [[3]; [0]; [0]] false 1 n2 H13 Hpre2)
    as (n1' & Hp & Hstep1').
  cbn [length] in Hp. rewrite Hpre1 in Hp. injection Hp as <-.
  change (dt (cfg high_rest_sfa_net)) with 0.01 in Hstep1'.
  rewrite Hstep1 in Hstep1'. injection Hstep1' as ->.
  destruct (Hspec1 0%nat n2 Hstep1 (Nat.lt_0_succ 0)) as (A1 & A2 & _).
  assert (G1 : K_gate (INR 2 * 0.01) (nth 0 (spikes_t (sim n1)) 0) = true).
  { apply A2. rewrite S1. simpl. lra. }
  rewrite G1, N1 in A1. simpl in A1.
  destruct (sfa_adaptation_update high_rest_sfa_net [[3]; [0]; [0]] false 2 3
              (INR 3 * 0.01) n2 eq_refl eq_refl Hdt H23 Hpre2
              (nth_run_times (cfg high_rest_sfa_net) 3 2 H23)) as (Hrun2 & Hspec2).
  destruct (Hrun2 high_rest_sfa_wired high_rest_sfa_shaped high_rest_sfa_rows)
    as (n3 & Hstep2).
  destruct (Hspec2 0%nat n3 Hstep2 (Nat.lt_0_succ 0)) as (B1 & B2 & _).
  assert (G2 : K_gate (INR 3 * 0.01) (nth 0 (spikes_t (sim n2)) 0) = true).
  { apply B2. rewrite S2. simpl. lra. }
  rewrite G2, N2 in B1. simpl in B1.
  exists n1, n2, n3.
  split; [exact Hpre1|]. split; [exact Hstep1|]. split; [exact S1|].
  split; [exact G1|]. split; [exact N1|]. split; [exact A1|]. split; [exact N2|].
  split; [exact Hpre2|]. split; [exact Hstep2|]. split; [exact G2 | exact B1].
Defined.

(** The second step of the same run, seen at line 273: the open fraction
    becomes 0.0002, the adaptation current [10 * 0.0002 * (10 + 60.6)], and
    the potential moves from the reset potential 10 under the current 3. *)
Lemma sfa_euler_step_witness :
  exists n1 n3,
    run_loop false [[3]; [0]; [0]] (firstn 1 (run_times (cfg high_rest_sfa_net) 3))
             (run_prepare high_rest_sfa_net [[3]; [0]; [0]]) = Done n1 /\
    integrate_part false [[3]; [0]; [0]] 2 (INR 2 * 0.01) n1 = (n3, inr [0]) /\
    K_gate (INR 2 * 0.01) (nth 0 (spikes_t (sim n1)) 0) = true /\
    nth 0 (Vs (sim n1)) 0 = 10 /\ nth 0 (Is (sim n1)) 0 = 3 /\
    nth 0 (n (sim n3)) 0 = 0.0002 /\
    nth 0 (Ia (sim n3)) 0 = 10 * 0.0002 * (10 - -60.6) /\
    nth 0 (Vs (sim n3)) 0 =
      10 + 0.01 * ((20 - 10 + (3 - 10 * 0.0002 * (10 - -60.6)) * 1) / 30).
Proof.
  destruct high_rest_sfa_step1 as (n1 & Hpre1 & S1 & V1 & N1 & I1).
  destruct high_rest_sfa_step2 as (n2 & Hpre2 & _).
  destruct (run_prefix_shaped _ _ _ _ _ Hpre1) as ([SV St Sn _] & Hc).
  destruct (run_prefix_total high_rest_sfa_net [[3]; [0]; [0]] false 1
              high_rest_sfa_wired high_rest_sfa_indexed high_rest_sfa_shaped
              high_rest_sfa_rows) as (n1' & Hp & _ & _ & _ & HIs).
  cbn [length] in Hp. rewrite Hpre1 in Hp. injection Hp as <-.
  assert (H13 : (1 < 3)%nat) by lia.
  destruct (run_prefix_snoc high_rest_sfa_net [[3]; [0]; [0]] false 1 n2 H13 Hpre2)
    as (n1' & Hp & Hstep).
  cbn [length] in Hp. rewrite Hpre1 in Hp. injection Hp as <-.
  change (dt (cfg high_rest_sfa_net)) with 0.01 in Hstep.
  destruct (run_step_split _ _ _ _ _ _ Hstep) as (n3 & I_cur & Hint & _).
  destruct (integrate_part_frame _ _ _ _ _ _ _ Hint)
    as (_ & _ & _ & _ & _ & _ & _ & _ & _ & _ & C11 & _).
  destruct (C11 eq_refl) as (EI & _). cbn [Nat.sub nth] in EI. subst I_cur.
  assert (G : K_gate (INR 2 * 0.01) (nth 0 (spikes_t (sim n1)) 0) = true)
    by (rewrite S1; apply K_gate_open; simpl; lra).
  assert (Hk : (0 < neuron_num (cfg n1))%nat) by (rewrite Hc; apply Nat.lt_0_succ).
  assert (HIs' : length (Is (sim n1)) = neuron_num (cfg n1)) by (rewrite Hc; exact HIs).
  assert (Hmt : model_type (cfg n1) = "SFA"%string) by (rewrite Hc; reflexivity).
  assert (Hm : model (cfg n1) = Some fn_SFA) by (rewrite Hc; reflexivity).
  destruct (sfa_euler_step n1 n3 [[3]; [0]; [0]] false 2 0 (INR 2 * 0.01) [0]
              Hmt Hm SV St Sn HIs' Hk Hint) as (E1 & E2 & E3).
  rewrite G, Hc, ?N1, ?V1, ?I1 in E1, E2, E3.
  unfold K_update, b2R in E1, E2, E3. simpl in E1, E2, E3.
  exists n1, n3.
  split; [exact Hpre1|]. split; [exact Hint|]. split; [exact G|].
  split; [exact V1|]. split; [exact I1|].
  split; [rewrite E1; lra|]. split; [rewrite E2; lra | rewrite E3; lra].
Defined.

Lemma one_inhibitory_rows :
  Forall (row_accepted (cfg one_inhibitory_net) false) [[3]; [0]].
Proof. repeat constructor. Qed.

Lemma high_rest_rows : Forall (row_accepted (cfg high_rest_net) false) [[0]; [0]].
Proof. repeat constructor. Qed.

(** The run of [one_inhibitory_net] on the currents 3, 0: after the first
    step the neuron has not spiked, rests at 0 and holds the current 3. *)
Lemma lif_driven_step1 :
  exists n1,
    run_loop false [[3]; [0]] (firstn 1 (run_times (cfg one_inhibitory_net) 2))
             (run_prepare one_inhibitory_net [[3]; [0]]) = Done n1 /\
    nth 0 (spikes_t (sim n1)) 0 = -1 /\
    nth 0 (Vs (sim n1)) 0 = 0 /\
    nth 0 (Is (sim n1)) 0 = 3.
Proof.
  destruct (run_prefix_total one_inhibitory_net [[3]; [0]] false 1
              (network_of_wired one_inhibitory_args [[0]] [[-20]] (or_introl eq_refl))
              one_inhibitory_indexed
              (network_of_shaped one_inhibitory_args [[0]] [[-20]] eq_refl eq_refl)
              one_inhibitory_rows) as (n1 & Hpre & _).
  exists n1. split; [exact Hpre|].
  destruct (run_prefix_snoc one_inhibitory_net [[3]; [0]] false 0 n1
              (Nat.lt_0_succ 1) Hpre) as (n0 & H0 & Hstep).
  cbn [firstn run_loop] in H0. injection H0 as <-.
  pose proof (lif_step_neuron false [[3]; [0]] 1 _
                (run_prepare one_inhibitory_net [[3]; [0]]) n1 0
                (init_config one_inhibitory_args) 0 0
                eq_refl eq_refl eq_refl eq_refl eq_refl (Nat.lt_0_succ 0) Hstep
                eq_refl eq_refl eq_refl eq_refl)
    as L.
  cbv zeta in L. simpl in L. destruct L as (L2 & L3).
  rewrite Rgtb_false in L2, L3 by lra.
  split; [exact L2|]. split; [rewrite L3; lra|].
  rewrite (run_step_unconnected [[3]; [0]] 1 _ _ n1 0 Hstep);
    [reflexivity | reflexivity | reflexivity | reflexivity | simpl; lia |].
  intros [|[|j]]; reflexivity.
Qed.

(** The run of [high_rest_net] on zero currents: the neuron spikes in the
    first step and starts the second at the reset potential. *)
Lemma high_rest_step1 :
  exists n1,
    run_loop false [[0]; [0]] (firstn 1 (run_times (cfg high_rest_net) 2))
             (run_prepare high_rest_net [[0]; [0]]) = Done n1 /\
    nth 0 (spikes_t (sim n1)) 0 = INR 1 * 0.01 /\
    nth 0 (Vs (sim n1)) 0 = 10.
Proof.
  destruct (run_prefix_total high_rest_net [[0]; [0]] false 1
              (network_of_wired high_rest_args [[0]] [[5]] (or_introl eq_refl))
              high_rest_indexed
              (network_of_shaped high_rest_args [[0]] [[5]] eq_refl eq_refl)
              high_rest_rows) as (n1 & Hpre & _).
  exists n1. split; [exact Hpre|].
  destruct (run_prefix_snoc high_rest_net [[0]; [0]] false 0 n1
              (Nat.lt_0_succ 1) Hpre) as (n0 & H0 & Hstep).
  cbn [firstn run_loop] in H0. injection H0 as <-.
  pose proof (lif_step_neuron false [[0]; [0]] 1 _
                (run_prepare high_rest_net [[0]; [0]]) n1 0
                (init_config high_rest_args) 20 0
                eq_refl eq_refl eq_refl eq_refl eq_refl (Nat.lt_0_succ 0) Hstep
                eq_refl eq_refl eq_refl eq_refl)
    as L.
  cbv zeta in L. simpl in L. destruct L as (L2 & L3).
  rewrite Rgtb_true in L2, L3 by lra.
  split; [rewrite L2; simpl; reflexivity | rewrite L3; lra].
Qed.

(** The second step of two LIF runs, seen at line 273.  On the currents
    3, 0 the neuron of [one_inhibitory_net], which has not spiked, moves from
    0 under the current 3 of the first row.  On zero currents the neuron of
    [high_rest_net], which spiked in the first step and is refractory, keeps
    the reset potential 10 although its resting potential is 20. *)
Lemma lif_euler_step_witness :
  exists n1 n3 m1 m3,
    run_loop false [[3]; [0]] (firstn 1 (run_times (cfg one_inhibitory_net) 2))
             (run_prepare one_inhibitory_net [[3]; [0]]) = Done n1 /\
    integrate_part false [[3]; [0]] 2 (INR 2 * 0.01) n1 = (n3, inr [0]) /\
    nth 0 (spikes_t (sim n1)) 0 = -1 /\ nth 0 (Is (sim n1)) 0 = 3 /\
    nth 0 (Vs (sim n3)) 0 = 0 + 0.01 * ((0 - 0 + 3 * 1) / 30) /\
    run_loop false [[0]; [0]] (firstn 1 (run_times (cfg high_rest_net) 2))
             (run_prepare high_rest_net [[0]; [0]]) = Done m1 /\
    integrate_part false [[0]; [0]] 2 (INR 2 * 0.01) m1 = (m3, inr [0]) /\
    nth 0 (spikes_t (sim m1)) 0 = INR 1 * 0.01 /\
    nth 0 (Vs (sim m1)) 0 = 10 /\
    nth 0 (Vs (sim m3)) 0 = 10.
Proof.
  assert (H12 : (1 < 2)%nat) by lia.
  destruct lif_driven_step1 as (n1 & Hpre1 & S1 & V1 & I1).
  destruct (run_prefix_total one_inhibitory_net [[3]; [0]] false 1
              (network_of_wired one_inhibitory_args [[0]] [[-20]] (or_introl eq_refl))
              one_inhibitory_indexed
              (network_of_shaped one_inhibitory_args [[0]] [[-20]] eq_refl eq_refl)
              one_inhibitory_rows) as (n1' & Hp & [SV St _ _] & Hc & _ & HIs).
  cbn [length] in Hp. rewrite Hpre1 in Hp. injection Hp as <-.
  destruct (run_prefix_total one_inhibitory_net [[3]; [0]] false 2
              (network_of_wired one_inhibitory_args [[0]] [[-20]] (or_introl eq_refl))
              one_inhibitory_indexed
              (network_of_shaped one_inhibitory_args [[0]] [[-20]] eq_refl eq_refl)
              one_inhibitory_rows) as (n2 & Hpre2 & _).
  destruct (run_prefix_snoc one_inhibitory_net [[3]; [0]] false 1 n2 H12 Hpre2)
    as (n1' & Hp & Hstep).
  cbn [length] in Hp. rewrite Hpre1 in Hp. injection Hp as <-.
  change (dt (cfg one_inhibitory_net)) with 0.01 in Hstep.
  destruct (run_step_split _ _ _ _ _ _ Hstep) as (n3 & I_cur & Hint & _).
  destruct (integrate_part_frame _ _ _ _ _ _ _ Hint)
    as (_ & _ & _ & _ & _ & _ & _ & _ & _ & _ & C11 & _).
  destruct (C11 eq_refl) as (EI & _). cbn [Nat.sub nth] in EI. subst I_cur.
  rewrite Hc in SV, St.
  assert (Hty : type_array n1 = [0%nat])
    by (rewrite (run_loop_type_array _ _ _ _ _ Hpre1); reflexivity).
  assert (Hmt : model_type (cfg n1) = "LIF"%string) by (rewrite Hc; reflexivity).
  assert (Hm : model (cfg n1) = Some fn_LIF) by (rewrite Hc; reflexivity).
  assert (Hls : length (spikes_t (sim n1)) = length (Vs (sim n1))) by congruence.
  assert (Hlt : length (type_array n1) = length (Vs (sim n1)))
    by (rewrite Hty, SV; reflexivity).
  assert (Hli : length (Is (sim n1)) = length (Vs (sim n1))) by congruence.
  assert (Hk : (0 < length (Vs (sim n1)))%nat) by (rewrite SV; apply Nat.lt_0_succ).
  pose proof (proj1 (lif_euler_step n1 n3 [[3]; [0]] false 2 0 (INR 2 * 0.01) [0]
                       Hmt Hm Hls Hlt Hli Hk Hint) (or_introl S1)) as E.
  rewrite Hc, V1, I1 in E. simpl in E.
  destruct high_rest_step1 as (m1 & Hqre1 & T1 & W1).
  destruct (run_prefix_total high_rest_net [[0]; [0]] false 1
              (network_of_wired high_rest_args [[0]] [[5]] (or_introl eq_refl))
              high_rest_indexed
              (network_of_shaped high_rest_args [[0]] [[5]] eq_refl eq_refl)
              high_rest_rows) as (m1' & Hq & [SV' St' _ _] & Hc' & _ & HIs').
  cbn [length] in Hq. rewrite Hqre1 in Hq. injection Hq as <-.
  destruct (run_prefix_total high_rest_net [[0]; [0]] false 2
              (network_of_wired high_rest_args [[0]] [[5]] (or_introl eq_refl))
              high_rest_indexed
              (network_of_shaped high_rest_args [[0]] [[5]] eq_refl eq_refl)
              high_rest_rows) as (m2 & Hqre2 & _).
  destruct (run_prefix_snoc high_rest_net [[0]; [0]] false 1 m2 H12 Hqre2)
    as (m1' & Hq & Hstep').
  cbn [length] in Hq. rewrite Hqre1 in Hq. injection Hq as <-.
  change (dt (cfg high_rest_net)) with 0.01 in Hstep'.
  destruct (run_step_split _ _ _ _ _ _ Hstep') as (m3 & J_cur & Hint' & _).
  destruct (integrate_part_frame _ _ _ _ _ _ _ Hint')
    as (_ & _ & _ & _ & _ & _ & _ & _ & _ & _ & D11 & _).
  destruct (D11 eq_refl) as (EJ & _). cbn [Nat.sub nth] in EJ. subst J_cur.
  rewrite Hc' in SV', St'.
  assert (Hty' : type_array m1 = [1%nat])
    by (rewrite (run_loop_type_array _ _ _ _ _ Hqre1); reflexivity).
  assert (Hmt' : model_type (cfg m1) = "LIF"%string) by (rewrite Hc'; reflexivity).
  assert (Hm' : model (cfg m1) = Some fn_LIF) by (rewrite Hc'; reflexivity).
  assert (Hls' : length (spikes_t (sim m1)) = length (Vs (sim m1))) by congruence.
  assert (Hlt' : length (type_array m1) = length (Vs (sim m1)))
    by (rewrite Hty', SV'; reflexivity).
  assert (Hli' : length (Is (sim m1)) = length (Vs (sim m1))) by congruence.
  assert (Hk' : (0 < length (Vs (sim m1)))%nat) by (rewrite SV'; apply Nat.lt_0_succ).
  assert (Hne : nth 0 (spikes_t (sim m1)) 0 <> -1) by (rewrite T1; simpl; lra).
  assert (Hin : INR 2 * 0.01 - nth 0 (spikes_t (sim m1)) 0 <=
                nth (nth 0 (type_array m1) 0%nat) (ref (cfg m1)) 0)
    by (rewrite T1, Hty', Hc'; simpl; lra).
  pose proof (proj2 (lif_euler_step m1 m3 [[0]; [0]] false 2 0 (INR 2 * 0.01) [0]
                       Hmt' Hm' Hls' Hlt' Hli' Hk' Hint') Hne Hin) as E'.
  rewrite W1 in E'.
  exists n1, n3, m1, m3.
  split; [exact Hpre1|]. split; [exact Hint|]. split; [exact S1|]. split; [exact I1|].
  split; [exact E|].
  split; [exact Hqre1|]. split; [exact Hint'|]. split; [exact T1|].
  split; [exact W1 | exact E'].
Defined.

(** The neuron of [high_rest_net] spikes in the first step and is put at
    the reset potential 10, below the threshold 15. *)
Lemma potentials_after_step_witness :
  exists net',
    run_step false [[0]] 1 0.01 (run_prepare high_rest_net [[0]]) = Done net' /\
    nth 0 (Vs (sim net')) 0 <= 15.
Proof.
  destruct (high_rest_first_step [[0]] 0.01 eq_refl) as (net' & Hstep & _).
  exists net'. split; [exact Hstep|].
  assert (Hk : (0 < length (Vs (sim net')))%nat).
  { destruct (run_step_shaped 1 _ _ _ _ _ _ (shaped_run_prepare high_rest_net [[0]]) Hstep)
      as [SV _ _ _].
    destruct (run_step_frame _ _ _ _ _ _ Hstep) as (Hc & _).
    rewrite SV, Hc. simpl. lia. }
  apply (proj2 (potentials_after_step false [[0]] 1 0.01
                  (run_prepare high_rest_net [[0]]) net' 0 Hstep Hk)).
  simpl. lra.
Defined.


(** Two steps of 0.01 each. *)
Lemma run_model_clock_witness :
  exists nT,
    run_model one_inhibitory_net [[0]; [0]] false = Done nT /\
    t nT = INR 2 * 0.01.
Proof.
  destruct (example_run one_inhibitory_args [[0]] [[-20]] [[0]; [0]] false
              (or_introl eq_refl) (le_n 2) (le_n 2) eq_refl eq_refl) as (nT & Hrun).
  { constructor; [left; reflexivity | constructor; [left; reflexivity | constructor]]. }
  exists nT. split; [exact Hrun|].
  apply (proj2 (run_model_clock one_inhibitory_net nT [[0]; [0]] false Hrun)).
  discriminate.
Defined.

(** One step of the SFA neuron with the default constants. *)
Lemma sfa_open_fraction_bounds_witness :
  exists nT,
    run_model sfa_net [[0]] false = Done nT /\
    0 <= nth 0 (n (sim nT)) 0 <= 1.
Proof.
  destruct (example_run sfa_args [[0]] [[5]] [[0]] false
              (or_intror eq_refl) (le_n 2) (le_n 2) eq_refl eq_refl) as (nT & Hrun).
  { constructor; [left; reflexivity | constructor]. }
  exists nT. split; [exact Hrun|].
  pose proof Hrun as Hpre. rewrite <- run_model_as_prefix in Hpre.
  apply (sfa_open_fraction_bounds sfa_net [[0]] false 1 nT 0 eq_refl);
    try (simpl; lra); [apply le_n | exact Hpre | apply Nat.lt_0_succ].
Defined.

(** After the first of two steps the neuron of [high_rest_net] has spiked. *)
Lemma high_rest_prefix :
  exists nj,
    run_loop false [[0]; [0]] (firstn 1 (run_times (cfg high_rest_net) 2))
             (run_prepare high_rest_net [[0]; [0]]) = Done nj /\
    nth 0 (spikes_t (sim nj)) 0 = INR 1 * 0.01.
Proof.
  destruct (high_rest_first_step [[0]; [0]] (INR 1 * 0.01) eq_refl) as (nj & Hstep & Hs).
  exists nj. split; [|exact Hs].
  destruct (run_times_head (cfg high_rest_net) 2 (Nat.lt_0_succ 1)) as (rest & ->).
  cbn [firstn run_loop]. change (dt (cfg high_rest_net)) with 0.01.
  rewrite Hstep. reflexivity.
Qed.

(** At the end of the step of its spike the neuron of [high_rest_net] is
    refractory and sits at the reset potential. *)
Lemma lif_refractory_hold_witness :
  exists nj,
    run_loop false [[0]; [0]] (firstn 1 (run_times (cfg high_rest_net) 2))
             (run_prepare high_rest_net [[0]; [0]]) = Done nj /\
    nth 0 (spikes_t (sim nj)) 0 = INR 1 * 0.01 /\
    nth 0 (Vs (sim nj)) 0 = 15 - 5.
Proof.
  destruct high_rest_prefix as (nj & Hloop & Hs).
  exists nj. split; [exact Hloop|]. split; [exact Hs|].
  assert (Hdt : 0 < dt (cfg high_rest_net)) by (simpl; lra).
  assert (Hne : nth 0 (spikes_t (sim nj)) 0 <> -1).
  { rewrite Hs. change (INR 1) with 1. lra. }
  apply (proj1 (lif_refractory_hold high_rest_net [[0]; [0]] false 1 nj 0
                  eq_refl Hdt eq_refl (Nat.le_succ_diag_r 1) Hloop
                  (Nat.lt_0_succ 0) Hne)).
  rewrite (run_loop_type_array _ _ _ _ _ Hloop), Hs.
  rewrite (proj2 (run_prefix_clock high_rest_net [[0]; [0]] false 1 nj
                    (Nat.le_succ_diag_r 1) Hloop) (le_n 1)).
  simpl. lra.
Defined.

(** Two neurons and one input channel: 2 draws for the input edges and 2
    for the pairs. *)
Lemma generate_connections_draws_witness :
  exists g',
    generate_connections (init_config two_neuron_args) zero_draws
      (mkGenState (zeros2 2 2) (zeros2 2 1) 0) = inr g' /\
    g_draws g' = 4%nat.
Proof.
  destruct (generate_connections_total (init_config two_neuron_args) zero_draws
              (mkGenState (zeros2 2 2) (zeros2 2 1) 0)
              default_V_syn_complete default_connect_const_complete
              (init_config_neuron_num two_neuron_args)) as (g' & Hg).
  exists g'. split; [exact Hg|].
  exact (generate_connections_draws _ _ _ _ Hg).
Defined.

Lemma two_cluster_split :
  cluster_of (init_config two_cluster_args) 0 <> cluster_of (init_config two_cluster_args) 1.
Proof.
  unfold cluster_of.
  change (neuron_num (init_config two_cluster_args)) with 2%nat.
  change (clusters (init_config two_cluster_args)) with 2%nat.
  replace (INR 0 / (INR 2 / INR 2)) with (INR 0) by (simpl; field; lra).
  replace (INR 1 / (INR 2 / INR 2)) with (INR 1) by (simpl; field; lra).
  rewrite !Int_part_INR. discriminate.
Qed.

(** Two clusters of one neuron each, every draw 0. *)
Lemma cross_cluster_edges_witness :
  exists net,
    init two_cluster_args zero_draws = inr net /\
    nth 1 (nth 0 (connections (topo net)) []) 0 = 0.
Proof.
  destruct (init_total two_cluster_args zero_draws
              default_V_syn_complete default_connect_const_complete) as (net & Hinit).
  exists net. split; [exact Hinit|].
  apply (cross_cluster_edges two_cluster_args zero_draws net 0 1 Hinit).
  - intro m. unfold zero_draws. lra.
  - simpl. lia.
  - lia.
  - rewrite (init_cfg _ _ _ Hinit). exact two_cluster_split.
Defined.

(** Two neurons of one cluster and no connection constants at all. *)
Lemma init_errors_witness : init no_const_args zero_draws = inl KeyError.
Proof.
  apply (proj2 (proj2 (init_errors no_const_args zero_draws (Forall_nil _)))).
  - simpl. lia.
  - simpl. lia.
  - reflexivity.
Defined.

(** A run on zero current, then a run on one spike event. *)
Lemma current_run_leaves_no_trace_witness :
  exists n1,
    run_model one_inhibitory_net [[0]] false = Done n1 /\
    run_model n1 [[1]] true = run_model one_inhibitory_net [[1]] true.
Proof.
  destruct (example_run one_inhibitory_args [[0]] [[-20]] [[0]] false
              (or_introl eq_refl) (le_n 2) (le_n 2) eq_refl eq_refl) as (n1 & Hrun).
  { constructor; [left; reflexivity | constructor]. }
  exists n1. split; [exact Hrun|].
  apply (current_run_leaves_no_trace one_inhibitory_net n1 [[0]] [[1]] true Hrun).
  - reflexivity.
  - discriminate.
Defined.

(** The one neuron of [one_inhibitory_net] is inhibitory. *)
Lemma type_array_marks_inhibitory_witness :
  length (type_array one_inhibitory_net) = 1%nat /\
  nth 0 (type_array one_inhibitory_net) 0%nat = 0%nat.
Proof.
  assert (Hb : Forall (fun k => (k < neuron_num (init_config one_inhibitory_args))%nat)
                      (Args.inh_idx one_inhibitory_args)).
  { constructor; [simpl; lia | constructor]. }
  destruct (type_array_marks_inhibitory one_inhibitory_args zero_draws one_inhibitory_net
              init_one_inhibitory_net Hb) as (H1 & H2 & _).
  split; [exact H1 | exact (H2 0%nat (Nat.lt_0_succ 0))].
Defined.

(** An event on the one input channel, whose edge has weight -20. *)
Lemma conductance_form_witness :
  exists n1 I_cur ic,
    stage_input true [1] 0.01 one_inhibitory_net = (n1, inr I_cur) /\
    call_input_current n1 = inr ic /\
    nth 0 I_cur 0 =
      vsum (map2 (fun w y => if Reqb w 0 then 0 else (w - 0) * y) [-20] ic).
Proof.
  destruct (stage_input_completes true [1] 0.01 one_inhibitory_net)
    as (n1 & I_cur & Hst & _).
  - discriminate.
  - discriminate.
  - exact (network_of_shaped one_inhibitory_args [[0]] [[-20]] eq_refl eq_refl).
  - reflexivity.
  - unfold row_accepted. rewrite where_nonzero_one.
    constructor; [simpl; lia | constructor].
  - destruct (proj1 (conductance_form one_inhibitory_net 0 eq_refl eq_refl eq_refl eq_refl
                       (Nat.lt_0_succ 0)) [1] 0.01 n1 I_cur Hst) as (ic & Hic & Hv).
    exists n1, I_cur, ic. split; [exact Hst|]. split; [exact Hic | exact Hv].
Defined.

(** An event in the first of two rows. *)
Lemma input_events_latched_witness :
  exists nT,
    run_model one_inhibitory_net [[1]; [0]] true = Done nT /\
    nth 0 (input_t nT) 0 = INR 1 * 0.01.
Proof.
  destruct (example_run one_inhibitory_args [[0]] [[-20]] [[1]; [0]] true
              (or_introl eq_refl) (le_n 2) (le_n 2) eq_refl eq_refl) as (nT & Hrun).
  { constructor; [apply conforming_accepted; reflexivity|].
    constructor; [apply conforming_accepted; reflexivity | constructor]. }
  exists nT. split; [exact Hrun|].
  pose proof Hrun as Hpre. rewrite <- run_model_as_prefix in Hpre.
  apply (proj2 (input_events_latched one_inhibitory_net [[1]; [0]] 2 nT 0
                  (le_n 2) Hpre (Nat.lt_0_succ 0)) 1%nat).
  - lia.
  - simpl. lra.
  - intros i' Hi'. assert (E : i' = 2%nat) by lia. subst i'. reflexivity.
Defined.

Lemma where_nonzero_zeros2 : where_nonzero [0; 0] = [].
Proof.
  unfold where_nonzero. simpl. rewrite Reqb_true. reflexivity.
Qed.

(** Two rows of two columns on the network with one input channel: the
    second row has an event in column 1, which is no input channel. *)
Lemma spike_event_out_of_range_witness :
  exists nj n',
    run_loop true [[0; 0]; [0; 1]] (firstn 1 (run_times (cfg one_inhibitory_net) 2))
             (run_prepare one_inhibitory_net [[0; 0]; [0; 1]]) = Done nj /\
    run_model one_inhibitory_net [[0; 0]; [0; 1]] true = Raised IndexError n' /\
    steps_completed true [[0; 0]; [0; 1]] (run_times (cfg one_inhibitory_net) 2)
                    (run_prepare one_inhibitory_net [[0; 0]; [0; 1]]) = 1%nat /\
    t n' = INR 2 * 0.01 /\
    input_t n' = input_t nj.
Proof.
  apply (spike_event_out_of_range one_inhibitory_net [[0; 0]; [0; 1]] 1 1
           (network_of_wired one_inhibitory_args [[0]] [[-20]] (or_introl eq_refl))
           one_inhibitory_indexed
           (network_of_shaped one_inhibitory_args [[0]] [[-20]] eq_refl eq_refl)).
  - simpl. lia.
  - cbn [firstn]. constructor; [|constructor].
    unfold row_accepted. rewrite where_nonzero_zeros2. constructor.
  - simpl. lia.
  - simpl. lra.
Defined.

(** Resetting after a run gives the arrays of a reset before it. *)
Lemma reset_history_idempotent_witness :
  exists nT,
    run_model one_inhibitory_net [[0]] false = Done nT /\
    sim (reset_history nT) = sim (reset_history one_inhibitory_net).
Proof.
  destruct (example_run one_inhibitory_args [[0]] [[-20]] [[0]] false
              (or_introl eq_refl) (le_n 2) (le_n 2) eq_refl eq_refl) as (nT & Hrun).
  { constructor; [left; reflexivity | constructor]. }
  exists nT. split; [exact Hrun|].
  exact (proj1 (proj2 (reset_history_idempotent one_inhibitory_net) [[0]] false nT Hrun)).
Defined.
